(** * A shallow embedding of the tram-line simulation (tram_simulation.py)

    The Python program simulates a tram fleet on a bidirectional line with
    SimPy.  This development embeds the passenger model ([Stop], [Tram]),
    the configuration loader, the timing functions and the SimPy processes
    ([tram_generator], [tram_process], [arrive_at_stop]) together with the
    part of the SimPy kernel they run on (event heap, [Store], [Timeout],
    [Process]), and proves properties of them.  It also embeds the
    configuration generator (generate_config.py), the final statistics, the
    rows of the summary table of logger.py and the hourly buckets of
    visualization.py.

    Conventions.
    - Python [int] is [Z]; Python [float] is idealised as an exact rational
      [Q] (rounding error is not modelled, [==] is equality of values).
    - [int(x)] on a float truncates toward zero: [py_int].
    - The global [random] generator is an explicit state [RNG] threaded
      through every function that draws from it.
    - A Python exception is a value of [PyError] in the [Raise] branch of
      [result].
    - Console output, the log files written by logger.py, the plots of
      visualization.py and the creation of the run directory have no effect
      on the simulation state and are left out; of the files written only
      the values are modelled (the config dict, the numbers of a summary
      row, the buckets of a plot), not their text. *)

From Stdlib Require Import QArith Qabs Qround Qminmax Lqa Lia.
From stdpp Require Import gmap list sorting.

Local Open Scope Z_scope.

(** ** Python values *)

Inductive PyError :=
| KeyError            (* config[...] on a missing key *)
| IndexError          (* bus_intervals[0] on an empty list *)
| ZeroDivisionError   (* x / 0 *)
| NegativeDelay       (* simpy: ValueError, Timeout(delay) with delay < 0 *)
| UntilNotInFuture    (* simpy: ValueError, run(until) with until <= now *)
| InternalError.      (* an event resuming a generator that is not suspended
                         on it: SimPy never does this, see [run_errors] *)

Inductive result (A : Type) :=
| Ok (a : A)
| Raise (e : PyError).
Arguments Ok {A} a.
Arguments Raise {A} e.

#[global] Instance result_ret : MRet result := fun A a => Ok a.

#[global] Instance result_bind : MBind result := fun A B k r =>
  match r with
  | Ok a => k a
  | Raise e => Raise e
  end.

(** [config[key]]: a missing key raises KeyError. *)
Definition subscript {A} (o : option A) : result A :=
  match o with
  | Some a => Ok a
  | None => Raise KeyError
  end.

(** [int(x)] for a float [x]: truncation toward zero. *)
Definition py_int (x : Q) : Z := Z.quot (Qnum x) (Z.pos (Qden x)).

(** [int(t // 60) % 24] *)
Definition hour_of (t : Q) : Z := Qfloor (t / 60) mod 24.

(** ** TramStats, Stop, Tram *)

Inductive Direction := forward | backward.

#[global] Instance Direction_eq_dec : EqDecision Direction.
Proof. solve_decision. Defined.

Record StopEvent := mkStopEvent {
  ev_time : Q;
  ev_stop_id : Z;
  ev_direction : Direction;
  ev_waiting_before : Z;
  ev_alighted : Z;
  ev_boarded : Z;
  ev_utilization_after : Q
}.

Record TramStats := mkTramStats {
  stats_tram_id : Z;
  passengers_served : Z;
  total_trips : Z;
  utilization_history : list Q;
  stop_log : list StopEvent
}.

Record Stop := mkStop {
  stop_id_of : Z;
  waiting_passengers : Z;
  last_tram_time : Q;
  total_waiting_time : Q;
  stop_passengers_served : Z;
  waiting_history : list (Q * Z)
}.

(** [Stop.__init__] *)
Definition new_Stop (stop_id : Z) : Stop :=
  mkStop stop_id 0 0%Q 0%Q 0 [].

Record Tram := mkTram {
  tram_id : Z;
  capacity : Z;
  passengers : Z;
  direction : Direction;
  stats : TramStats
}.

(** [Tram.__init__] *)
Definition new_Tram (tram_id capacity : Z) : Tram :=
  mkTram tram_id capacity 0 forward (mkTramStats tram_id 0 0 [] []).

Definition set_passengers (t : Tram) (p : Z) : Tram :=
  mkTram (tram_id t) (capacity t) p (direction t) (stats t).

Definition set_direction (t : Tram) (d : Direction) : Tram :=
  mkTram (tram_id t) (capacity t) (passengers t) d (stats t).

Definition set_stats (t : Tram) (s : TramStats) : Tram :=
  mkTram (tram_id t) (capacity t) (passengers t) (direction t) s.

(** [Stop.record_waiting] *)
Definition record_waiting (now : Q) (s : Stop) : Stop :=
  mkStop (stop_id_of s) (waiting_passengers s) (last_tram_time s)
    (total_waiting_time s) (stop_passengers_served s)
    (waiting_history s ++ [(now, waiting_passengers s)]).

Definition set_waiting_passengers (s : Stop) (w : Z) : Stop :=
  mkStop (stop_id_of s) w (last_tram_time s)
    (total_waiting_time s) (stop_passengers_served s) (waiting_history s).

Definition set_last_tram_time (s : Stop) (t : Q) : Stop :=
  mkStop (stop_id_of s) (waiting_passengers s) t
    (total_waiting_time s) (stop_passengers_served s) (waiting_history s).

(** [Stop.add_waiting_time] *)
Definition add_waiting_time (s : Stop) (boarded : Z) (time_since_last : Q) : Stop :=
  let avg_individual_wait := (time_since_last / 2)%Q in
  mkStop (stop_id_of s) (waiting_passengers s) (last_tram_time s)
    (total_waiting_time s + inject_Z boarded * avg_individual_wait)%Q
    (stop_passengers_served s + boarded) (waiting_history s).

(** [Tram.free_seats] *)
Definition free_seats (t : Tram) : Z := capacity t - passengers t.

(** [Tram.utilization] *)
Definition utilization (t : Tram) : Q :=
  if 0 <? capacity t then (inject_Z (passengers t) / inject_Z (capacity t))%Q
  else 0%Q.

(** [Tram.board_passengers]: returns the number boarded and the updated tram. *)
Definition board_passengers (t : Tram) (waiting : Z) : Z * Tram :=
  let can_board := Z.min waiting (free_seats t) in
  (can_board, set_passengers t (passengers t + can_board)).

(** The float [progress] of [alight_passengers]; the division is by
    [total_stops]. *)
Definition progress (d : Direction) (stop_id total_stops : Z) : Q :=
  match d with
  | forward => inject_Z stop_id / inject_Z total_stops
  | backward => inject_Z (total_stops - stop_id + 1) / inject_Z total_stops
  end%Q.

Definition alighting_rate (d : Direction) (stop_id total_stops peak_stop : Z) : Q :=
  let base_rate := if stop_id =? peak_stop then (0.2 * 2)%Q else 0.2%Q in
  let end_bonus := (progress d stop_id total_stops * 0.3)%Q in
  Qmin (base_rate + end_bonus) 0.8.

Definition is_terminal (d : Direction) (stop_id total_stops : Z) : bool :=
  match d with
  | forward => stop_id =? total_stops
  | backward => stop_id =? 1
  end.

(** [Tram.alight_passengers]: returns the number alighted and the updated
    tram; [stop_id / total_stops] raises when [total_stops] is 0. *)
Definition alight_passengers (t : Tram) (stop_id total_stops peak_stop : Z)
  : result (Z * Tram) :=
  if passengers t =? 0 then Ok (0, t)
  else if total_stops =? 0 then Raise ZeroDivisionError
  else
    let rate := alighting_rate (direction t) stop_id total_stops peak_stop in
    let alighting := py_int (inject_Z (passengers t) * rate) in
    let alighting :=
      if is_terminal (direction t) stop_id total_stops then passengers t
      else alighting in
    Ok (alighting, set_passengers t (passengers t - alighting)).

(** [Tram.log_stop_event] *)
Definition log_stop_event (t : Tram) (e : StopEvent) : Tram :=
  let s := stats t in
  set_stats t (mkTramStats (stats_tram_id s) (passengers_served s)
                 (total_trips s) (utilization_history s) (stop_log s ++ [e])).

(** ** The random source

    [random.gauss(mu, sigma)] and [random.uniform(a, b)] read and advance
    the state of the global generator.  In [get_new_passengers] the second
    argument of [gauss] is [math.sqrt(rate)], a function of the first; the
    draw is therefore modelled as a function of the generator state and the
    mean. *)

Section Simulation.

Context {RNG : Type}.
Variable gauss : RNG -> Q -> Q * RNG.
Variable uniform : RNG -> Q -> Q -> Q * RNG.

(** [Stop.get_new_passengers] *)
Definition get_new_passengers (intensity_per_hour time_since_last : Q) (g : RNG)
  : Z * RNG :=
  if Qle_bool time_since_last 0 then (0, g)
  else
    let rate := (intensity_per_hour * (time_since_last / 60))%Q in
    if Qle_bool rate 0 then (0, g)
    else
      let '(sample, g') := gauss g rate in
      (Z.max 0 (py_int sample), g').

(** ** Configuration *)

(** The parsed JSON object: a key may be absent. *)
Record ConfigJson := mkConfigJson {
  json_stop_number : option Z;
  json_distance : option (list (Z * Q));
  json_flow_speed : option Q;
  json_peak_stop : option Z;
  json_tram_capacity : option Z;
  json_simulation_hours : option Q;
  json_acceleration_time : option Q;
  json_stop_time : option Q;
  json_intensity : option (list (Z * Z * Q));
  json_bus_interval : option (list (Z * Q));
  json_road_loads : option (list (Z * Q))
}.

(** The attributes [load_config] sets on the simulation object. *)
Record Config := mkConfig {
  stop_number : Z;
  distances : gmap Z Q;
  flow_speed : Q;
  peak_stop : Z;
  tram_capacity : Z;
  simulation_hours : Q;
  acceleration_time : Q;
  stop_time : Q;
  intensity_map : gmap Z (gmap Z Q);
  bus_intervals : list (Z * Q);
  road_loads : gmap Z Q
}.

(** [{k: v for k, v in items}]: a later item overrides an earlier one. *)
Definition dict_of_items {V} (items : list (Z * V)) : gmap Z V :=
  fold_left (fun m kv => <[kv.1 := kv.2]> m) items ∅.

(** [sorted(rules, key=lambda x: x[0])]: stable, ascending by start hour. *)
Fixpoint insert_rule (r : Z * Q) (l : list (Z * Q)) : list (Z * Q) :=
  match l with
  | [] => [r]
  | r' :: l' => if r.1 <=? r'.1 then r :: l else r' :: insert_rule r l'
  end.

Definition sorted_by_hour (l : list (Z * Q)) : list (Z * Q) :=
  foldr insert_rule [] l.

(** [self.intensity_map[stop_id][hour] = intensity] on a defaultdict(dict) *)
Definition add_intensity (m : gmap Z (gmap Z Q)) (e : Z * Z * Q) : gmap Z (gmap Z Q) :=
  let '(stop_id, hour, intensity) := e in
  <[stop_id := <[hour := intensity]> (default ∅ (m !! stop_id))]> m.

(** [TramSimulation.load_config] *)
Definition load_config (config : ConfigJson) : result Config :=
  stop_number ← subscript (json_stop_number config);
  distance ← subscript (json_distance config);
  flow_speed ← subscript (json_flow_speed config);
  peak_stop ← subscript (json_peak_stop config);
  tram_capacity ← subscript (json_tram_capacity config);
  simulation_hours ← subscript (json_simulation_hours config);
  let acceleration_time := default 0.5%Q (json_acceleration_time config) in
  let stop_time := default 1%Q (json_stop_time config) in
  intensity ← subscript (json_intensity config);
  bus_interval ← subscript (json_bus_interval config);
  road_loads ← subscript (json_road_loads config);
  Ok (mkConfig stop_number (dict_of_items distance) flow_speed peak_stop
        tram_capacity simulation_hours acceleration_time stop_time
        (fold_left add_intensity intensity ∅)
        (sorted_by_hour bus_interval)
        (dict_of_items road_loads)).

Variable cfg : Config.

(** [TramSimulation.get_intensity] *)
Definition get_intensity (stop_id hour : Z) : Q :=
  default 0%Q (default ∅ (intensity_map cfg !! stop_id) !! hour).

(** [TramSimulation.get_current_interval]: the last rule whose start hour
    is at most the current hour, else the first rule; [bus_intervals[0]]
    raises on an empty table. *)
Definition get_current_interval (current_time : Q) : result Q :=
  let hour := hour_of current_time in
  match find (fun r : Z * Q => r.1 <=? hour) (rev (bus_intervals cfg)) with
  | Some r => Ok r.2
  | None =>
      match bus_intervals cfg with
      | r :: _ => Ok r.2
      | [] => Raise IndexError
      end
  end.

(** The [actual_speed] of [calculate_travel_time] for a given jitter. *)
Definition actual_speed (hour : Z) (speed_variation : Q) : Q :=
  let load_factor := default 0.5%Q (road_loads cfg !! hour) in
  Qmax (flow_speed cfg * (1 - load_factor) * speed_variation) 5.

(** [TramSimulation.calculate_travel_time] *)
Definition calculate_travel_time (distance : Q) (hour : Z) (g : RNG) : Q * RNG :=
  if Qle_bool distance 0 then (0%Q, g)
  else
    let '(speed_variation, g') := uniform g 0.95%Q 1.05%Q in
    let travel_time := ((distance / 1000) * (60 / actual_speed hour speed_variation))%Q in
    ((travel_time + acceleration_time cfg)%Q, g').

(** ** The SimPy kernel

    [Environment] keeps the clock and a heap of
    [(time, priority, eid, event)]; [step] pops the least entry, sets the
    clock to its time and runs the callbacks of the event.  An event of the
    program is identified here by what its callbacks do ([EventKind]). *)

Inductive Priority := URGENT | NORMAL.

Inductive EventKind :=
| StorePutInitial                    (* put() in create_initial_trams: [_trigger_get] *)
| StopSimulation                     (* the until event of run() *)
| InitializeGenerator                (* Initialize of tram_generator *)
| StoreGet (tram : Z)                (* a granted get(): resumes tram_generator with the tram *)
| GeneratorTimeout                   (* timeout(interval) of tram_generator *)
| InitializeTrip (p : nat)           (* Initialize of tram_process number p *)
| TripTimeout (p : nat)              (* timeout(travel_time) or timeout(2.0) of tram_process p *)
| InitializeArrive (p : nat) (stop_id : Z)   (* Initialize of arrive_at_stop started by p *)
| ArriveTimeout (p : nat)            (* timeout(total_stop_time) of arrive_at_stop *)
| ArriveProcess (p : nat)            (* end of arrive_at_stop: resumes tram_process p *)
| StorePut (p : nat)                 (* put(tram) of tram_process p: [_trigger_get], resumes p *)
| TripProcess (p : nat).             (* end of tram_process p: no callback *)

Record Event := mkEvent {
  ev_at : Q;
  ev_priority : Priority;
  ev_eid : nat;
  ev_kind : EventKind
}.

Definition priority_ltb (a b : Priority) : bool :=
  match a, b with
  | URGENT, NORMAL => true
  | _, _ => false
  end.

(** Tuple comparison of heap entries; eids are unique, so the event itself
    is never compared. *)
Definition event_ltb (a b : Event) : bool :=
  match (ev_at a ?= ev_at b)%Q with
  | Lt => true
  | Gt => false
  | Eq =>
      if priority_ltb (ev_priority a) (ev_priority b) then true
      else if priority_ltb (ev_priority b) (ev_priority a) then false
      else (ev_eid a <? ev_eid b)%nat
  end.

(** [heappop]: the least entry and the remaining ones. *)
Fixpoint pop_min (q : list Event) : option (Event * list Event) :=
  match q with
  | [] => None
  | e :: q' =>
      match pop_min q' with
      | None => Some (e, [])
      | Some (m, r) => if event_ltb m e then Some (m, e :: r) else Some (e, q')
      end
  end.

(** The order of heap entries on (time, priority). *)
Definition key_le (a b : Event) : Prop :=
  (ev_at a < ev_at b)%Q \/
  ((ev_at a == ev_at b)%Q /\ (ev_priority a = URGENT \/ ev_priority b = NORMAL)).

Record Environment := mkEnvironment {
  now : Q;
  queue : list Event;
  next_eid : nat
}.

(** The only process that calls [get] is the dispatcher. *)
Inductive Getter := dispatcher.

(** [simpy.Store] with unbounded capacity: [items] holds tram references
    (tram ids), [get_queue] the pending get requests. *)
Record Store := mkStore {
  items : list Z;
  get_queue : list Getter
}.

(** ** Process frames *)

(** Where a [tram_process] generator is suspended. *)
Inductive TripPc :=
| TripCreated      (* created by env.process, body not yet entered *)
| Travelling       (* yield self.env.timeout(travel_time) *)
| AtStop           (* yield self.env.process(self.arrive_at_stop(...)) *)
| TurningAround    (* yield self.env.timeout(2.0) *)
| Releasing        (* yield self.available_trams.put(tram) *)
| TripFinished.    (* generator returned *)

#[global] Instance TripPc_eq_dec : EqDecision TripPc.
Proof. solve_decision. Defined.

(** The locals of one [tram_process]: [tram] (a reference), [direction],
    the loop index [i]. *)
Record TripFrame := mkTripFrame {
  trip_tram : Z;
  trip_direction : Direction;
  trip_i : nat;
  trip_pc : TripPc
}.

(** The local [interval] of [tram_generator].  [request_time] is a history
    variable: the clock value when the current loop iteration began; no
    handler reads it. *)
Record GeneratorFrame := mkGeneratorFrame {
  interval : Q;
  request_time : Q
}.

(** The simulation object. *)
Record Sim := mkSim {
  env : Environment;
  available_trams : Store;
  trams : gmap Z Tram;
  stops : gmap Z Stop;
  tram_counter : Z;
  all_trams_created : list Z;
  total_passengers_served : Z;
  utilization_deviations : list Q;
  generator : GeneratorFrame;
  processes : list TripFrame;
  rng : RNG
}.

Definition set_env (s : Sim) (e : Environment) : Sim :=
  mkSim e (available_trams s) (trams s) (stops s) (tram_counter s)
    (all_trams_created s) (total_passengers_served s)
    (utilization_deviations s) (generator s) (processes s) (rng s).

Definition set_available_trams (s : Sim) (st : Store) : Sim :=
  mkSim (env s) st (trams s) (stops s) (tram_counter s)
    (all_trams_created s) (total_passengers_served s)
    (utilization_deviations s) (generator s) (processes s) (rng s).

Definition set_trams (s : Sim) (m : gmap Z Tram) : Sim :=
  mkSim (env s) (available_trams s) m (stops s) (tram_counter s)
    (all_trams_created s) (total_passengers_served s)
    (utilization_deviations s) (generator s) (processes s) (rng s).

Definition set_generator (s : Sim) (f : GeneratorFrame) : Sim :=
  mkSim (env s) (available_trams s) (trams s) (stops s) (tram_counter s)
    (all_trams_created s) (total_passengers_served s)
    (utilization_deviations s) f (processes s) (rng s).

Definition set_processes (s : Sim) (ps : list TripFrame) : Sim :=
  mkSim (env s) (available_trams s) (trams s) (stops s) (tram_counter s)
    (all_trams_created s) (total_passengers_served s)
    (utilization_deviations s) (generator s) ps (rng s).

Definition set_rng (s : Sim) (g : RNG) : Sim :=
  mkSim (env s) (available_trams s) (trams s) (stops s) (tram_counter s)
    (all_trams_created s) (total_passengers_served s)
    (utilization_deviations s) (generator s) (processes s) g.

Definition set_frame (s : Sim) (p : nat) (f : TripFrame) : Sim :=
  set_processes s (<[p := f]> (processes s)).

Definition at_pc (f : TripFrame) (d : Direction) (i : nat) (pc : TripPc) : TripFrame :=
  mkTripFrame (trip_tram f) d i pc.

(** [Environment.schedule]; the time is stored in lowest terms. *)
Definition schedule (s : Sim) (prio : Priority) (delay : Q) (k : EventKind) : Sim :=
  let e := env s in
  set_env s (mkEnvironment (now e)
    (queue e ++ [mkEvent (Qred (now e + delay)) prio (next_eid e) k])
    (S (next_eid e))).

(** [Environment.timeout]: [Timeout.__init__] raises on a negative delay. *)
Definition timeout (s : Sim) (delay : Q) (k : EventKind) : result Sim :=
  if Qle_bool 0 delay then Ok (schedule s NORMAL delay k)
  else Raise NegativeDelay.

(** [Store._trigger_get]: serve the first pending get if an item is there. *)
Definition trigger_get (s : Sim) : Sim :=
  match get_queue (available_trams s), items (available_trams s) with
  | _ :: waiting, tram :: rest =>
      schedule (set_available_trams s (mkStore rest waiting)) NORMAL 0 (StoreGet tram)
  | _, _ => s
  end.

(** [Store.get()] *)
Definition store_get (s : Sim) : Sim :=
  let st := available_trams s in
  trigger_get (set_available_trams s (mkStore (items st) (get_queue st ++ [dispatcher]))).

(** [Store.put(tram)]: the store is unbounded, the item is appended at
    once and the put event [k] succeeds. *)
Definition store_put (s : Sim) (tram : Z) (k : EventKind) : Sim :=
  let st := available_trams s in
  schedule (set_available_trams s (mkStore (items st ++ [tram]) (get_queue st)))
    NORMAL 0 k.

(** ** The processes of [TramSimulation] *)

(** [TramSimulation.tram_generator], from the top of the loop to
    [yield self.available_trams.get()]. *)
Definition tram_generator_loop (s : Sim) : result Sim :=
  iv ← get_current_interval (now (env s));
  Ok (store_get (set_generator s (mkGeneratorFrame iv (now (env s))))).

(** [tram_generator] resumed with the tram, up to
    [yield self.env.timeout(interval)]. *)
Definition tram_generator_resume (s : Sim) (tram : Z) : result Sim :=
  let p := length (processes s) in
  let s := set_processes s (processes s ++ [mkTripFrame tram forward 0 TripCreated]) in
  let s := schedule s URGENT 0 (InitializeTrip p) in
  timeout s (interval (generator s)) GeneratorTimeout.

Definition stops_sequence (d : Direction) : list Z :=
  match d with
  | forward => seqZ 1 (stop_number cfg)
  | backward => reverse (seqZ 1 (stop_number cfg))
  end.

(** [arrive_at_stop], up to [yield self.env.timeout(total_stop_time)]. *)
Definition arrive_at_stop (s : Sim) (p : nat) (tram_ref stop_id : Z) : result Sim :=
  stop ← subscript (stops s !! stop_id);
  match trams s !! tram_ref with
  | None => Raise InternalError
  | Some tram =>
      let t := now (env s) in
      let hour := hour_of t in
      let waiting_before := waiting_passengers stop in
      r ← alight_passengers tram stop_id (stop_number cfg) (peak_stop cfg);
      let '(alighted, tram) := r in
      let time_since_last := (t - last_tram_time stop)%Q in
      let intensity := get_intensity stop_id hour in
      let '(new_passengers, g') := get_new_passengers intensity time_since_last (rng s) in
      let stop := set_waiting_passengers stop (waiting_passengers stop + new_passengers) in
      let stop := record_waiting t stop in
      let '(boarded, tram) := board_passengers tram (waiting_passengers stop) in
      let stop := set_waiting_passengers stop (waiting_passengers stop - boarded) in
      let stop := record_waiting t stop in
      let stop := if 0 <? boarded then add_waiting_time stop boarded time_since_last
                  else stop in
      let stop := set_last_tram_time stop t in
      let st := stats tram in
      let tram := set_stats tram
        (mkTramStats (stats_tram_id st) (passengers_served st + boarded)
           (total_trips st) (utilization_history st ++ [utilization tram])
           (stop_log st)) in
      let tram := log_stop_event tram
        (mkStopEvent t stop_id (direction tram) (waiting_before + new_passengers)
           alighted boarded (utilization tram * 100)%Q) in
      let boarding_time := (inject_Z (boarded + alighted) * 0.05)%Q in
      let total_stop_time := (stop_time cfg + boarding_time)%Q in
      let s := mkSim (env s) (available_trams s)
                 (<[tram_ref := tram]> (trams s)) (<[stop_id := stop]> (stops s))
                 (tram_counter s) (all_trams_created s)
                 (total_passengers_served s + boarded)
                 (utilization_deviations s ++ [Qabs (utilization tram - 0.75)])
                 (generator s) (processes s) g' in
      timeout s total_stop_time (ArriveTimeout p)
  end.

(** [tram_process]: the body of [for i, stop_id in enumerate(stops_sequence)]
    entered at index [i], up to its first yield; when the sequence is
    exhausted, the code after the loop. *)
Definition trip_iteration (s : Sim) (p : nat) (f : TripFrame) (i : nat) : result Sim :=
  let d := trip_direction f in
  match stops_sequence d !! i with
  | Some stop_id =>
      match i with
      | O =>
          Ok (schedule (set_frame s p (at_pc f d i AtStop)) URGENT 0
                (InitializeArrive p stop_id))
      | S j =>
          let prev_stop := default 0 (stops_sequence d !! j) in
          let distance :=
            match d with
            | forward => default 0%Q (distances cfg !! stop_id)
            | backward => default 0%Q (distances cfg !! prev_stop)
            end in
          let hour := hour_of (now (env s)) in
          let '(travel_time, g') := calculate_travel_time distance hour (rng s) in
          timeout (set_rng (set_frame s p (at_pc f d i Travelling)) g')
            travel_time (TripTimeout p)
      end
  | None =>
      match d with
      | forward => timeout (set_frame s p (at_pc f d i TurningAround)) 2 (TripTimeout p)
      | backward =>
          Ok (store_put (set_frame s p (at_pc f d i Releasing)) (trip_tram f) (StorePut p))
      end
  end.

(** [for direction in ["forward", "backward"]]: the head of one leg. *)
Definition start_leg (s : Sim) (p : nat) (f : TripFrame) (d : Direction) : result Sim :=
  match trams s !! trip_tram f with
  | None => Raise InternalError
  | Some tram =>
      let s := set_trams s (<[trip_tram f := set_direction tram d]> (trams s)) in
      trip_iteration s p (at_pc f d 0 (trip_pc f)) 0
  end.

(** [tram_process] entered: [tram.stats.total_trips += 1], then the
    forward leg. *)
Definition tram_process_start (s : Sim) (p : nat) (f : TripFrame) : result Sim :=
  match trams s !! trip_tram f with
  | None => Raise InternalError
  | Some tram =>
      let st := stats tram in
      let tram := set_stats tram
        (mkTramStats (stats_tram_id st) (passengers_served st)
           (total_trips st + 1) (utilization_history st) (stop_log st)) in
      start_leg (set_trams s (<[trip_tram f := tram]> (trams s))) p f forward
  end.

(** The callbacks of an event. *)
Definition handle (s : Sim) (k : EventKind) : result Sim :=
  match k with
  | StopSimulation => Ok s
  | StorePutInitial => Ok (trigger_get s)
  | InitializeGenerator => tram_generator_loop s
  | GeneratorTimeout => tram_generator_loop s
  | StoreGet tram => tram_generator_resume s tram
  | InitializeTrip p =>
      match processes s !! p with
      | Some f =>
          match trip_pc f with
          | TripCreated => tram_process_start s p f
          | _ => Raise InternalError
          end
      | None => Raise InternalError
      end
  | TripTimeout p =>
      match processes s !! p with
      | Some f =>
          match trip_pc f with
          | Travelling =>
              match stops_sequence (trip_direction f) !! trip_i f with
              | Some stop_id =>
                  Ok (schedule (set_frame s p (at_pc f (trip_direction f) (trip_i f) AtStop))
                        URGENT 0 (InitializeArrive p stop_id))
              | None => Raise InternalError
              end
          | TurningAround => start_leg s p f backward
          | _ => Raise InternalError
          end
      | None => Raise InternalError
      end
  | InitializeArrive p stop_id =>
      match processes s !! p with
      | Some f => arrive_at_stop s p (trip_tram f) stop_id
      | None => Raise InternalError
      end
  | ArriveTimeout p => Ok (schedule s NORMAL 0 (ArriveProcess p))
  | ArriveProcess p =>
      match processes s !! p with
      | Some f =>
          match trip_pc f with
          | AtStop => trip_iteration s p f (S (trip_i f))
          | _ => Raise InternalError
          end
      | None => Raise InternalError
      end
  | StorePut p =>
      let s := trigger_get s in
      match processes s !! p with
      | Some f =>
          match trip_pc f with
          | Releasing =>
              Ok (schedule
                    (set_frame s p (at_pc f (trip_direction f) (trip_i f) TripFinished))
                    NORMAL 0 (TripProcess p))
          | _ => Raise InternalError
          end
      | None => Raise InternalError
      end
  | TripProcess p => Ok s
  end.

Inductive Outcome :=
| Running (s : Sim)            (* an event was processed *)
| Halted (s : Sim)             (* the until event was reached: run() returns *)
| Exhausted (s : Sim)          (* the heap is empty *)
| Crashed (e : PyError).       (* a process raised *)

(** The heap entry [e] is popped and the clock set to its time. *)
Definition pop_event (s : Sim) (e : Event) (q : list Event) : Sim :=
  set_env s (mkEnvironment (ev_at e) q (next_eid (env s))).

(** [Environment.step] *)
Definition step (s : Sim) : Outcome :=
  match pop_min (queue (env s)) with
  | None => Exhausted s
  | Some (e, q) =>
      match ev_kind e with
      | StopSimulation => Halted (pop_event s e q)
      | k =>
          match handle (pop_event s e q) k with
          | Ok s' => Running s'
          | Raise err => Crashed err
          end
      end
  end.

(** [n] iterations of the loop of [Environment.run]. *)
Fixpoint steps (n : nat) (s : Sim) : Outcome :=
  match n with
  | O => Running s
  | S n' =>
      match step s with
      | Running s' => steps n' s'
      | o => o
      end
  end.

(** [TramSimulation.setup_stops] *)
Definition setup_stops : gmap Z Stop :=
  fold_left (fun m i => <[i := new_Stop i]> m) (seqZ 1 (stop_number cfg)) ∅.

(** [TramSimulation.__init__] *)
Definition new_simulation (g : RNG) : Sim :=
  mkSim (mkEnvironment 0 [] 0) (mkStore [] []) ∅ setup_stops 0 [] 0 []
    (mkGeneratorFrame 0 0) [] g.

(** One iteration of the loop of [create_initial_trams]. *)
Definition create_tram (s : Sim) : Sim :=
  let c := tram_counter s + 1 in
  let tram := new_Tram c (tram_capacity cfg) in
  let s := mkSim (env s) (available_trams s) (<[c := tram]> (trams s)) (stops s)
             c (all_trams_created s ++ [c]) (total_passengers_served s)
             (utilization_deviations s) (generator s) (processes s) (rng s) in
  store_put s c StorePutInitial.

(** [TramSimulation.create_initial_trams] *)
Fixpoint create_initial_trams (count : nat) (s : Sim) : Sim :=
  match count with
  | O => s
  | S n => create_initial_trams n (create_tram s)
  end.

(** [run_simulation] up to the first iteration of [env.run]: the fleet of
    8, the dispatcher process, the until event at [simulation_hours * 60]. *)
Definition run_simulation (g : RNG) : result Sim :=
  let s := create_initial_trams 8 (new_simulation g) in
  let s := schedule s URGENT 0 InitializeGenerator in
  let until := (simulation_hours cfg * 60)%Q in
  if Qle_bool until (now (env s)) then Raise UntilNotInFuture
  else Ok (schedule s URGENT (until - now (env s)) StopSimulation).

(** A state of the run: reached from the start by processing events,
    the state in which [run] returns included. *)
Definition reachable (g : RNG) (s : Sim) : Prop :=
  exists s0 n, run_simulation g = Ok s0 /\
    (steps n s0 = Running s \/ steps n s0 = Halted s).

(** ** What the fleet accounting counts *)

(** The tram carried by a granted get that the dispatcher has not yet
    received. *)
Definition granted_tram (e : Event) : option Z :=
  match ev_kind e with
  | StoreGet tram => Some tram
  | _ => None
  end.

Definition granted (q : list Event) : list Z := omap granted_tram q.

(** A trip process holds its tram from its creation until it calls
    [put]. *)
Definition in_flight (pc : TripPc) : bool :=
  match pc with
  | Releasing | TripFinished => false
  | _ => true
  end.

Definition holds (f : TripFrame) : list Z :=
  if in_flight (trip_pc f) then [trip_tram f] else [].

Definition on_trip (ps : list TripFrame) : list Z := ps ≫= holds.

(** The number of trip processes of tram [t] whose body has been entered,
    and of those that have completed both legs. *)
Definition launched (ps : list TripFrame) (t : Z) : nat :=
  sum_list_with
    (fun f => if decide (trip_tram f = t /\ trip_pc f <> TripCreated) then 1%nat else 0%nat)
    ps.

Definition completed (ps : list TripFrame) (t : Z) : nat :=
  sum_list_with
    (fun f => if decide (trip_tram f = t /\ in_flight (trip_pc f) = false) then 1%nat else 0%nat)
    ps.

(** The weight of a frame in [launched]. *)
Definition launch_weight (t : Z) (f : TripFrame) : nat :=
  if decide (trip_tram f = t /\ trip_pc f <> TripCreated) then 1%nat else 0%nat.

(** The number of launched trip processes of tram [t] that still hold it. *)
Definition under_way (ps : list TripFrame) (t : Z) : nat :=
  sum_list_with
    (fun f => if decide (trip_tram f = t /\ trip_pc f <> TripCreated /\
                         in_flight (trip_pc f) = true) then 1%nat else 0%nat)
    ps.

(** The heap entries that resume the dispatcher. *)
Definition generator_token (e : Event) : nat :=
  match ev_kind e with
  | InitializeGenerator | GeneratorTimeout | StoreGet _ => 1
  | _ => 0
  end.

Definition generator_tokens (q : list Event) : nat :=
  sum_list_with generator_token q.

(** ** Invariants of the run *)

(** The trams in the pool, those granted and not yet delivered, those held
    by trip processes. *)
Definition held (s : Sim) : list Z :=
  items (available_trams s) ++ granted (queue (env s)) ++ on_trip (processes s).

(** The trams taken from the pool and not yet put back. *)
Definition checked_out (s : Sim) : list Z :=
  granted (queue (env s)) ++ on_trip (processes s).

(** An entry added to the heap at time [t]: not in the past, not the until
    event, and due at once if it is a granted get or an Initialize. *)
Definition added_at (t : Q) (e : Event) : Prop :=
  (t <= ev_at e)%Q /\ ev_kind e <> StopSimulation /\
  (is_Some (granted_tram e) \/ ev_priority e = URGENT -> (ev_at e == t)%Q).

(** No heap entry is in the past, and a granted get is due now. *)
Definition clock_ok (s : Sim) : Prop :=
  Forall (fun e => (now (env s) <= ev_at e)%Q /\
                   (is_Some (granted_tram e) -> (ev_at e == now (env s))%Q))
    (queue (env s)).

(** The dispatcher waits on exactly one thing: an entry of its own in the
    heap or a pending get. *)
Definition generator_ok (s : Sim) : Prop :=
  (length (get_queue (available_trams s)) + generator_tokens (queue (env s)) = 1)%nat.

(** The until event is in the heap and precedes whatever is due at the
    horizon or later. *)
Definition horizon : Q := (simulation_hours cfg * 60)%Q.

Definition before_horizon (e : Event) : Prop :=
  match ev_kind e with
  | StopSimulation => ev_priority e = URGENT /\ (ev_at e == horizon)%Q
  | _ => ev_priority e = URGENT -> (ev_at e < horizon)%Q
  end.

Definition horizon_ok (s : Sim) : Prop :=
  (now (env s) < horizon)%Q /\
  (exists u, u ∈ queue (env s) /\ ev_kind u = StopSimulation) /\
  Forall before_horizon (queue (env s)).

(** Every tram has the configured capacity and carries between 0 and
    [capacity] passengers; every stop is on the line and its queue is not
    negative. *)
Definition passengers_ok (s : Sim) : Prop :=
  map_Forall (fun _ tr => capacity tr = tram_capacity cfg /\
                          0 <= passengers tr <= capacity tr) (trams s) /\
  map_Forall (fun i st => 1 <= i <= stop_number cfg /\ 0 <= waiting_passengers st)
    (stops s).

(** The trip counter of a tram counts the trip processes launched for it. *)
Definition trips_ok (s : Sim) : Prop :=
  map_Forall (fun t tr => total_trips (stats tr) = Z.of_nat (launched (processes s) t))
    (trams s).

(** While a get of the dispatcher is pending or granted, its [interval] is
    the headway of the instant at which the iteration began. *)
Definition headway_ok (s : Sim) : Prop :=
  (request_time (generator s) <= now (env s))%Q /\
  ((0 < length (get_queue (available_trams s)) +
        length (granted (queue (env s))))%nat ->
   get_current_interval (request_time (generator s)) = Ok (interval (generator s))).

(** The headway held by the dispatcher is not negative. *)
Definition interval_ok (s : Sim) : Prop := (0 <= interval (generator s))%Q.

(** The trip process that a heap entry resumes. *)
Definition event_pid (e : Event) : option nat :=
  match ev_kind e with
  | InitializeTrip p | TripTimeout p | InitializeArrive p _
  | ArriveTimeout p | ArriveProcess p | StorePut p => Some p
  | _ => None
  end.

(** The suspension point at which a heap entry expects its process. *)
Definition awaited (ps : list TripFrame) (k : EventKind) : Prop :=
  match k with
  | InitializeTrip p => exists f, ps !! p = Some f /\ trip_pc f = TripCreated
  | TripTimeout p =>
      exists f, ps !! p = Some f /\
        (trip_pc f = TurningAround \/
         (trip_pc f = Travelling /\
          is_Some (stops_sequence (trip_direction f) !! trip_i f)))
  | InitializeArrive p stop_id =>
      exists f, ps !! p = Some f /\ trip_pc f = AtStop /\
                1 <= stop_id <= stop_number cfg
  | ArriveTimeout p | ArriveProcess p =>
      exists f, ps !! p = Some f /\ trip_pc f = AtStop
  | StorePut p => exists f, ps !! p = Some f /\ trip_pc f = Releasing
  | _ => True
  end.

(** Every heap entry finds its process where it left it, a process waits on
    at most one entry, every reference held by a frame or handed out by the
    pool is a tram of the fleet, and every stop of the line exists. *)
Definition frames_ok (s : Sim) : Prop :=
  Forall (fun e => awaited (processes s) (ev_kind e)) (queue (env s)) /\
  NoDup (omap event_pid (queue (env s))) /\
  Forall (fun f => is_Some (trams s !! trip_tram f)) (processes s) /\
  Forall (fun t => is_Some (trams s !! t)) (seqZ 1 8) /\
  (forall i, 1 <= i <= stop_number cfg -> is_Some (stops s !! i)).

End Simulation.

(** ** Python's [round] on a float: nearest integer, ties to the even one.
    Only used to state the rounding that [get_new_passengers] does not do. *)
Definition py_round (x : Q) : Z :=
  let f := Qfloor x in
  match ((x - inject_Z f) ?= 1 # 2)%Q with
  | Lt => f
  | Gt => f + 1
  | Eq => if Z.even f then f else f + 1
  end.

(** ** Example inputs *)

(** A random source whose Gaussian draw is its mean and whose uniform draw
    is 1.0. *)
Definition gauss_mean (g : unit) (mu : Q) : Q * unit := (mu, g).
Definition uniform_one (g : unit) (a b : Q) : Q * unit := (1%Q, g).

(** A random source whose Gaussian draw is always 2.75. *)
Definition gauss_2_75 (g : unit) (mu : Q) : Q * unit := (2.75%Q, g).

Definition example_tram (cap p : Z) (d : Direction) : Tram :=
  mkTram 1 cap p d (mkTramStats 1 0 0 [] []).

(** A line of two stops [dist] metres apart with no passenger demand and an
    empty road-load table; [acceleration_time] and [stop_time] take their
    defaults (0.5 and 1.0). *)
Definition json_line (cap : Z) (speed dist : Q) (rules : list (Z * Q)) (hours : Q)
  : ConfigJson :=
  mkConfigJson (Some 2) (Some [(1, 0%Q); (2, dist)]) (Some speed) (Some 1)
    (Some cap) (Some hours) None None (Some []) (Some rules) (Some []).

(** Stops 1000 m apart, free-flow speed 40, one headway rule, one hour. *)
Definition json_two_stops (cap : Z) : ConfigJson :=
  json_line cap 40 1000 [(0, 10%Q)] 1.

(** The same line with a free-flow speed of 8 km/h. *)
Definition json_slow_line : ConfigJson :=
  json_line 100 8 1000 [(0, 10%Q)] 1.

(** Stops 20 km apart, a tram every minute until 02:00 and every 30 minutes
    from then on, three hours. *)
Definition json_long_line : ConfigJson :=
  json_line 100 40 20000 [(0, 1%Q); (2, 30%Q)] 3.

(** Three stops with passenger demand in hour 0, trams of 50 places, a tram
    every 5 minutes, one hour. *)
Definition json_busy_line : ConfigJson :=
  mkConfigJson (Some 3) (Some [(1, 0%Q); (2, 500%Q); (3, 700%Q)]) (Some 40%Q)
    (Some 2) (Some 50) (Some 1%Q) (Some 0.5%Q) (Some 1%Q)
    (Some [(1, 0, 600%Q); (2, 0, 900%Q); (3, 0, 300%Q)])
    (Some [(0, 5%Q)]) (Some [(0, 0.25%Q)]).

(** The line of [json_two_stops] with trams of capacity -100. *)
Definition json_negative_capacity : ConfigJson :=
  json_line (-100) 40 1000 [(0, 10%Q)] 1.

Definition config_of (j : ConfigJson) : Config :=
  match load_config j with
  | Ok c => c
  | Raise _ => mkConfig 0 ∅ 0 0 0 0 0 0 ∅ [] ∅
  end.

Definition state_of {RNG} (o : @Outcome RNG) (dflt : @Sim RNG) : @Sim RNG :=
  match o with
  | Running s | Halted s | Exhausted s => s
  | Crashed _ => dflt
  end.

(** The run on a configuration with the random source above: the start
    state, the outcome of [n] events, the state it leaves. *)
Definition example_start (j : ConfigJson) : @Sim unit :=
  match run_simulation (config_of j) tt with
  | Ok s => s
  | Raise _ => new_simulation (config_of j) tt
  end.

Definition example_steps (j : ConfigJson) (n : nat) : @Outcome unit :=
  steps gauss_mean uniform_one (config_of j) n (example_start j).

Definition example_run (j : ConfigJson) (n : nat) : @Sim unit :=
  state_of (example_steps j n) (example_start j).

(** The heap entry that the next step pops, and the rest of the heap. *)
Definition example_next (j : ConfigJson) (n : nat) : Event * list Event :=
  default (mkEvent 0 NORMAL 0 StopSimulation, [])
    (pop_min (queue (env (example_run j n)))).

(** The due times of the pending headway timeouts of the dispatcher. *)
Definition generator_timeouts {RNG} (s : @Sim RNG) : list Q :=
  omap (fun ev => match ev_kind ev with
                  | GeneratorTimeout => Some (ev_at ev)
                  | _ => None
                  end) (queue (env s)).

(** The JSON object has every key that [load_config] subscripts. *)
Definition has_required_keys (j : ConfigJson) : Prop :=
  is_Some (json_stop_number j) /\ is_Some (json_distance j) /\
  is_Some (json_flow_speed j) /\ is_Some (json_peak_stop j) /\
  is_Some (json_tram_capacity j) /\ is_Some (json_simulation_hours j) /\
  is_Some (json_intensity j) /\ is_Some (json_bus_interval j) /\
  is_Some (json_road_loads j).

(** ** What the loaded tables answer *)

(** The last item of an association list with key [k]. *)
Definition last_item {V} (k : Z) (items : list (Z * V)) : option V :=
  snd <$> last (filter (fun kv => kv.1 = k) items).

Definition last_intensity (stop_id hour : Z) (items : list (Z * Z * Q)) : option Q :=
  snd <$> last (filter (fun e => e.1.1 = stop_id /\ e.1.2 = hour) items).

(** Rules in ascending order of start hour. *)
Definition ascending (l : list (Z * Q)) : Prop :=
  StronglySorted (fun a b => a.1 <= b.1) l.

(** ** The books of a run *)

(** What one arrival does to a tram. *)
Definition arrived (t : Q) (stop_id w alighted boarded : Z) (tram : Tram) : Tram :=
  let p := passengers tram - alighted + boarded in
  let u := utilization (set_passengers tram p) in
  let st := stats tram in
  mkTram (tram_id tram) (capacity tram) p (direction tram)
    (mkTramStats (stats_tram_id st) (passengers_served st + boarded) (total_trips st)
       (utilization_history st ++ [u])
       (stop_log st ++
        [mkStopEvent t stop_id (direction tram) w alighted boarded (u * 100)%Q])).

(** What one arrival does to a stop. *)
Definition served (t : Q) (w boarded : Z) (stop : Stop) : Stop :=
  let tsl := (t - last_tram_time stop)%Q in
  mkStop (stop_id_of stop) (w - boarded) t
    (if 0 <? boarded then (total_waiting_time stop + inject_Z boarded * (tsl / 2))%Q
     else total_waiting_time stop)
    (if 0 <? boarded then stop_passengers_served stop + boarded
     else stop_passengers_served stop)
    (waiting_history stop ++ [(t, w); (t, w - boarded)]).

(** The fields of a tram that only an arrival at a stop changes. *)
Definition same_books (tr tr' : Tram) : Prop :=
  tram_id tr' = tram_id tr /\ capacity tr' = capacity tr /\
  passengers tr' = passengers tr /\
  stats_tram_id (stats tr') = stats_tram_id (stats tr) /\
  passengers_served (stats tr') = passengers_served (stats tr) /\
  utilization_history (stats tr') = utilization_history (stats tr) /\
  stop_log (stats tr') = stop_log (stats tr).

(** What processing one event does to the trams, the stops and the two
    counters of the simulation object: nothing, a change of direction or of
    the trip counter of one tram, or one arrival. *)
Inductive effect {RNG : Type} (cfg : Config) (s s' : @Sim RNG) : Prop :=
| effect_none :
    trams s' = trams s -> stops s' = stops s ->
    total_passengers_served s' = total_passengers_served s ->
    utilization_deviations s' = utilization_deviations s ->
    effect cfg s s'
| effect_mark (t : Z) (tr tr' : Tram) :
    trams s !! t = Some tr -> same_books tr tr' ->
    trams s' = <[t := tr']> (trams s) -> stops s' = stops s ->
    total_passengers_served s' = total_passengers_served s ->
    utilization_deviations s' = utilization_deviations s ->
    effect cfg s s'
| effect_arrival (tram_ref stop_id : Z) (tram : Tram) (stop : Stop)
      (alighted new_passengers boarded : Z) :
    trams s !! tram_ref = Some tram -> stops s !! stop_id = Some stop ->
    0 <= new_passengers ->
    (0 <= passengers tram -> 1 <= stop_id <= stop_number cfg ->
     0 <= alighted <= passengers tram) ->
    boarded = Z.min (waiting_passengers stop + new_passengers)
                (capacity tram - (passengers tram - alighted)) ->
    trams s' = <[tram_ref := arrived (now (env s)) stop_id
                               (waiting_passengers stop + new_passengers)
                               alighted boarded tram]> (trams s) ->
    stops s' = <[stop_id := served (now (env s))
                              (waiting_passengers stop + new_passengers)
                              boarded stop]> (stops s) ->
    total_passengers_served s' = total_passengers_served s + boarded ->
    utilization_deviations s'
    = utilization_deviations s ++
      [Qabs (utilization (set_passengers tram (passengers tram - alighted + boarded))
             - 0.75)] ->
    effect cfg s s'.

(** [sum(...)] over a list of integers, and over the values of a dict. *)
Definition sumZ (l : list Z) : Z := foldr Z.add 0 l.

Definition sum_values {V} (f : V -> Z) (m : gmap Z V) : Z :=
  map_fold (fun _ v acc => f v + acc) 0 m.

(** The boardings and the alightings recorded in the stop log of a tram. *)
Definition boarded_total (tr : Tram) : Z := sumZ (ev_boarded <$> stop_log (stats tr)).
Definition alighted_total (tr : Tram) : Z := sumZ (ev_alighted <$> stop_log (stats tr)).

Definition visits (tr : Tram) : Z := Z.of_nat (length (stop_log (stats tr))).

(** A list of timed records in the order of their times. *)
Definition chronological {A} (time : A -> Q) (l : list A) : Prop :=
  StronglySorted (fun a b => (time a <= time b)%Q) l.

(** The books of a tram agree with its stop log. *)
Definition tram_books (cfg : Config) (t_now : Q) (t : Z) (tr : Tram) : Prop :=
  tram_id tr = t /\ stats_tram_id (stats tr) = t /\
  passengers tr = boarded_total tr - alighted_total tr /\
  passengers_served (stats tr) = boarded_total tr /\
  ev_utilization_after <$> stop_log (stats tr)
  = (fun u => (u * 100)%Q) <$> utilization_history (stats tr) /\
  Forall (fun e => (0 <= ev_time e <= t_now)%Q /\
                   1 <= ev_stop_id e <= stop_number cfg /\
                   ev_boarded e <= ev_waiting_before e)
    (stop_log (stats tr)) /\
  chronological ev_time (stop_log (stats tr)).

(** The books of a stop agree with its waiting history. *)
Definition stop_books (cfg : Config) (t_now : Q) (i : Z) (st : Stop) : Prop :=
  stop_id_of st = i /\ 1 <= i <= stop_number cfg /\
  0 <= waiting_passengers st /\ 0 <= stop_passengers_served st /\
  (0 <= last_tram_time st <= t_now)%Q /\
  (0 <= total_waiting_time st)%Q /\
  (total_waiting_time st * 2
   <= inject_Z (stop_passengers_served st) * last_tram_time st)%Q /\
  (forall x, last (waiting_history st) = Some x ->
             x = (last_tram_time st, waiting_passengers st)) /\
  Forall (fun x : Q * Z => (0 <= x.1 <= last_tram_time st)%Q /\ 0 <= x.2)
    (waiting_history st) /\
  chronological fst (waiting_history st).

Definition ledger_ok {RNG : Type} (cfg : Config) (s : @Sim RNG) : Prop :=
  (0 <= now (env s))%Q /\
  map_Forall (tram_books cfg (now (env s))) (trams s) /\
  map_Forall (stop_books cfg (now (env s))) (stops s) /\
  total_passengers_served s = sum_values (passengers_served ∘ stats) (trams s) /\
  Z.of_nat (length (utilization_deviations s)) = sum_values visits (trams s).

(** With a capacity that is not negative nobody boards or alights in
    negative numbers: the stops have served what the trams have served, and
    every recorded utilization is a fraction of the capacity. *)
Definition service_ok {RNG : Type} (s : @Sim RNG) : Prop :=
  total_passengers_served s = sum_values stop_passengers_served (stops s) /\
  map_Forall (fun _ tr =>
      Forall (fun u => (0 <= u <= 1)%Q) (utilization_history (stats tr)) /\
      Forall (fun e => 0 <= ev_alighted e /\ 0 <= ev_boarded e)
        (stop_log (stats tr)))
    (trams s) /\
  Forall (fun d => (0 <= d <= 0.75)%Q) (utilization_deviations s).

(** The samples in the waiting history of a stop. *)
Definition samples (st : Stop) : Z := Z.of_nat (length (waiting_history st)).

(** Two samples per arrival. *)
Definition samples_ok {RNG : Type} (s : @Sim RNG) : Prop :=
  sum_values samples (stops s) = 2 * sum_values visits (trams s).

(** ** The order of the pool *)

(** The pool hands out the trams in the order in which it received them:
    while fewer than 8 trams have been granted, the pool begins with the
    trams not yet granted, in the order of their ids. *)
Definition fifo_ok {RNG : Type} (s : @Sim RNG) : Prop :=
  let k := (length (processes s) + length (granted (queue (env s))))%nat in
  (exists back, items (available_trams s)
                = seqZ (Z.of_nat k + 1) (8 - Z.of_nat k) ++ back) /\
  (forall p f, processes s !! p = Some f -> (p < 8)%nat ->
               trip_tram f = Z.of_nat p + 1) /\
  (forall t, t ∈ granted (queue (env s)) -> (length (processes s) < 8)%nat ->
             t = Z.of_nat (length (processes s)) + 1).

(** ** The configuration generator (generate_config.py) *)

(** [l[i]] on a list: a negative index counts from the end, an index out
    of range raises IndexError. *)
Definition list_item {A} (l : list A) (i : Z) : result A :=
  let j := if i <? 0 then i + Z.of_nat (length l) else i in
  if j <? 0 then Raise IndexError
  else match l !! Z.to_nat j with
       | Some x => Ok x
       | None => Raise IndexError
       end.

(** A loop whose body may raise: the results of the iterations, or the
    first exception. *)
Fixpoint for_each {A B} (f : A -> result B) (l : list A) : result (list B) :=
  match l with
  | [] => Ok []
  | x :: l' => y ← f x; ys ← for_each f l'; Ok (y :: ys)
  end.

Definition time_coefficients : gmap Z Q :=
  dict_of_items
    [(0, 0.02%Q); (1, 0.01%Q); (2, 0.01%Q); (3, 0.01%Q); (4, 0.02%Q); (5, 0.1%Q);
     (6, 0.8%Q); (7, 2.0%Q); (8, 2.5%Q); (9, 1.2%Q); (10, 0.9%Q); (11, 0.9%Q);
     (12, 1.0%Q); (13, 0.9%Q); (14, 0.8%Q); (15, 0.9%Q); (16, 1.2%Q); (17, 2.2%Q);
     (18, 2.8%Q); (19, 1.5%Q); (20, 0.8%Q); (21, 0.5%Q); (22, 0.2%Q); (23, 0.05%Q)].

(** The default base intensity of stop [i]: highest in the middle of the
    line. *)
Definition default_base_intensity (stop_number i : Z) : Z :=
  let center := (inject_Z stop_number / 2)%Q in
  let distance_from_center := Qabs (inject_Z i - center) in
  80 + py_int ((inject_Z stop_number - distance_from_center) * 5).

(** [int(base * coef)] *)
Definition hourly_intensity (base hour : Z) : Z :=
  let coef := default 0.5%Q (time_coefficients !! hour) in
  py_int (inject_Z base * coef).

(** [generate_intensity_data] *)
Definition generate_intensity_data (stop_number : Z) (base_intensities : option (list Z))
  : result (list (Z * Z * Z)) :=
  let base_intensities :=
    match base_intensities with
    | None => default_base_intensity stop_number <$> seqZ 1 stop_number
    | Some l => l
    end in
  rows ← for_each
    (fun stop_id =>
       base ← list_item base_intensities (stop_id - 1);
       Ok ((fun hour => (stop_id, hour, hourly_intensity base hour)) <$> seqZ 0 24))
    (seqZ 1 stop_number);
  Ok (concat rows).

(** [generate_bus_intervals] *)
Definition generate_bus_intervals (peak_hours : option (list (Z * Z))) : list (Z * Z) :=
  match peak_hours with
  | None => [(0, 120); (6, 30); (8, 15); (10, 20); (17, 15); (20, 30); (23, 120)]
  | Some l => l
  end.

(** The load of one hour in [generate_road_loads]. *)
Definition road_load (peak_hours : list Z) (hour : Z) : Q :=
  if bool_decide (hour ∈ peak_hours) then 0.9%Q
  else if (7 <=? hour) && (hour <? 10) || (16 <=? hour) && (hour <? 20) then 0.7%Q
  else if (10 <=? hour) && (hour <? 16) then 0.6%Q
  else if (20 <=? hour) && (hour <? 23) || (hour =? 6) then 0.4%Q
  else 0.1%Q.

(** [generate_road_loads] *)
Definition generate_road_loads (peak_hours : option (list Z)) : list (Z * Q) :=
  let peak_hours := default [8; 9; 17; 18] peak_hours in
  (fun hour => (hour, road_load peak_hours hour)) <$> seqZ 0 24.

Section Generator.

Context {RNG : Type}.

(** [random.randint(a, b)]: a draw and the new state of the generator, or
    [None] when it raises ValueError (empty range). *)
Variable randint : RNG -> Z -> Z -> option (Z * RNG).

(** The loop of [generate_distances]: one draw per stop, rounded down to a
    multiple of 50 metres. *)
Fixpoint draw_distances (ids : list Z) (min_distance max_distance : Z) (g : RNG)
  : option (list (Z * Z) * RNG) :=
  match ids with
  | [] => Some ([], g)
  | i :: ids' =>
      '(distance, g) ← randint g min_distance max_distance;
      let distance := (distance `div` 50) * 50 in
      '(rest, g) ← draw_distances ids' min_distance max_distance g;
      Some ((i, distance) :: rest, g)
  end.

(** [generate_distances] *)
Definition generate_distances (stop_number min_distance max_distance : Z) (g : RNG)
  : option (list (Z * Z) * RNG) :=
  '(l, g) ← draw_distances (seqZ 2 (stop_number - 1)) min_distance max_distance g;
  Some ((1, 0) :: l, g).

(** The config dict of [create_config] and [create_custom_config] as the
    JSON object that [load_config] reads. *)
Definition config_dict (stop_number : Z) (distance : list (Z * Z))
    (intensity : list (Z * Z * Z)) (bus_interval : list (Z * Z))
    (road_loads : list (Z * Q)) (flow_speed peak_stop tram_capacity simulation_hours : Z)
  : ConfigJson :=
  mkConfigJson (Some stop_number)
    (Some ((fun kv => (kv.1, inject_Z kv.2)) <$> distance))
    (Some (inject_Z flow_speed)) (Some peak_stop) (Some tram_capacity)
    (Some (inject_Z simulation_hours)) (Some 0.5%Q) (Some 1%Q)
    (Some ((fun e => (e.1, inject_Z e.2)) <$> intensity))
    (Some ((fun kv => (kv.1, inject_Z kv.2)) <$> bus_interval))
    (Some road_loads).

(** [create_config]: the dict it returns, which is also what
    [save_config_compact] writes (the text of the file is not modelled).
    [None] stands for an exception: the ValueError of [randint];
    [generate_intensity_data] without base intensities raises nothing. *)
Definition create_config (stop_number tram_capacity simulation_hours flow_speed : Z)
    (peak_stop : option Z) (g : RNG) : option (ConfigJson * RNG) :=
  let peak_stop := default ((stop_number + 1) `div` 2) peak_stop in
  '(distance, g) ← generate_distances stop_number 400 800 g;
  match generate_intensity_data stop_number None with
  | Ok intensity =>
      Some (config_dict stop_number distance intensity (generate_bus_intervals None)
              (generate_road_loads None) flow_speed peak_stop tram_capacity
              simulation_hours, g)
  | Raise _ => None
  end.

End Generator.

(** [enumerate(distances, start=2)] *)
Definition enumerate_from {A} (start : Z) (l : list A) : list (Z * A) :=
  imap (fun i x => (start + Z.of_nat i, x)) l.

(** [create_custom_config] *)
Definition create_custom_config (stop_number : Z) (base_intensities distances : list Z)
    (peak_stop : Z) : result ConfigJson :=
  let distance_data := (1, 0) :: enumerate_from 2 distances in
  intensity ← generate_intensity_data stop_number (Some base_intensities);
  Ok (config_dict stop_number distance_data intensity (generate_bus_intervals None)
        (generate_road_loads None) 40 peak_stop 150 24).

(** What the generator needs of [random.randint]: on a range that is not
    empty it returns a number of the range. *)
Definition randint_in_range {RNG : Type} (randint : RNG -> Z -> Z -> option (Z * RNG))
  : Prop :=
  forall g a b, a <= b -> exists r g', randint g a b = Some (r, g') /\ a <= r <= b.

(** The base intensities that [generate_intensity_data] uses. *)
Definition base_intensities_of (stop_number : Z) (base_intensities : option (list Z))
  : list Z :=
  match base_intensities with
  | None => default_base_intensity stop_number <$> seqZ 1 stop_number
  | Some l => l
  end.

(** The rows of one stop. *)
Definition intensity_row (bases : list Z) (stop_id : Z) : list (Z * Z * Z) :=
  (fun hour => (stop_id, hour,
                hourly_intensity (default 0 (bases !! Z.to_nat (stop_id - 1))) hour))
    <$> seqZ 0 24.

(** The JSON form of the intensity rows. *)
Definition json_intensities (data : list (Z * Z * Z)) : list (Z * Z * Q) :=
  (fun e => (e.1, inject_Z e.2)) <$> data.

(** ** Reports

    The numbers of [print_final_stats], the summary table of logger.py and
    the hourly buckets of visualization.py. *)

(** [sum(l)] and [max(l)] on floats. *)
Definition sumQ (l : list Q) : Q := foldr Qplus 0%Q l.

Definition maxQ (l : list Q) : option Q :=
  match l with
  | [] => None
  | x :: l' => Some (foldl Qmax x l')
  end.

(** [sum(l) / len(l)], guarded by [if l]. *)
Definition mean (l : list Q) : option Q :=
  match l with
  | [] => None
  | _ => Some (sumQ l / inject_Z (Z.of_nat (length l)))%Q
  end.

(** The numbers that [print_final_stats] prints: the mean deviation of the
    utilization from 75 percent, when there is any sample, and for a stop
    that has served passengers the mean waiting time. *)
Definition avg_util_deviation {RNG : Type} (s : @Sim RNG) : option Q :=
  mean (utilization_deviations s).

Definition avg_waiting (stop : Stop) : option Q :=
  if 0 <? stop_passengers_served stop
  then Some (total_waiting_time stop / inject_Z (stop_passengers_served stop))%Q
  else None.

(** ** The summary table of logger.py *)

(** A row of [create_summary]; the two utilization columns hold the
    numbers that the writer formats with one decimal. *)
Record SummaryRow := mkSummaryRow {
  row_tram_id : Z;
  row_total_trips : Z;
  row_passengers_served : Z;
  row_avg_util : Q;
  row_max_util : Q;
  row_visits : nat
}.

Definition by_key {V} (a b : Z * V) : Prop := a.1 <= b.1.

#[global] Instance by_key_dec {V} : RelDecision (@by_key V).
Proof. intros a b. unfold by_key. apply _. Defined.

#[global] Instance by_key_total {V} : Total (@by_key V).
Proof. intros a b. unfold by_key. lia. Qed.

#[global] Instance by_key_trans {V} : Transitive (@by_key V).
Proof. intros a b c. unfold by_key. lia. Qed.

(** [sorted(trams.items())]: the keys are distinct, so the values are never
    compared. *)
Definition sorted_items {V} (m : gmap Z V) : list (Z * V) :=
  merge_sort by_key (map_to_list m).

(** The body of the loop of [create_summary]: a tram without utilization
    sample is skipped. *)
Definition summary_row (item : Z * Tram) : option SummaryRow :=
  let '(tram_id, tram) := item in
  let history := utilization_history (stats tram) in
  avg_util ← mean history;
  max_util ← maxQ history;
  Some (mkSummaryRow tram_id (total_trips (stats tram))
          (passengers_served (stats tram)) (avg_util * 100)%Q (max_util * 100)%Q
          (length (stop_log (stats tram)))).

(** [create_summary]: the rows written. *)
Definition create_summary (trams : gmap Z Tram) : list SummaryRow :=
  omap summary_row (sorted_items trams).

(** [save_all_trams]: the trams whose log is saved, those with a stop log
    that is not empty; [saved_count] is their number.  The order of the
    list is that of the map, not the insertion order of the dict. *)
Definition save_all_trams (trams : gmap Z Tram) : list Z :=
  fst <$> filter (fun item : Z * Tram => stop_log (stats item.2) <> [])
            (map_to_list trams).

(** ** The hourly buckets of visualization.py *)

(** [hourly_counts = [[] for _ in range(24)]], then for each sample
    [hourly_counts[int(time // 60) % 24].append(count)]. *)
Definition hourly_counts {A} (history : list (Q * A)) : result (list (list A)) :=
  foldl (fun acc sample =>
           buckets ← acc;
           let hour := hour_of sample.1 in
           bucket ← list_item buckets hour;
           Ok (<[Z.to_nat hour := bucket ++ [sample.2]]> buckets))
    (Ok (replicate 24 [])) history.

(** ** More example inputs *)

(** The line of [json_two_stops] with an empty headway table. *)
Definition json_no_rules : ConfigJson := json_line 100 40 1000 [] 1.

(** A [randint] that walks through its range: the draw is the state of the
    generator reduced to the range, and the state moves on. *)
Definition randint_walk (g : Z) (a b : Z) : option (Z * Z) :=
  if b <? a then None else Some (a + g `mod` (b - a + 1), g * 75 + 74).

(** A custom configuration of three stops with the generated timetable. *)
Definition json_custom : ConfigJson :=
  match create_custom_config 3 [100; 200; 150] [500; 700] 2 with
  | Ok j => j
  | Raise _ => json_busy_line
  end.

(** A configuration made by [create_config] for five stops, and the state
    in which it leaves the generator. *)
Definition generated_example : ConfigJson * Z :=
  default (json_busy_line, 0) (create_config randint_walk 5 120 2 40 None 7).

(** * Properties *)

(** ** Truncation *)

Lemma py_int_floor (x : Q) : (0 <= x)%Q -> py_int x = Qfloor x.
Proof.
  intros Hx. unfold py_int, Qfloor. destruct x as [n d]; simpl.
  apply Z.quot_div_nonneg; [|lia].
  unfold Qle in Hx; simpl in Hx. lia.
Qed.

Lemma py_int_nonpos (x : Q) : (x <= 0)%Q -> py_int x <= 0.
Proof.
  intros Hx. unfold py_int. destruct x as [n d]; simpl.
  unfold Qle in Hx; simpl in Hx.
  assert (Hn : n <= 0) by lia.
  rewrite <- (Z.opp_involutive n), Z.quot_opp_l by lia.
  assert (0 <= (- n) ÷ Z.pos d) by (apply Z.quot_pos; lia). lia.
Qed.

Lemma py_int_nonneg (x : Q) : (0 <= x)%Q -> 0 <= py_int x.
Proof.
  intros Hx. rewrite py_int_floor by done.
  change 0 with (Qfloor (inject_Z 0)). now apply Qfloor_resp_le.
Qed.

Lemma py_int_le (x : Q) (n : Z) : (x <= inject_Z n)%Q -> py_int x <= n.
Proof.
  intros Hx. destruct (Qlt_le_dec x 0) as [Hneg|Hpos].
  - destruct (Z_le_gt_dec 0 n) as [Hn|Hn].
    + pose proof (py_int_nonpos x (Qlt_le_weak _ _ Hneg)). lia.
    + unfold py_int. destruct x as [a d]; simpl.
      unfold Qle, Qlt in *; simpl in *.
      rewrite <- (Z.opp_involutive a), Z.quot_opp_l by lia.
      assert (- n <= (- a) ÷ Z.pos d); [|lia].
      apply Z.quot_le_lower_bound; nia.
  - rewrite py_int_floor by done.
    rewrite <- (Qfloor_Z n). now apply Qfloor_resp_le.
Qed.

Lemma max_py_int_floor (x : Q) : Z.max 0 (py_int x) = Z.max 0 (Qfloor x).
Proof.
  destruct (Qlt_le_dec x 0) as [Hneg|Hpos].
  - pose proof (py_int_nonpos x (Qlt_le_weak _ _ Hneg)).
    assert (Qfloor x <= 0); [|lia].
    change 0 with (Qfloor (inject_Z 0)).
    apply Qfloor_resp_le. now apply Qlt_le_weak.
  - now rewrite py_int_floor.
Qed.

(** ** The stops of a leg *)

Lemma stops_sequence_lookup (cfg : Config) (d : Direction) (i : nat) (stop_id : Z) :
  stops_sequence cfg d !! i = Some stop_id <->
  Z.of_nat i < stop_number cfg /\
  stop_id = match d with
            | forward => 1 + Z.of_nat i
            | backward => stop_number cfg - Z.of_nat i
            end.
Proof.
  unfold stops_sequence. destruct d.
  - rewrite lookup_seqZ. tauto.
  - rewrite reverse_lookup_Some, length_seqZ, lookup_seqZ. split.
    + intros [[-> H1] H2]. split; lia.
    + intros [H1 ->]. repeat split; lia.
Qed.

Lemma stops_sequence_range (cfg : Config) (d : Direction) (i : nat) (stop_id : Z) :
  stops_sequence cfg d !! i = Some stop_id -> 1 <= stop_id <= stop_number cfg.
Proof. rewrite stops_sequence_lookup. destruct d; lia. Qed.

(** ** Alighting *)

Lemma Qdiv_nonneg (a b : Q) : (0 <= a)%Q -> (0 <= b)%Q -> (0 <= a / b)%Q.
Proof.
  intros Ha Hb. unfold Qdiv. apply Qmult_le_0_compat; [done|].
  now apply Qinv_le_0_compat.
Qed.

Lemma inject_Z_nonneg (z : Z) : 0 <= z -> (0 <= inject_Z z)%Q.
Proof. intros H. change 0%Q with (inject_Z 0). now rewrite <- Zle_Qle. Qed.

Lemma progress_nonneg (d : Direction) (stop_id total_stops : Z) :
  1 <= stop_id <= total_stops -> (0 <= progress d stop_id total_stops)%Q.
Proof.
  intros H. destruct d; simpl; apply Qdiv_nonneg; apply inject_Z_nonneg; lia.
Qed.

Lemma alighting_rate_le (d : Direction) (stop_id total_stops peak : Z) :
  (alighting_rate d stop_id total_stops peak <= 0.8)%Q.
Proof. apply Q.le_min_r. Qed.

Lemma alighting_rate_nonneg (d : Direction) (stop_id total_stops peak : Z) :
  1 <= stop_id <= total_stops ->
  (0 <= alighting_rate d stop_id total_stops peak)%Q.
Proof.
  intros H. unfold alighting_rate. apply Q.min_glb; [|lra].
  pose proof (progress_nonneg d _ _ H).
  destruct (stop_id =? peak); lra.
Qed.

(** The position of a stop in its leg determines [progress] and
    [is_terminal]. *)
Lemma progress_position (cfg : Config) (d : Direction) (i : nat) (stop_id : Z) :
  stops_sequence cfg d !! i = Some stop_id ->
  (progress d stop_id (stop_number cfg)
   == inject_Z (Z.of_nat i + 1) / inject_Z (stop_number cfg))%Q.
Proof.
  rewrite stops_sequence_lookup. intros [Hi ->]. destruct d; simpl.
  - now replace (1 + Z.of_nat i) with (Z.of_nat i + 1) by lia.
  - now replace (stop_number cfg - (stop_number cfg - Z.of_nat i) + 1)
      with (Z.of_nat i + 1) by lia.
Qed.

Lemma is_terminal_position (cfg : Config) (d : Direction) (i : nat) (stop_id : Z) :
  stops_sequence cfg d !! i = Some stop_id ->
  is_terminal d stop_id (stop_number cfg) = (Z.of_nat i + 1 =? stop_number cfg).
Proof.
  rewrite stops_sequence_lookup. intros [Hi ->]. destruct d; simpl.
  - destruct (Z.eqb_spec (1 + Z.of_nat i) (stop_number cfg)),
             (Z.eqb_spec (Z.of_nat i + 1) (stop_number cfg)); lia || done.
  - destruct (Z.eqb_spec (stop_number cfg - Z.of_nat i) 1),
             (Z.eqb_spec (Z.of_nat i + 1) (stop_number cfg)); lia || done.
Qed.

Lemma alight_passengers_bounds (t t' : Tram) (stop_id total_stops peak a : Z) :
  0 <= passengers t ->
  1 <= stop_id <= total_stops ->
  alight_passengers t stop_id total_stops peak = Ok (a, t') ->
  0 <= a <= passengers t /\ passengers t' = passengers t - a /\
  capacity t' = capacity t /\ tram_id t' = tram_id t /\
  direction t' = direction t /\ stats t' = stats t.
Proof.
  intros Hp Hs. unfold alight_passengers.
  destruct (Z.eqb_spec (passengers t) 0) as [H0|H0].
  { intros [= <- <-]. repeat split; lia. }
  destruct (total_stops =? 0); [done|].
  intros [= <- <-]. simpl. split; [|done].
  destruct (is_terminal _ _ _); [lia|].
  pose proof (alighting_rate_nonneg (direction t) _ _ peak Hs) as Hr0.
  pose proof (alighting_rate_le (direction t) stop_id total_stops peak) as Hr1.
  pose proof (inject_Z_nonneg _ Hp) as Hq.
  split.
  - apply py_int_nonneg. now apply Qmult_le_0_compat.
  - apply py_int_le. nra.
Qed.

Lemma alight_passengers_keeps (t t' : Tram) (stop_id total_stops peak a : Z) :
  alight_passengers t stop_id total_stops peak = Ok (a, t') ->
  capacity t' = capacity t /\ stats t' = stats t.
Proof.
  unfold alight_passengers.
  destruct (passengers t =? 0); [by intros [= <- <-]|].
  destruct (total_stops =? 0); [done|]. by intros [= <- <-].
Qed.

Lemma alight_passengers_not_negative (t t' : Tram) (stop_id total_stops peak a : Z) :
  0 <= passengers t ->
  alight_passengers t stop_id total_stops peak = Ok (a, t') ->
  0 <= passengers t'.
Proof.
  intros Hp. unfold alight_passengers.
  destruct (Z.eqb_spec (passengers t) 0) as [H0|H0].
  { now intros [= <- <-]. }
  destruct (total_stops =? 0); [done|].
  intros [= <- <-]. simpl.
  destruct (is_terminal _ _ _); [lia|].
  pose proof (alighting_rate_le (direction t) stop_id total_stops peak) as Hr1.
  pose proof (inject_Z_nonneg _ Hp) as Hq.
  assert (py_int (inject_Z (passengers t) *
                  alighting_rate (direction t) stop_id total_stops peak)
          <= passengers t); [|lia].
  apply py_int_le. nra.
Qed.

Lemma board_passengers_bounds (t : Tram) (waiting : Z) :
  passengers t <= capacity t ->
  passengers (board_passengers t waiting).2 <= capacity t /\
  capacity (board_passengers t waiting).2 = capacity t /\
  (board_passengers t waiting).1 <= waiting /\
  (0 <= waiting -> 0 <= (board_passengers t waiting).1) /\
  passengers (board_passengers t waiting).2
    = passengers t + (board_passengers t waiting).1.
Proof. unfold board_passengers, free_seats. simpl. lia. Qed.

(** C3 (as amended).  A tram with [p > 0] passengers arrives at the stop
    at index [i] of the stop sequence of its current leg, on a line of [N]
    stops.  If the stop is the last of the leg (the terminal of the
    direction), all [p] passengers alight.  Otherwise the number alighted is
    [floor(p * min(0.8, 0.2 * (2 if stop == peak_stop else 1) + 0.3 * progress))]
    with [progress = (i + 1) / N]: the position of the stop in the leg
    divided by the number of stops, which is [1 / N] (not 0) at the first
    stop of the leg and 1 at the last.  The tram keeps the others. *)
Theorem alight_passengers_count (cfg : Config) (t : Tram) (i : nat) (stop_id : Z) :
  0 < passengers t ->
  stops_sequence cfg (direction t) !! i = Some stop_id ->
  let N := stop_number cfg in
  let k := if stop_id =? peak_stop cfg then 2%Q else 1%Q in
  let progress := (inject_Z (Z.of_nat i + 1) / inject_Z N)%Q in
  let alighted :=
    if Z.of_nat i + 1 =? N then passengers t
    else Qfloor (inject_Z (passengers t) * Qmin 0.8 (0.2 * k + 0.3 * progress)) in
  exists t',
    alight_passengers t stop_id N (peak_stop cfg) = Ok (alighted, t') /\
    passengers t' = passengers t - alighted.
Proof.
  intros Hp Hi. cbv zeta.
  pose proof (stops_sequence_range _ _ _ _ Hi) as Hr.
  unfold alight_passengers.
  destruct (Z.eqb_spec (passengers t) 0) as [H0|_]; [lia|].
  destruct (Z.eqb_spec (stop_number cfg) 0) as [H0|_]; [lia|].
  rewrite (is_terminal_position _ _ _ _ Hi).
  match goal with
  | |- exists t', Ok (?a, _) = Ok (?b, t') /\ _ =>
      assert (Ha : a = b); [|rewrite Ha; eexists; split; [reflexivity|done]]
  end.
  destruct (_ =? stop_number cfg); [done|].
  pose proof (alighting_rate_nonneg (direction t) _ _ (peak_stop cfg) Hr) as Hr0.
  rewrite py_int_floor
    by (apply Qmult_le_0_compat; [apply inject_Z_nonneg; lia | done]).
  apply Qfloor_comp. apply Qmult_comp; [reflexivity|].
  unfold alighting_rate. rewrite Q.min_comm.
  rewrite (progress_position _ _ _ _ Hi).
  destruct (stop_id =? peak_stop cfg);
    (apply Q.min_compat; [reflexivity | ring]).
Qed.

Lemma alight_passengers_count_witness :
  exists t',
    alight_passengers (example_tram 100 95 forward) 2 2 1 = Ok (95, t') /\
    passengers t' = 0.
Proof.
  destruct (alight_passengers_count (config_of (json_two_stops 100))
              (example_tram 100 95 forward) 1 2) as (t' & H1 & H2).
  - simpl. lia.
  - reflexivity.
  - exists t'. split; [exact H1 | exact H2].
Defined.

(** C3, as stated, fails at the first stop of a leg: stop 1 of a forward
    leg on a line of 2 stops is not the terminal of the direction, and with
    10 passengers on board 3 alight, where [progress = 0] would give
    [floor(10 * min(0.8, 0.2 + 0.3 * 0)) = 2]. *)
Lemma alight_passengers_origin_counterexample :
  is_terminal forward 1 2 = false /\
  exists a t',
    alight_passengers (example_tram 100 10 forward) 1 2 5 = Ok (a, t') /\
    a = 3 /\
    a <> Qfloor (inject_Z 10 * Qmin 0.8 (0.2 * 1 + 0.3 * 0)).
Proof.
  split; [reflexivity|]. eexists _, _. split; [reflexivity|].
  split; [reflexivity|]. vm_compute. discriminate.
Qed.

(** ** New arrivals at a stop *)

(** C4 (as amended).  With elapsed time [dt > 0] and expected arrivals
    [expected = intensity * dt / 60 > 0], the realized number of new
    waiting passengers is [max(0, floor(sample))], where [sample] is the
    normal draw: the fractional part of a non-negative sample is discarded
    ([int] truncates), it is not rounded to the nearest integer.  When
    [expected <= 0], or [dt <= 0], the count is 0 and nothing is drawn. *)
Theorem get_new_passengers_truncates {RNG : Type} (gauss : RNG -> Q -> Q * RNG)
    (intensity dt : Q) (g : RNG) :
  let expected := (intensity * (dt / 60))%Q in
  ((0 < dt)%Q -> (0 < expected)%Q ->
     get_new_passengers gauss intensity dt g
     = (Z.max 0 (Qfloor (gauss g expected).1), (gauss g expected).2)) /\
  ((expected <= 0)%Q -> get_new_passengers gauss intensity dt g = (0, g)) /\
  ((dt <= 0)%Q -> get_new_passengers gauss intensity dt g = (0, g)).
Proof.
  cbv zeta. unfold get_new_passengers. repeat split.
  - intros Hdt He.
    destruct (Qle_bool dt 0) eqn:E1.
    { apply Qle_bool_iff in E1. lra. }
    destruct (Qle_bool (intensity * (dt / 60)) 0) eqn:E2.
    { apply Qle_bool_iff in E2. lra. }
    destruct (gauss g _) as [sample g']. simpl. now rewrite max_py_int_floor.
  - intros He. destruct (Qle_bool dt 0); [done|].
    destruct (Qle_bool (intensity * (dt / 60)) 0) eqn:E2; [done|].
    apply Qle_bool_iff in He. congruence.
  - intros Hdt. apply Qle_bool_iff in Hdt. now rewrite Hdt.
Qed.

Lemma get_new_passengers_truncates_witness :
  get_new_passengers gauss_mean 120 30 tt = (60, tt) /\
  get_new_passengers gauss_mean 0 30 tt = (0, tt) /\
  get_new_passengers gauss_mean 120 0 tt = (0, tt).
Proof.
  destruct (get_new_passengers_truncates gauss_mean 120 30 tt) as (H1 & _ & _).
  destruct (get_new_passengers_truncates gauss_mean 0 30 tt) as (_ & H2 & _).
  destruct (get_new_passengers_truncates gauss_mean 120 0 tt) as (_ & _ & H3).
  split; [|split].
  - apply H1; reflexivity.
  - apply H2. discriminate.
  - apply H3. discriminate.
Defined.

(** C4, as stated, fails when the sample has a fractional part of one half
    or more: intensity 120 per hour and 30 minutes elapsed give an expected
    count of 60; if the normal draw is 2.75 the stop receives 2 passengers,
    and rounding to the nearest integer would give 3. *)
Lemma get_new_passengers_round_counterexample :
  (0 < 30)%Q /\ (0 < 120 * (30 / 60))%Q /\
  (get_new_passengers gauss_2_75 120 30 tt).1 = 2 /\
  Z.max 0 (py_round (gauss_2_75 tt (120 * (30 / 60))%Q).1) = 3.
Proof. repeat split. Qed.

(** ** Travel time *)

Lemma Qmax_5_pos (x : Q) : (0 < Qmax x 5)%Q.
Proof. pose proof (Q.le_max_r x 5). lra. Qed.

(** C7 (as amended).  For a hop of distance [distance_m > 0] the travel
    time is [acceleration_time + (distance_m / 1000) * (60 / effective_speed)]
    with [effective_speed = max(5.0, free_flow_speed * (1 - road_load(hour)) * jitter)],
    [jitter] the uniform draw on (0.95, 1.05) and [road_load(hour)] the
    table entry or 0.5 when the hour has none.  For a hop of distance
    [distance_m <= 0] the travel time is 0: nothing is drawn and
    [acceleration_time] is not added. *)
Theorem calculate_travel_time_formula {RNG : Type}
    (uniform : RNG -> Q -> Q -> Q * RNG) (cfg : Config)
    (distance_m : Q) (hour : Z) (g : RNG) :
  let jitter := (uniform g 0.95 1.05)%Q.1 in
  let road_load := default 0.5%Q (road_loads cfg !! hour) in
  let effective_speed := Qmax 5 (flow_speed cfg * (1 - road_load) * jitter) in
  ((0 < distance_m)%Q ->
     ((calculate_travel_time uniform cfg distance_m hour g).1
      == acceleration_time cfg + (distance_m / 1000) * (60 / effective_speed))%Q /\
     (calculate_travel_time uniform cfg distance_m hour g).2
       = (uniform g 0.95 1.05)%Q.2) /\
  ((distance_m <= 0)%Q ->
     calculate_travel_time uniform cfg distance_m hour g = (0%Q, g)).
Proof.
  cbv zeta. unfold calculate_travel_time. split.
  - intros Hd. destruct (Qle_bool distance_m 0) eqn:E.
    { apply Qle_bool_iff in E. lra. }
    destruct (uniform g _ _) as [jitter g']. simpl. split; [|done].
    unfold actual_speed. rewrite (Q.max_comm 5). ring.
  - intros Hd. apply Qle_bool_iff in Hd. now rewrite Hd.
Qed.

Lemma calculate_travel_time_formula_witness :
  ((calculate_travel_time uniform_one (config_of (json_two_stops 100)) 1000 0 tt).1
   == 0.5 + (1000 / 1000) * (60 / Qmax 5 (40 * (1 - 0.5) * 1)))%Q /\
  calculate_travel_time uniform_one (config_of (json_two_stops 100)) 0 0 tt
  = (0%Q, tt).
Proof.
  destruct (calculate_travel_time_formula uniform_one
              (config_of (json_two_stops 100)) 1000 0 tt) as [H1 _].
  destruct (calculate_travel_time_formula uniform_one
              (config_of (json_two_stops 100)) 0 0 tt) as [_ H2].
  split.
  - apply H1. reflexivity.
  - apply H2. discriminate.
Defined.

(** C7, as stated, fails on a hop of distance 0 (a stop whose distance
    entry is 0 or absent): with [acceleration_time = 0.5] the formula gives
    0.5 minutes, the code suspends for 0. *)
Lemma calculate_travel_time_zero_distance_counterexample :
  let cfg := config_of (json_two_stops 100) in
  let t := (calculate_travel_time uniform_one cfg 0 0 tt).1 in
  (t == 0)%Q /\
  ~ (t == acceleration_time cfg + (0 / 1000) * (60 / actual_speed cfg 0 1))%Q.
Proof. split; [reflexivity | discriminate]. Qed.

(** C10 (as amended).  For an hour absent from the road-load table the
    travel time of a hop of positive distance is computed with a congestion
    factor of 0.5: the computation does not fail, and the effective speed is
    [max(5.0, free_flow_speed * jitter / 2)], that is half the jittered
    free-flow speed, or the floor of 5 km/h when that half is lower. *)
Theorem calculate_travel_time_unconfigured_hour {RNG : Type}
    (uniform : RNG -> Q -> Q -> Q * RNG) (cfg : Config)
    (distance_m : Q) (hour : Z) (g : RNG) :
  road_loads cfg !! hour = None ->
  (0 < distance_m)%Q ->
  let jitter := (uniform g 0.95 1.05)%Q.1 in
  let half_speed := (flow_speed cfg * jitter / 2)%Q in
  (actual_speed cfg hour jitter == Qmax 5 half_speed)%Q /\
  ((5 <= half_speed)%Q -> (actual_speed cfg hour jitter == half_speed)%Q) /\
  ((calculate_travel_time uniform cfg distance_m hour g).1
   == acceleration_time cfg + (distance_m / 1000) * (60 / Qmax 5 half_speed))%Q.
Proof.
  intros Hh Hd. cbv zeta.
  assert (Hs : (actual_speed cfg hour (uniform g 0.95 1.05)%Q.1
                == Qmax 5 (flow_speed cfg * (uniform g 0.95 1.05)%Q.1 / 2))%Q).
  { unfold actual_speed. rewrite Hh. simpl. rewrite Q.max_comm.
    apply Q.max_compat; [reflexivity|]. field. }
  split; [exact Hs|]. split.
  - intros H5. rewrite Hs. now apply Q.max_r.
  - unfold calculate_travel_time. destruct (Qle_bool distance_m 0) eqn:E.
    { apply Qle_bool_iff in E. lra. }
    destruct (uniform g _ _) as [jitter g']. simpl in *. rewrite Hs. ring.
Qed.

Lemma calculate_travel_time_unconfigured_hour_witness :
  (actual_speed (config_of (json_two_stops 100)) 7 1 == 40 * 1 / 2)%Q.
Proof.
  destruct (calculate_travel_time_unconfigured_hour uniform_one
              (config_of (json_two_stops 100)) 1000 7 tt) as (_ & H & _).
  - reflexivity.
  - reflexivity.
  - apply H. discriminate.
Defined.

(** C10, as stated, fails for a slow line: with a free-flow speed of 8 km/h
    and a jitter of 1.0, a trip in an unconfigured hour runs at 5 km/h, not
    at half the jittered free-flow speed (4 km/h). *)
Lemma calculate_travel_time_floor_counterexample :
  let cfg := config_of json_slow_line in
  road_loads cfg !! 3 = None /\
  (actual_speed cfg 3 1 == 5)%Q /\
  ~ (actual_speed cfg 3 1 == flow_speed cfg * 1 / 2)%Q.
Proof. repeat split. discriminate. Qed.

(** ** The event heap *)

Lemma pop_min_perm (q q' : list Event) (e : Event) :
  pop_min q = Some (e, q') -> q ≡ₚ e :: q'.
Proof.
  revert e q'. induction q as [|a q IH]; intros e q'; simpl; [done|].
  destruct (pop_min q) as [[m r]|] eqn:E.
  - destruct (event_ltb m a).
    + intros [= <- <-]. rewrite (IH _ _ eq_refl). apply Permutation_swap.
    + now intros [= <- <-].
  - intros [= <- <-]. destruct q; [done|]. simpl in E.
    destruct (pop_min q) as [[? ?]|]; [destruct (event_ltb _ _)|]; done.
Qed.

Lemma key_le_time (a b : Event) : key_le a b -> (ev_at a <= ev_at b)%Q.
Proof. intros [H|[H _]]; lra. Qed.

Lemma key_le_trans (a b c : Event) : key_le a b -> key_le b c -> key_le a c.
Proof.
  intros [H1|[H1 P1]] [H2|[H2 P2]]; unfold key_le.
  - left; lra.
  - left; lra.
  - left; lra.
  - right. split; [lra|].
    destruct (ev_priority a), (ev_priority b), (ev_priority c);
      destruct P1, P2; auto; discriminate.
Qed.

Lemma event_ltb_key (a b : Event) : event_ltb a b = true -> key_le a b.
Proof.
  unfold event_ltb, key_le.
  destruct (Qcompare_spec (ev_at a) (ev_at b)); [|tauto|done].
  destruct (ev_priority a), (ev_priority b); simpl; auto; try done.
Qed.

Lemma event_ltb_key_ge (a b : Event) : event_ltb a b = false -> key_le b a.
Proof.
  unfold event_ltb, key_le.
  destruct (Qcompare_spec (ev_at a) (ev_at b)) as [H|H|H]; [|done|tauto].
  destruct (ev_priority a), (ev_priority b); simpl; try done;
    intros _; right; (split; [lra|auto]).
Qed.

Lemma pop_min_key (q q' : list Event) (e : Event) :
  pop_min q = Some (e, q') -> forall e', e' ∈ q' -> key_le e e'.
Proof.
  revert e q'. induction q as [|a q IH]; intros e q'; simpl; [done|].
  destruct (pop_min q) as [[m r]|] eqn:E.
  - destruct (event_ltb m a) eqn:L.
    + intros [= <- <-] e' [->|He']%elem_of_cons.
      * now apply event_ltb_key.
      * now apply (IH _ _ eq_refl).
    + intros [= <- <-] e' He'. apply event_ltb_key_ge in L.
      rewrite (pop_min_perm _ _ _ E) in He'.
      apply elem_of_cons in He' as [->|He']; [done|].
      eapply key_le_trans; [exact L|]. now apply (IH _ _ eq_refl).
  - intros [= <- <-] e' He'. by apply elem_of_nil in He'.
Qed.

Lemma pop_min_least (q q' : list Event) (e : Event) :
  pop_min q = Some (e, q') -> forall e', e' ∈ q' -> (ev_at e <= ev_at e')%Q.
Proof. intros H e' He'. apply key_le_time. eapply pop_min_key; eauto. Qed.

Section Run.

Context {RNG : Type}.
Variable gauss : RNG -> Q -> Q * RNG.
Variable uniform : RNG -> Q -> Q -> Q * RNG.
Variable cfg : Config.

Implicit Types s : @Sim RNG.

#[local] Arguments Qred : simpl never.
#[local] Arguments Qplus : simpl never.
#[local] Arguments Qminus : simpl never.
#[local] Arguments Qmult : simpl never.
#[local] Arguments Qdiv : simpl never.
#[local] Arguments Qabs : simpl never.
#[local] Arguments Qle_bool : simpl never.
#[local] Arguments inject_Z : simpl never.
#[local] Arguments hour_of : simpl never.
#[local] Arguments utilization : simpl never.
#[local] Arguments alight_passengers : simpl never.
#[local] Arguments get_intensity : simpl never.
#[local] Arguments get_current_interval : simpl never.
#[local] Arguments actual_speed : simpl never.
#[local] Arguments stops_sequence : simpl never.

Lemma step_Running s s' :
  step gauss uniform cfg s = Running s' ->
  exists e q, pop_min (queue (env s)) = Some (e, q) /\
              ev_kind e <> StopSimulation /\
              handle gauss uniform cfg (pop_event s e q) (ev_kind e) = Ok s'.
Proof.
  unfold step. destruct (pop_min _) as [[e q]|]; [|done].
  intros H. exists e, q. split; [done|].
  destruct (ev_kind e); try done; (split; [done|]);
    match type of H with
    | match ?h with _ => _ end = _ => destruct h; [congruence|done]
    end.
Qed.

Lemma step_Halted s s' :
  step gauss uniform cfg s = Halted s' ->
  exists e q, pop_min (queue (env s)) = Some (e, q) /\
              ev_kind e = StopSimulation /\ s' = pop_event s e q.
Proof.
  unfold step. destruct (pop_min _) as [[e q]|]; [|done].
  intros H. exists e, q. split; [done|].
  destruct (ev_kind e); try (by inversion H);
    match type of H with
    | match ?h with _ => _ end = _ => destruct h; done
    end.
Qed.

Lemma steps_Crashed (n : nat) s0 (err : PyError) :
  steps gauss uniform cfg n s0 = Crashed err ->
  exists m s, steps gauss uniform cfg m s0 = Running s /\
              step gauss uniform cfg s = Crashed err.
Proof.
  revert s0. induction n as [|n IH]; intros s0; simpl; [done|].
  destruct (step gauss uniform cfg s0) as [s1|s1|s1|err'] eqn:E; try done.
  - intros H. destruct (IH _ H) as (m & s & Hm & Hs).
    exists (S m), s. simpl. rewrite E. auto.
  - intros [= <-]. exists 0%nat, s0. auto.
Qed.

Lemma step_Crashed s (err : PyError) :
  step gauss uniform cfg s = Crashed err ->
  exists e q, pop_min (queue (env s)) = Some (e, q) /\
              handle gauss uniform cfg (pop_event s e q) (ev_kind e) = Raise err.
Proof.
  unfold step. destruct (pop_min _) as [[e q]|]; [|done].
  intros H. exists e, q. split; [done|].
  destruct (ev_kind e); try done;
    match type of H with
    | match ?h with _ => _ end = _ => destruct h; [done|congruence]
    end.
Qed.

(** Induction over the states of a run: [P] for the states between two
    events, [Q] for the state in which [run] returns. *)
Lemma run_invariant (P Q : @Sim RNG -> Prop) :
  (forall s e q s',
     P s -> pop_min (queue (env s)) = Some (e, q) ->
     ev_kind e <> StopSimulation ->
     handle gauss uniform cfg (pop_event s e q) (ev_kind e) = Ok s' -> P s') ->
  (forall s e q,
     P s -> pop_min (queue (env s)) = Some (e, q) ->
     ev_kind e = StopSimulation -> Q (pop_event s e q)) ->
  forall n s0 s, P s0 ->
    (steps gauss uniform cfg n s0 = Running s -> P s) /\
    (steps gauss uniform cfg n s0 = Halted s -> Q s).
Proof.
  intros Hstep Hhalt n. induction n as [|n IH]; intros s0 s H0; simpl.
  - split; [now intros [= <-] | discriminate].
  - destruct (step gauss uniform cfg s0) as [s1|s1|s1|err] eqn:E.
    + apply step_Running in E as (e & q & Hpop & Hk & Hh).
      apply IH. eapply Hstep; eauto.
    + apply step_Halted in E as (e & q & Hpop & Hk & ->).
      split; [discriminate|]. intros [= <-]. eapply Hhalt; eauto.
    + split; discriminate.
    + split; discriminate.
Qed.

Lemma reachable_invariant (P : @Sim RNG -> Prop) (g : RNG) :
  (forall s0, run_simulation cfg g = Ok s0 -> P s0) ->
  (forall s e q s',
     P s -> pop_min (queue (env s)) = Some (e, q) ->
     handle gauss uniform cfg (pop_event s e q) (ev_kind e) = Ok s' -> P s') ->
  forall s, reachable gauss uniform cfg g s -> P s.
Proof.
  intros Hinit Hstep s (s0 & n & Hrun & Hs).
  destruct (run_invariant P P) with (n := n) (s0 := s0) (s := s) as [H1 H2].
  - intros. eapply Hstep; eauto.
  - intros s1 e q H1 Hpop Hk. eapply Hstep; eauto. now rewrite Hk.
  - now apply Hinit.
  - destruct Hs; auto.
Qed.

(** ** Fleet accounting *)

#[local] Instance granted_Permutation : Proper ((≡ₚ) ==> (≡ₚ)) granted.
Proof. apply omap_Permutation. Qed.

Lemma granted_snoc (q : list Event) (e : Event) :
  granted (q ++ [e]) = granted q ++ granted [e].
Proof. apply omap_app. Qed.

Lemma granted_cons (e : Event) (q : list Event) :
  granted (e :: q)
  = match ev_kind e with StoreGet tram => [tram] | _ => [] end ++ granted q.
Proof. unfold granted, granted_tram. simpl. now destruct (ev_kind e). Qed.

Lemma on_trip_insert (ps : list TripFrame) (p : nat) (f f' : TripFrame) :
  ps !! p = Some f ->
  holds f ++ on_trip (<[p := f']> ps) ≡ₚ holds f' ++ on_trip ps.
Proof.
  intros Hp. unfold on_trip.
  rewrite <- (take_drop_middle ps p f Hp) at 2.
  rewrite (insert_take_drop ps p f') by (eapply lookup_lt_Some; eauto).
  rewrite !bind_app, !bind_cons.
  rewrite !(Permutation_app_swap_app _ (take p ps ≫= holds)).
  apply Permutation_app_head, Permutation_app_swap_app.
Qed.

Lemma on_trip_insert_same (ps : list TripFrame) (p : nat) (f f' : TripFrame) :
  ps !! p = Some f -> holds f' = holds f ->
  on_trip (<[p := f']> ps) ≡ₚ on_trip ps.
Proof.
  intros Hp Hh. apply (Permutation_app_inv_l (holds f)).
  rewrite (on_trip_insert _ _ _ _ Hp). now rewrite Hh.
Qed.

Lemma on_trip_snoc (ps : list TripFrame) (f : TripFrame) :
  on_trip (ps ++ [f]) = on_trip ps ++ holds f.
Proof. unfold on_trip. rewrite bind_app. simpl. now rewrite app_nil_r. Qed.

Ltac sim_unfold H :=
  cbv beta iota zeta delta
    [handle tram_generator_loop tram_generator_resume tram_process_start
     start_leg trip_iteration timeout store_put store_get trigger_get
     schedule set_frame set_rng set_trams set_processes set_generator
     set_available_trams set_env pop_event at_pc subscript] in H;
  cbn [env available_trams trams stops tram_counter all_trams_created
       total_passengers_served utilization_deviations generator processes rng
       now queue next_eid items get_queue mbind result_bind
       trip_tram trip_direction trip_i trip_pc] in H.

Ltac sim_cases :=
  repeat match goal with
  | H : mbind _ ?r = Ok _ |- _ => destruct r eqn:?; simpl in H; [|discriminate H]
  | H : context [match ?x with _ => _ end] |- _ =>
      destruct x eqn:?; try discriminate H
  | H : context [if ?x then _ else _] |- _ =>
      destruct x eqn:?; try discriminate H
  | H : Ok _ = Ok _ |- _ => injection H as <-
  end.

(** What [arrive_at_stop] touches: the tram, the stop, the two counters of
    the simulation object, the random source, and one heap entry for the
    dwell. *)
Lemma arrive_at_stop_frame s p tram_ref stop_id s' :
  arrive_at_stop gauss cfg s p tram_ref stop_id = Ok s' ->
  exists tram tram' stop stop' served devs g' dwell,
    trams s !! tram_ref = Some tram /\ stops s !! stop_id = Some stop /\
    Qle_bool 0 dwell = true /\
    s' = mkSim
           (mkEnvironment (now (env s))
              (queue (env s) ++
               [mkEvent (Qred (now (env s) + dwell)) NORMAL (next_eid (env s))
                  (ArriveTimeout p)])
              (S (next_eid (env s))))
           (available_trams s) (<[tram_ref := tram']> (trams s))
           (<[stop_id := stop']> (stops s)) (tram_counter s)
           (all_trams_created s) served devs (generator s) (processes s) g' /\
    capacity tram' = capacity tram /\
    total_trips (stats tram') = total_trips (stats tram) /\
    (0 <= passengers tram <= capacity tram ->
     0 <= waiting_passengers stop ->
     1 <= stop_id <= stop_number cfg ->
     0 <= passengers tram' <= capacity tram' /\ 0 <= waiting_passengers stop').
Proof.
  unfold arrive_at_stop. intros H.
  destruct (stops s !! stop_id) as [stop|] eqn:Hstop; [simpl in H|done].
  destruct (trams s !! tram_ref) as [tram|] eqn:Htram; [|done].
  destruct (alight_passengers _ _ _ _) as [[alighted tram1]|] eqn:Ha;
    [simpl in H|done].
  destruct (get_new_passengers _ _ _ _) as [new_passengers g'] eqn:Hn.
  unfold board_passengers in H.
  unfold timeout in H. destruct (Qle_bool 0 _) eqn:Hd; [|done].
  injection H as <-.
  do 8 eexists. split; [reflexivity|]. split; [reflexivity|].
  split; [exact Hd|]. split; [reflexivity|].
  assert (Hnew : 0 <= new_passengers).
  { unfold get_new_passengers in Hn.
    destruct (Qle_bool _ 0); [injection Hn as <- _; lia|].
    destruct (Qle_bool _ 0); [injection Hn as <- _; lia|].
    destruct (gauss _ _). injection Hn as <- _. lia. }
  destruct (alight_passengers_keeps _ _ _ _ _ _ Ha) as (Hc & Hst).
  split; [exact Hc|]. split; [simpl; by rewrite Hst|].
  intros Hp Hw Hs.
  destruct (alight_passengers_bounds _ _ _ _ _ _ (proj1 Hp) Hs Ha)
    as (Hal & Hp1 & _).
  unfold free_seats. simpl.
  destruct (0 <? _); simpl; lia.
Qed.

Ltac arrive_frame :=
  match goal with
  | H : arrive_at_stop _ _ _ _ _ _ = Ok _ |- _ =>
      apply arrive_at_stop_frame in H
        as (?tram & ?tram' & ?stop & ?stop' & ?served & ?devs & ?g' & ?dwell &
            ?Htram & ?Hstop & ?Hdwell & -> & ?Hcap & ?Htrips & ?Hpass)
  end.

Lemma on_trip_release (ps : list TripFrame) (p : nat) (f f' : TripFrame) :
  ps !! p = Some f -> in_flight (trip_pc f) = true -> holds f' = [] ->
  on_trip ps ≡ₚ trip_tram f :: on_trip (<[p := f']> ps).
Proof.
  intros Hp Hf Hf'. pose proof (on_trip_insert ps p f f' Hp) as H.
  rewrite Hf' in H. unfold holds in H at 1. rewrite Hf in H. now rewrite <- H.
Qed.

Ltac held_frames :=
  repeat match goal with
  | Hp : ?ps !! ?p = Some ?f, Hpc : trip_pc ?f = _
    |- context [on_trip (<[?p := ?f']> ?ps)] =>
      first
        [ rewrite (on_trip_insert_same ps p f f' Hp)
            by (unfold holds; simpl; rewrite Hpc; reflexivity)
        | rewrite (on_trip_release ps p f f' Hp)
            by (first [rewrite Hpc; reflexivity | reflexivity]) ]
  end.

Lemma held_preserved s e q s' :
  held s ≡ₚ all_trams_created s ->
  pop_min (queue (env s)) = Some (e, q) ->
  handle gauss uniform cfg (pop_event s e q) (ev_kind e) = Ok s' ->
  held s' ≡ₚ all_trams_created s'.
Proof.
  intros Hinv Hpop Hh. unfold held in *.
  rewrite (pop_min_perm _ _ _ Hpop), granted_cons in Hinv.
  destruct (ev_kind e) eqn:Hk; sim_unfold Hh; simpl in *; sim_cases;
    try arrive_frame; simpl.
  all: rewrite ?granted_snoc, ?granted_cons, ?on_trip_snoc; simpl.
  all: rewrite <- Hinv; clear Hinv.
  all: repeat match goal with H : items _ = _ |- _ => rewrite H end.
  all: try (held_frames; solve_Permutation).
Qed.

(** ** The clock *)

Lemma Qred_delay_le (t d : Q) : Qle_bool 0 d = true -> (t <= Qred (t + d))%Q.
Proof. intros H%Qle_bool_iff. rewrite Qred_correct. lra. Qed.

Lemma Qred_no_delay (t : Q) : (Qred (t + 0) == t)%Q.
Proof. rewrite Qred_correct. ring. Qed.

(** What a callback does to the clock and to the heap: the clock is left
    alone and entries are only added. *)
Lemma handle_queue s k s' :
  handle gauss uniform cfg s k = Ok s' ->
  now (env s') = now (env s) /\
  exists new, queue (env s') = queue (env s) ++ new /\
              Forall (added_at (now (env s))) new.
Proof.
  intros Hh. destruct k; sim_unfold Hh; simpl in *; sim_cases;
    try arrive_frame; simpl.
  all: split; [reflexivity|].
  all: eexists; split; [rewrite <- ?app_assoc; try reflexivity; symmetry; apply app_nil_r|].
  all: repeat (first [apply Forall_nil_2 | apply Forall_cons_2]).
  all: unfold added_at; simpl; split; [|split; [discriminate|]].
  all: try (apply Qred_delay_le; done).
  all: try (rewrite Qred_no_delay; lra).
  all: try (intros _; apply Qred_no_delay).
  all: intros [[? [=]]|[=]].
Qed.

Lemma clock_ok_preserved s e q s' :
  clock_ok s ->
  pop_min (queue (env s)) = Some (e, q) ->
  handle gauss uniform cfg (pop_event s e q) (ev_kind e) = Ok s' ->
  clock_ok s'.
Proof.
  unfold clock_ok. intros Hinv Hpop Hh.
  apply handle_queue in Hh as (Hnow & new & Hq & Hnew). simpl in *.
  rewrite Hnow, Hq. apply Forall_app. split.
  2:{ eapply Forall_impl; [exact Hnew|]. intros e' (? & _ & ?). split; auto. }
  rewrite (pop_min_perm _ _ _ Hpop) in Hinv.
  apply Forall_cons in Hinv as [[He _] Hinv].
  apply Forall_forall. intros e' He'.
  pose proof (pop_min_least _ _ _ Hpop e' He') as Hle.
  split; [done|]. intros Hg.
  rewrite Forall_forall in Hinv. destruct (Hinv e' He') as [_ Heq].
  specialize (Heq Hg). lra.
Qed.

Lemma granted_nil (q : list Event) :
  Forall (fun e => granted_tram e = None) q -> granted q = [].
Proof.
  induction 1 as [|e q He _ IH]; [done|].
  unfold granted in *. simpl. now rewrite He.
Qed.

(** A granted get is delivered before the clock moves. *)
Lemma clock_advance_no_grant s e q :
  clock_ok s ->
  pop_min (queue (env s)) = Some (e, q) ->
  (now (env s) < ev_at e)%Q ->
  granted (queue (env s)) = [].
Proof.
  unfold clock_ok. intros Hinv Hpop Hlt. apply granted_nil.
  rewrite Forall_forall in *. intros e' He'.
  destruct (granted_tram e') eqn:Hg; [exfalso|done].
  destruct (Hinv e' He') as [_ Heq]. specialize (Heq (mk_is_Some _ _ Hg)).
  rewrite (pop_min_perm _ _ _ Hpop) in He'.
  apply elem_of_cons in He' as [->|He']; [lra|].
  pose proof (pop_min_least _ _ _ Hpop e' He'). lra.
Qed.

Lemma generator_ok_preserved s e q s' :
  generator_ok s ->
  pop_min (queue (env s)) = Some (e, q) ->
  handle gauss uniform cfg (pop_event s e q) (ev_kind e) = Ok s' ->
  generator_ok s'.
Proof.
  unfold generator_ok, generator_tokens. intros Hinv Hpop Hh.
  rewrite (pop_min_perm _ _ _ Hpop) in Hinv. simpl in Hinv.
  unfold generator_token in Hinv at 1.
  destruct (ev_kind e) eqn:Hk; sim_unfold Hh; simpl in *; sim_cases;
    try arrive_frame; simpl.
  all: rewrite ?sum_list_with_app; simpl; rewrite ?length_app; simpl.
  all: repeat match goal with H : get_queue _ = _ |- _ => rewrite H in *; simpl in * end.
  all: simpl in *; try lia.
  all: destruct (get_queue (available_trams s)); simpl in *; [|lia].
  all: simplify_eq; simpl; lia.
Qed.

Lemma run_simulation_start (g : RNG) s0 :
  run_simulation cfg g = Ok s0 ->
  held s0 ≡ₚ all_trams_created s0 /\ all_trams_created s0 = seqZ 1 8 /\
  clock_ok s0 /\ generator_ok s0.
Proof.
  unfold run_simulation. destruct (Qle_bool _ _) eqn:E; [done|]. intros [= <-].
  unfold held, clock_ok, generator_ok. cbn in *.
  apply not_true_iff_false in E. rewrite Qle_bool_iff in E.
  split; [done|]. split; [reflexivity|]. split; [|done].
  repeat constructor; simpl; try (intros [? [=]]);
    rewrite Qred_correct; lra.
Qed.

Lemma fleet_accounting (g : RNG) s :
  reachable gauss uniform cfg g s ->
  (items (available_trams s) ++ checked_out s ≡ₚ all_trams_created s /\
   all_trams_created s = seqZ 1 8) /\ clock_ok s /\ generator_ok s.
Proof.
  apply (reachable_invariant (fun s =>
    (held s ≡ₚ all_trams_created s /\ all_trams_created s = seqZ 1 8) /\
    clock_ok s /\ generator_ok s)).
  - intros s0 H. apply run_simulation_start in H. tauto.
  - intros s1 e q s' [[H1 H2] [H3 H4]] Hpop Hh. repeat split.
    + eapply held_preserved; eauto.
    + rewrite <- H2. clear -Hh.
      destruct (ev_kind e); sim_unfold Hh; simpl in *; sim_cases;
        try arrive_frame; reflexivity.
    + eapply clock_ok_preserved; eauto.
    + eapply generator_ok_preserved; eauto.
Qed.

(** ** The horizon *)

Lemma horizon_ok_start (g : RNG) s0 :
  run_simulation cfg g = Ok s0 -> horizon_ok cfg s0.
Proof.
  unfold run_simulation. destruct (Qle_bool _ _) eqn:E; [done|]. intros [= <-].
  unfold horizon_ok, horizon, before_horizon. cbn in *.
  apply not_true_iff_false in E. rewrite Qle_bool_iff in E.
  split; [lra|]. split.
  - eexists. split; [rewrite !elem_of_cons; do 9 right; now left|].
    reflexivity.
  - repeat (first [apply Forall_nil_2 | apply Forall_cons_2]);
      unfold before_horizon, horizon; simpl;
      try discriminate; try (intros _; rewrite Qred_correct; lra).
    split; [done|]. rewrite Qred_correct. ring.
Qed.

Lemma horizon_ok_preserved s e q s' :
  horizon_ok cfg s ->
  pop_min (queue (env s)) = Some (e, q) ->
  ev_kind e <> StopSimulation ->
  handle gauss uniform cfg (pop_event s e q) (ev_kind e) = Ok s' ->
  horizon_ok cfg s'.
Proof.
  intros (Hnow & (u & Hu & Hku) & Hall) Hpop Hk Hh.
  apply handle_queue in Hh as (Hnow' & new & Hq & Hnew). simpl in *.
  rewrite (pop_min_perm _ _ _ Hpop) in Hall, Hu.
  apply Forall_cons in Hall as [He Hall].
  apply elem_of_cons in Hu as [->|Hu]; [done|].
  assert (Hlt : (ev_at e < horizon cfg)%Q).
  { rewrite Forall_forall in Hall. specialize (Hall u Hu).
    unfold before_horizon in Hall, He. rewrite Hku in Hall.
    destruct Hall as [Hup Hut].
    destruct (pop_min_key _ _ _ Hpop u Hu) as [H|[H [H'|H']]]; [lra| |congruence].
    destruct (ev_kind e); try done; auto. }
  unfold horizon_ok. rewrite Hnow', Hq. split; [done|]. split.
  - exists u. split; [|done]. apply elem_of_app. now left.
  - apply Forall_app. split; [done|].
    eapply Forall_impl; [exact Hnew|]. intros e' (H1 & H2 & H3).
    unfold before_horizon. destruct (ev_kind e'); try done;
      intros Hp; rewrite H3 by auto; done.
Qed.

(** When [run] returns, no granted get is left undelivered. *)
Lemma halted_no_grant s e q :
  horizon_ok cfg s -> clock_ok s ->
  pop_min (queue (env s)) = Some (e, q) ->
  ev_kind e = StopSimulation ->
  granted q = [].
Proof.
  intros (Hnow & _ & Hall) Hc Hpop Hk.
  unfold clock_ok in Hc.
  rewrite (pop_min_perm _ _ _ Hpop) in Hall, Hc.
  apply Forall_cons in Hall as [He _]. apply Forall_cons in Hc as [_ Hc].
  unfold before_horizon in He. rewrite Hk in He. destruct He as [_ He].
  apply granted_nil. rewrite Forall_forall in *. intros e' He'.
  destruct (granted_tram e') eqn:Hg; [exfalso|done].
  destruct (Hc e' He') as [_ Heq]. specialize (Heq (mk_is_Some _ _ Hg)).
  pose proof (pop_min_least _ _ _ Hpop e' He'). lra.
Qed.

Lemma granted_length (q : list Event) :
  (length (granted q) <= generator_tokens q)%nat.
Proof.
  induction q as [|e q IH]; [done|].
  rewrite granted_cons. unfold generator_tokens in *. simpl.
  unfold generator_token at 1. destruct (ev_kind e); simpl; lia.
Qed.

Lemma halted_state (g : RNG) s0 n s :
  run_simulation cfg g = Ok s0 ->
  steps gauss uniform cfg n s0 = Halted s ->
  granted (queue (env s)) = [].
Proof.
  intros Hrun Hs.
  destruct (run_invariant (fun s => horizon_ok cfg s /\ clock_ok s)
              (fun s => granted (queue (env s)) = [])) with (n := n) (s0 := s0) (s := s)
    as [_ H]; [| | |auto].
  - intros s1 e q s' [H1 H2] Hpop Hk Hh. split.
    + eapply horizon_ok_preserved; eauto.
    + eapply clock_ok_preserved; eauto.
  - intros s1 e q [H1 H2] Hpop Hk. simpl. eapply halted_no_grant; eauto.
  - split; [eapply horizon_ok_start; eauto|].
    apply run_simulation_start in Hrun. tauto.
Qed.

(** ** Passenger counts *)

Lemma passengers_ok_preserved s k s' :
  passengers_ok cfg s ->
  handle gauss uniform cfg s k = Ok s' ->
  passengers_ok cfg s'.
Proof.
  intros [Ht Hs] Hh. unfold passengers_ok.
  destruct k; sim_unfold Hh; sim_cases; try arrive_frame; simpl.
  all: try (split; assumption).
  all: repeat match goal with
       | H : <[_:=_]> _ !! _ = Some _ |- _ =>
           rewrite lookup_insert_eq in H; injection H as <-
       end.
  all: try (specialize (Hpass (proj2 (map_Forall_lookup_1 _ _ _ _ Ht Htram))
                          (proj2 (map_Forall_lookup_1 _ _ _ _ Hs Hstop))
                          (proj1 (map_Forall_lookup_1 _ _ _ _ Hs Hstop)))).
  all: split; repeat (apply map_Forall_insert_2; [simpl|]); try assumption.
  all: try match goal with
       | H : _ !! _ = Some ?t |- _ /\ _ <= passengers ?t <= _ =>
           exact (map_Forall_lookup_1 _ _ _ _ Ht H)
       end.
  - split; [|tauto]. rewrite Hcap.
    exact (proj1 (map_Forall_lookup_1 _ _ _ _ Ht Htram)).
  - split; [|tauto]. exact (proj1 (map_Forall_lookup_1 _ _ _ _ Hs Hstop)).
Qed.

Lemma setup_stops_ok :
  map_Forall (fun i st => 1 <= i <= stop_number cfg /\ 0 <= waiting_passengers st)
    (setup_stops cfg).
Proof.
  unfold setup_stops.
  assert (H : forall l (m : gmap Z Stop),
            Forall (fun i => 1 <= i <= stop_number cfg) l ->
            map_Forall (fun i st => 1 <= i <= stop_number cfg /\
                                    0 <= waiting_passengers st) m ->
            map_Forall (fun i st => 1 <= i <= stop_number cfg /\
                                    0 <= waiting_passengers st)
              (fold_left (fun m i => <[i := new_Stop i]> m) l m)).
  { induction l as [|i l IH]; intros m Hl Hm; simpl; [done|].
    apply Forall_cons in Hl as [Hi Hl]. apply IH; [done|].
    apply map_Forall_insert_2; [|done]. simpl. lia. }
  apply H; [|apply map_Forall_empty].
  apply Forall_forall. intros i Hi%elem_of_seqZ. lia.
Qed.

Lemma passengers_ok_start (g : RNG) s0 :
  0 <= tram_capacity cfg ->
  run_simulation cfg g = Ok s0 -> passengers_ok cfg s0.
Proof.
  intros Hc. unfold run_simulation. destruct (Qle_bool _ _); [done|].
  intros [= <-]. unfold passengers_ok. cbn. split; [|apply setup_stops_ok].
  repeat (apply map_Forall_insert_2; [simpl; lia|]). apply map_Forall_empty.
Qed.

Lemma passengers_ok_reachable (g : RNG) s :
  0 <= tram_capacity cfg ->
  reachable gauss uniform cfg g s -> passengers_ok cfg s.
Proof.
  intros Hc. apply reachable_invariant.
  - intros s0. now apply passengers_ok_start.
  - intros s1 e q s' H _ Hh. eapply passengers_ok_preserved; [|exact Hh]. exact H.
Qed.

(** ** The trip counter *)

Lemma sum_list_with_insert {A} (h : A -> nat) (l : list A) (i : nat) (x y : A) :
  l !! i = Some x ->
  (sum_list_with h (<[i := y]> l) + h x = sum_list_with h l + h y)%nat.
Proof.
  intros Hi. rewrite <- (take_drop_middle l i x Hi) at 2.
  rewrite (insert_take_drop l i y) by (eapply lookup_lt_Some; eauto).
  rewrite !sum_list_with_app. simpl. lia.
Qed.

Lemma launched_insert_same (ps : list TripFrame) (p : nat) (f f' : TripFrame) (t : Z) :
  ps !! p = Some f -> trip_tram f' = trip_tram f ->
  trip_pc f <> TripCreated -> trip_pc f' <> TripCreated ->
  launched (<[p := f']> ps) t = launched ps t.
Proof.
  intros Hp Ht Hf Hf'. unfold launched.
  pose proof (sum_list_with_insert (launch_weight t) ps p f f' Hp) as H.
  unfold launch_weight in H. rewrite Ht in H.
  repeat case_decide; try tauto; unfold launch_weight in *; lia.
Qed.

Lemma launched_insert_start (ps : list TripFrame) (p : nat) (f f' : TripFrame) (t : Z) :
  ps !! p = Some f -> trip_tram f' = trip_tram f ->
  trip_pc f = TripCreated -> trip_pc f' <> TripCreated ->
  launched (<[p := f']> ps) t
  = (launched ps t + if decide (trip_tram f = t) then 1 else 0)%nat.
Proof.
  intros Hp Ht Hf Hf'. unfold launched.
  pose proof (sum_list_with_insert (launch_weight t) ps p f f' Hp) as H.
  unfold launch_weight in H. rewrite Ht, Hf in H.
  repeat case_decide; try tauto; unfold launch_weight in *; lia.
Qed.

Lemma launched_snoc_created (ps : list TripFrame) (tram t : Z) (d : Direction) (i : nat) :
  launched (ps ++ [mkTripFrame tram d i TripCreated]) t = launched ps t.
Proof.
  unfold launched. rewrite sum_list_with_app. simpl.
  case_decide; [tauto|lia].
Qed.

Lemma trips_ok_preserved s k s' :
  trips_ok s ->
  handle gauss uniform cfg s k = Ok s' ->
  trips_ok s'.
Proof.
  intros Ht Hh. unfold trips_ok in *.
  destruct k; sim_unfold Hh; sim_cases; try arrive_frame; simpl in *.
  all: try assumption.
  all: repeat match goal with
       | H : <[_:=_]> _ !! _ = Some _ |- _ =>
           rewrite lookup_insert_eq in H; injection H as <-
       end.
  all: apply map_Forall_lookup_2; intros k tr Hl.
  all: rewrite ?launched_snoc_created.
  all: try match goal with
       | Hp : processes _ !! ?p = Some ?f, Hpc : trip_pc ?f = _
         |- context [launched (<[?p := ?f']> _) _] =>
           first [ rewrite (launched_insert_same _ p f f' _ Hp)
                     by (simpl; congruence)
                 | rewrite (launched_insert_start _ p f f' _ Hp)
                     by (simpl; congruence) ]
       end.
  all: repeat (rewrite lookup_insert in Hl; case_decide;
               [subst; injection Hl as <-; simpl|]).
  all: repeat match goal with
       | H : _ !! _ = Some _ |- _ =>
           apply (map_Forall_lookup_1 _ _ _ _ Ht) in H; simpl in H
       end.
  all: repeat case_decide; try congruence; try lia.
Qed.

Lemma trips_ok_start (g : RNG) s0 :
  run_simulation cfg g = Ok s0 -> trips_ok s0.
Proof.
  unfold run_simulation. destruct (Qle_bool _ _); [done|].
  intros [= <-]. unfold trips_ok. cbn.
  repeat (apply map_Forall_insert_2; [reflexivity|]). apply map_Forall_empty.
Qed.

Lemma trips_ok_reachable (g : RNG) s :
  reachable gauss uniform cfg g s -> trips_ok s.
Proof.
  apply reachable_invariant.
  - intros s0. now apply trips_ok_start.
  - intros s1 e q s' H _ Hh. eapply trips_ok_preserved; [|exact Hh]. exact H.
Qed.

Lemma launched_split (ps : list TripFrame) (t : Z) :
  launched ps t = (completed ps t + under_way ps t)%nat.
Proof.
  unfold launched, completed, under_way.
  induction ps as [|f ps IH]; [done|]. simpl. rewrite IH.
  destruct (trip_pc f) eqn:E; simpl; repeat case_decide; try lia.
  all: try (exfalso; intuition congruence).
Qed.

Lemma under_way_on_trip (ps : list TripFrame) (t : Z) :
  (under_way ps t <= length (filter (fun x => x = t) (on_trip ps)))%nat.
Proof.
  unfold under_way, on_trip.
  induction ps as [|f ps IH]; [done|]. simpl.
  rewrite filter_app, length_app. unfold holds at 1.
  case_decide as H.
  - destruct H as (Ht & _ & Hf). rewrite Hf. simpl.
    rewrite filter_cons_True by done. simpl. apply le_n_S. exact IH.
  - destruct (in_flight (trip_pc f)); simpl; [|exact IH].
    rewrite filter_cons. case_decide; simpl; [apply le_S|]; exact IH.
Qed.

Lemma filter_eq_not_in (l : list Z) (t : Z) :
  t ∉ l -> filter (fun x => x = t) l = [].
Proof.
  induction l as [|x l IH]; [done|]. intros [Hx Hl]%not_elem_of_cons.
  rewrite filter_cons. case_decide; [congruence|]. now apply IH.
Qed.

Lemma NoDup_filter_eq (l : list Z) (t : Z) :
  NoDup l -> (length (filter (fun x => x = t) l) <= 1)%nat.
Proof.
  induction 1 as [|x l Hx Hl IH]; [simpl; lia|].
  rewrite filter_cons. case_decide as E; [|done]. subst. simpl.
  rewrite filter_eq_not_in by done. simpl. lia.
Qed.

(** What a callback does to the process table and to the pool: a trip
    process that stops holding its tram has finished the backward leg and
    has put the tram at the back of the pool. *)
Lemma release_on_completion s k s' p f f' :
  handle gauss uniform cfg s k = Ok s' ->
  processes s !! p = Some f -> processes s' !! p = Some f' ->
  in_flight (trip_pc f) = true -> in_flight (trip_pc f') = false ->
  trip_pc f' = Releasing /\ trip_direction f' = backward /\
  stops_sequence cfg backward !! trip_i f' = None /\
  trip_tram f' = trip_tram f /\
  items (available_trams s') = items (available_trams s) ++ [trip_tram f].
Proof.
  intros Hh Hp Hp' Hf Hf'.
  destruct k; sim_unfold Hh; sim_cases; try arrive_frame; simpl in *.
  all: try (rewrite Hp in Hp'; injection Hp' as <-; congruence).
  all: try (rewrite lookup_app_l in Hp' by (eapply lookup_lt_Some; eauto);
            rewrite Hp in Hp'; injection Hp' as <-; congruence).
  all: match goal with
       | H : <[?p0 := _]> _ !! ?p1 = Some _ |- _ =>
           destruct (decide (p0 = p1)) as [->|Hne];
           [rewrite list_lookup_insert_eq in H by (eapply lookup_lt_Some; eauto);
            injection H as <-
           |rewrite list_lookup_insert_ne in H by done;
            rewrite Hp in H; injection H as <-; congruence]
       end.
  all: simpl in *; try discriminate.
  all: repeat match goal with
       | H1 : ?x = Some _, H2 : ?x = Some _ |- _ =>
           rewrite H1 in H2; injection H2 as <-
       end.
  all: try congruence.
  all: try match goal with
       | H : trip_pc ?t = _, Hf : in_flight (trip_pc ?t) = true |- _ =>
           rewrite H in Hf; discriminate
       end.
  all: repeat split; assumption.
Qed.

(** ** The headway of the dispatcher *)

Lemma headway_ok_preserved s e q s' :
  headway_ok cfg s -> clock_ok s ->
  pop_min (queue (env s)) = Some (e, q) ->
  handle gauss uniform cfg (pop_event s e q) (ev_kind e) = Ok s' ->
  headway_ok cfg s'.
Proof.
  unfold headway_ok, clock_ok. intros [Hle Hinv] Hc Hpop Hh.
  rewrite (pop_min_perm _ _ _ Hpop), granted_cons in Hinv.
  rewrite (pop_min_perm _ _ _ Hpop) in Hc.
  apply Forall_cons in Hc as [[Hnow _] _].
  destruct (ev_kind e) eqn:Hk; sim_unfold Hh; sim_cases; try arrive_frame;
    simpl in *.
  all: rewrite ?granted_snoc, ?granted_cons, ?length_app; simpl.
  all: split; [lra|]; try (intros _; assumption).
  all: repeat match goal with
       | H : get_queue _ = _ |- _ =>
           try rewrite H in Hinv; try rewrite H; simpl in Hinv |- *; clear H
       | H : get_queue _ ++ _ = _ |- _ =>
           apply (f_equal length) in H; rewrite length_app in H; simpl in H
       end.
  all: intros Hpre; apply Hinv; lia.
Qed.

Lemma headway_ok_start (g : RNG) s0 :
  run_simulation cfg g = Ok s0 -> headway_ok cfg s0.
Proof.
  unfold run_simulation. destruct (Qle_bool _ _); [done|].
  intros [= <-]. unfold headway_ok. cbn. split; [lra|lia].
Qed.

Lemma headway_ok_reachable (g : RNG) s :
  reachable gauss uniform cfg g s -> headway_ok cfg s /\ clock_ok s.
Proof.
  apply (reachable_invariant (fun s => headway_ok cfg s /\ clock_ok s) g).
  - intros s0 H. split; [now apply (headway_ok_start g)|].
    apply run_simulation_start in H. tauto.
  - intros s1 e q s' [H1 H2] Hpop Hh. split.
    + eapply headway_ok_preserved; eauto.
    + eapply clock_ok_preserved; eauto.
Qed.

(** ** Processes and the entries that resume them *)

Lemma awaited_insert (ps : list TripFrame) (p : nat) (f : TripFrame) (e : Event) :
  event_pid e <> Some p ->
  awaited cfg ps (ev_kind e) -> awaited cfg (<[p := f]> ps) (ev_kind e).
Proof.
  unfold event_pid, awaited. destruct (ev_kind e); try done;
    intros Hne (f0 & Hf0 & H); exists f0;
    (split; [rewrite list_lookup_insert_ne by congruence; exact Hf0 | exact H]).
Qed.

Lemma awaited_snoc (ps : list TripFrame) (f : TripFrame) (k : EventKind) :
  awaited cfg ps k -> awaited cfg (ps ++ [f]) k.
Proof.
  unfold awaited. destruct k; try done;
    intros (f0 & Hf0 & H); exists f0;
    (split; [rewrite lookup_app_l by (eapply lookup_lt_Some; eauto); exact Hf0
            | exact H]).
Qed.

Lemma awaited_lt (ps : list TripFrame) (e : Event) (p : nat) :
  awaited cfg ps (ev_kind e) -> event_pid e = Some p -> (p < length ps)%nat.
Proof.
  unfold event_pid, awaited. destruct (ev_kind e); try done;
    intros (f0 & Hf0 & _) [= <-]; eapply lookup_lt_Some; eauto.
Qed.

Lemma handle_tables s k s' :
  handle gauss uniform cfg s k = Ok s' ->
  (forall t, is_Some (trams s !! t) -> is_Some (trams s' !! t)) /\
  (forall i, is_Some (stops s !! i) -> is_Some (stops s' !! i)).
Proof.
  intros Hh. destruct k; sim_unfold Hh; sim_cases; try arrive_frame; simpl.
  all: split; intros x Hx; rewrite ?lookup_insert_is_Some'; auto.
Qed.

Lemma old_awaited_insert (ps : list TripFrame) (p : nat) (f : TripFrame)
    (q : list Event) :
  NoDup (p :: omap event_pid q) ->
  Forall (fun e => awaited cfg ps (ev_kind e)) q ->
  Forall (fun e => awaited cfg (<[p := f]> ps) (ev_kind e)) q.
Proof.
  intros [Hp _]%NoDup_cons Hall. apply Forall_forall. intros e He.
  rewrite Forall_forall in Hall. apply awaited_insert; [|auto].
  intros Hpid. apply Hp. apply list_elem_of_omap. eauto.
Qed.

Lemma old_awaited_snoc (ps : list TripFrame) (f : TripFrame) (q : list Event) :
  Forall (fun e => awaited cfg ps (ev_kind e)) q ->
  Forall (fun e => awaited cfg (ps ++ [f]) (ev_kind e)) q.
Proof. intros H. eapply Forall_impl; [exact H|]. intros e. apply awaited_snoc. Qed.

Lemma NoDup_snoc_cons (p : nat) (l : list nat) : NoDup (p :: l) -> NoDup (l ++ [p]).
Proof. intros H. now rewrite <- Permutation_cons_append. Qed.

Lemma NoDup_snoc_fresh (ps : list TripFrame) (q : list Event) :
  Forall (fun e => awaited cfg ps (ev_kind e)) q ->
  NoDup (omap event_pid q) ->
  NoDup (omap event_pid q ++ [length ps]).
Proof.
  intros Hall Hnd. apply NoDup_snoc_cons. apply NoDup_cons. split; [|done].
  intros (e & He & Hpid)%list_elem_of_omap.
  rewrite Forall_forall in Hall.
  pose proof (awaited_lt _ _ _ (Hall e He) Hpid). lia.
Qed.

Lemma Forall_trams_insert (ps : list TripFrame) (p : nat) (f f' : TripFrame)
    (m : gmap Z Tram) :
  ps !! p = Some f -> trip_tram f' = trip_tram f ->
  Forall (fun f => is_Some (m !! trip_tram f)) ps ->
  Forall (fun f => is_Some (m !! trip_tram f)) (<[p := f']> ps).
Proof.
  intros Hp Ht Hall. apply Forall_insert; [done|]. rewrite Ht.
  exact (Forall_lookup_1 _ _ _ _ Hall Hp).
Qed.

Lemma frames_ok_preserved s e q s' :
  frames_ok cfg s -> held s ≡ₚ seqZ 1 8 ->
  pop_min (queue (env s)) = Some (e, q) ->
  handle gauss uniform cfg (pop_event s e q) (ev_kind e) = Ok s' ->
  frames_ok cfg s'.
Proof.
  intros (Haw & Hnd & Hfr & Hfl & Hst) Hheld Hpop Hh.
  destruct (handle_tables _ _ _ Hh) as [Htr Hsp]. simpl in Htr, Hsp.
  unfold frames_ok.
  assert (Hfl' : Forall (fun t => is_Some (trams s' !! t)) (seqZ 1 8)).
  { eapply Forall_impl; [exact Hfl|]. auto. }
  assert (Hst' : forall i, 1 <= i <= stop_number cfg -> is_Some (stops s' !! i)) by auto.
  assert (Hfr0 : Forall (fun f => is_Some (trams s' !! trip_tram f)) (processes s)).
  { eapply Forall_impl; [exact Hfr|]. auto. }
  cut (Forall (fun e => awaited cfg (processes s') (ev_kind e)) (queue (env s')) /\
       NoDup (omap event_pid (queue (env s'))) /\
       Forall (fun f => is_Some (trams s' !! trip_tram f)) (processes s')); [tauto|].
  clear Hst' Hst Hsp Htr Hfr.
  unfold held in Hheld.
  rewrite (pop_min_perm _ _ _ Hpop) in Haw, Hnd, Hheld.
  apply Forall_cons in Haw as [Hawe Haw].
  rewrite granted_cons in Hheld.
  simpl in Hnd. unfold event_pid in Hnd at 1.
  destruct (ev_kind e) eqn:Hk; sim_unfold Hh; sim_cases; try arrive_frame;
    simpl in *.
  all: rewrite ?omap_app; simpl; rewrite ?app_nil_r.
  all: try destruct Hawe as (f0 & Hf0 & Hpc0).
  all: try match goal with
       | H : processes _ !! _ = Some _ |- _ =>
           rewrite H in Hf0; injection Hf0 as <-
       end.
  all: split; [|split].
  (* the frames *)
  all: try match goal with
       | |- Forall (fun f => is_Some (_ !! trip_tram f)) (<[_ := _]> _) =>
           eapply Forall_trams_insert; [eassumption|reflexivity|assumption]
       | |- Forall (fun f => is_Some (_ !! trip_tram f)) (processes _) =>
           assumption
       end.
  (* one entry per process *)
  all: try match goal with
       | |- NoDup (omap event_pid _ ++ [length _]) =>
           apply NoDup_snoc_fresh; [assumption|]
       | |- NoDup (omap event_pid _ ++ [_]) =>
           apply NoDup_snoc_cons; assumption
       end.
  all: try match goal with
       | H : NoDup (_ :: ?l) |- NoDup ?l =>
           apply NoDup_cons in H as [_ H]; exact H
       | H : NoDup ?l |- NoDup ?l => exact H
       end.
  all: try assumption.
  all: rewrite <- ?app_assoc.
  all: try (apply Forall_app; split;
            [first [assumption
                   |apply old_awaited_snoc; assumption
                   |apply old_awaited_insert; assumption]|]).
  all: repeat (first [apply Forall_nil_2 | apply Forall_cons_2]); simpl;
    try exact I.
  all: try (eexists; split;
            [first [apply list_lookup_insert_eq; eapply lookup_lt_Some; eassumption
                   |apply list_lookup_middle; reflexivity
                   |eassumption]|]; simpl).
  all: try reflexivity.
  all: try (split; [reflexivity|eapply stops_sequence_range; eassumption]).
  all: try (left; reflexivity).
  all: try (right; split; [reflexivity|eexists; eassumption]).
  all: try tauto.
  rewrite Forall_forall in Hfl'. apply Hfl'. rewrite <- Hheld.
  apply elem_of_app. right. apply elem_of_cons. now left.
Qed.

Lemma setup_stops_lookup (i : Z) :
  1 <= i <= stop_number cfg -> is_Some (setup_stops cfg !! i).
Proof.
  intros Hi. unfold setup_stops.
  assert (H : forall l (m : gmap Z Stop),
            i ∈ l \/ is_Some (m !! i) ->
            is_Some (fold_left (fun m i => <[i := new_Stop i]> m) l m !! i)).
  { induction l as [|x l IH]; intros m [Hin|Hm]; simpl.
    - by apply elem_of_nil in Hin.
    - done.
    - apply IH. apply elem_of_cons in Hin as [->|Hin]; [right|by left].
      rewrite lookup_insert_eq. eauto.
    - apply IH. right. rewrite lookup_insert_is_Some'. auto. }
  apply H. left. apply elem_of_seqZ. lia.
Qed.

Lemma frames_ok_start (g : RNG) s0 :
  run_simulation cfg g = Ok s0 -> frames_ok cfg s0.
Proof.
  unfold run_simulation. destruct (Qle_bool _ _); [done|]. intros [= <-].
  unfold frames_ok. cbn. repeat split.
  - repeat (first [apply Forall_nil_2 | apply Forall_cons_2]); exact I.
  - apply NoDup_nil_2.
  - apply Forall_nil_2.
  - repeat (first [apply Forall_nil_2 | apply Forall_cons_2]);
      eexists; reflexivity.
  - apply setup_stops_lookup.
Qed.

Lemma frames_ok_reachable (g : RNG) s :
  reachable gauss uniform cfg g s -> frames_ok cfg s.
Proof.
  intros Hs.
  cut (frames_ok cfg s /\ (held s ≡ₚ all_trams_created s /\
                           all_trams_created s = seqZ 1 8)); [tauto|].
  revert s Hs. apply reachable_invariant.
  - intros s0 H. split; [now apply (frames_ok_start g)|].
    apply run_simulation_start in H. tauto.
  - intros s1 e q s' [H1 [H2 H3]] Hpop Hh. split.
    + eapply frames_ok_preserved; eauto. now rewrite <- H3.
    + split; [eapply held_preserved; eauto|].
      rewrite <- H3. clear -Hh.
      destruct (ev_kind e); sim_unfold Hh; simpl in *; sim_cases;
        try arrive_frame; reflexivity.
Qed.

Lemma arrive_at_stop_error s p tram_ref stop_id (err : PyError) :
  is_Some (stops s !! stop_id) -> is_Some (trams s !! tram_ref) ->
  1 <= stop_id <= stop_number cfg ->
  arrive_at_stop gauss cfg s p tram_ref stop_id = Raise err ->
  err = NegativeDelay.
Proof.
  intros [stop Hstop] [tram Htram] Hr. unfold arrive_at_stop.
  rewrite Hstop, Htram. simpl.
  destruct (alight_passengers _ _ _ _) as [[alighted tram1]|err'] eqn:Ha; simpl.
  2:{ unfold alight_passengers in Ha.
      destruct (passengers tram =? 0); [done|].
      destruct (Z.eqb_spec (stop_number cfg) 0); [lia|done]. }
  destruct (get_new_passengers _ _ _ _) as [new_passengers g'].
  unfold board_passengers, timeout. simpl.
  destruct (Qle_bool 0 _); [done|]. now intros [= <-].
Qed.

Lemma get_current_interval_error (t : Q) (err : PyError) :
  get_current_interval cfg t = Raise err -> err = IndexError.
Proof.
  unfold get_current_interval. destruct (find _ _); [done|].
  destruct (bus_intervals cfg); [|done]. now intros [= <-].
Qed.

Lemma handle_error s e q (err : PyError) :
  frames_ok cfg s ->
  pop_min (queue (env s)) = Some (e, q) ->
  handle gauss uniform cfg (pop_event s e q) (ev_kind e) = Raise err ->
  err = IndexError \/ err = NegativeDelay.
Proof.
  intros (Haw & _ & Hfr & _ & Hst) Hpop Hh.
  rewrite (pop_min_perm _ _ _ Hpop) in Haw.
  apply Forall_cons in Haw as [Hawe _].
  destruct (ev_kind e) eqn:Hk; sim_unfold Hh; sim_cases; simpl in *;
    try discriminate Hh.
  all: try match goal with
       | H : mbind _ (get_current_interval ?c ?t) = Raise _ |- _ =>
           destruct (get_current_interval c t) eqn:Hg; simpl in H;
           [discriminate H
           |injection H as <-; apply get_current_interval_error in Hg;
            left; exact Hg]
       end.
  all: try (injection Hh as <-; right; reflexivity).
  all: try destruct Hawe as (f0 & Hf0 & Hpc0).
  all: try match goal with
       | H : processes _ !! _ = None |- _ => rewrite H in Hf0; discriminate Hf0
       | H : processes _ !! _ = Some _ |- _ =>
           rewrite H in Hf0; injection Hf0 as <-
       end.
  all: try (exfalso; intuition congruence).
  all: try match goal with
       | H : <[_ := _]> _ !! _ = None |- _ =>
           rewrite lookup_insert_eq in H; discriminate H
       end.
  all: try match goal with
       | Hp : processes _ !! _ = Some ?t, H : trams _ !! trip_tram ?t = None |- _ =>
           destruct (Forall_lookup_1 _ _ _ _ Hfr Hp) as [? Hsome];
           rewrite H in Hsome; discriminate Hsome
       end.
  all: try match goal with
       | H : arrive_at_stop _ _ _ _ _ _ = Raise _ |- _ =>
           right; revert H; apply arrive_at_stop_error;
           [apply Hst; tauto
           |eapply (Forall_lookup_1 _ _ _ _ Hfr); eassumption
           |tauto]
       end.
  destruct Hpc0 as [Hpc0|[_ [x Hx]]]; congruence.
Qed.

(** A run can only fail on an empty headway table or on a negative delay:
    the two lookups that cannot fail in Python because they follow an
    object reference, and the resumption of a generator by an event it is
    not waiting for, never fail in the model either; no stop is missing and
    no division is by zero. *)
Lemma run_errors (g : RNG) s0 (n : nat) (err : PyError) :
  run_simulation cfg g = Ok s0 ->
  steps gauss uniform cfg n s0 = Crashed err ->
  err = IndexError \/ err = NegativeDelay.
Proof.
  intros Hrun Hcrash.
  apply steps_Crashed in Hcrash as (m & s & Hm & Hs).
  apply step_Crashed in Hs as (e & q & Hpop & Hh).
  assert (Hreach : reachable gauss uniform cfg g s) by (exists s0, m; auto).
  eapply handle_error; eauto. now apply (frames_ok_reachable g).
Qed.

(** ** Delays *)

Lemma calculate_travel_time_nonneg (distance : Q) (hour : Z) (g : RNG) :
  (0 <= acceleration_time cfg)%Q ->
  (0 <= (calculate_travel_time uniform cfg distance hour g).1)%Q.
Proof.
  intros Hacc. unfold calculate_travel_time.
  destruct (Qle_bool distance 0) eqn:E; [simpl; lra|].
  apply not_true_iff_false in E. rewrite Qle_bool_iff in E.
  destruct (uniform g _ _) as [jitter g']. simpl.
  assert (H : (0 <= distance / 1000 * (60 / actual_speed cfg hour jitter))%Q).
  { apply Qmult_le_0_compat.
    - apply Qdiv_nonneg; lra.
    - apply Qdiv_nonneg; [lra|]. unfold actual_speed.
      pose proof (Qmax_5_pos (flow_speed cfg *
        (1 - default 0.5 (road_loads cfg !! hour)) * jitter))%Q. lra. }
  lra.
Qed.

Lemma get_current_interval_nonneg (t iv : Q) :
  Forall (fun r : Z * Q => (0 <= r.2)%Q) (bus_intervals cfg) ->
  get_current_interval cfg t = Ok iv -> (0 <= iv)%Q.
Proof.
  intros Hall. unfold get_current_interval.
  destruct (find _ _) as [r|] eqn:E.
  - intros [= <-]. apply find_some in E as [Hin _].
    rewrite Forall_forall in Hall. apply Hall.
    apply list_elem_of_In. apply in_rev. exact Hin.
  - destruct (bus_intervals cfg) as [|r l]; [done|]. intros [= <-].
    now apply Forall_cons in Hall as [H _].
Qed.

Lemma arrive_at_stop_delay s p tram_ref stop_id :
  (0 <= stop_time cfg)%Q ->
  passengers_ok cfg s ->
  arrive_at_stop gauss cfg s p tram_ref stop_id <> Raise NegativeDelay.
Proof.
  intros Hst [Ht Hs]. unfold arrive_at_stop.
  destruct (stops s !! stop_id) as [stop|] eqn:Hstop; [simpl|done].
  destruct (trams s !! tram_ref) as [tram|] eqn:Htram; [|done].
  destruct (map_Forall_lookup_1 _ _ _ _ Ht Htram) as [_ Hp].
  destruct (map_Forall_lookup_1 _ _ _ _ Hs Hstop) as [Hr Hw].
  destruct (alight_passengers _ _ _ _) as [[alighted tram1]|err] eqn:Ha; simpl.
  2:{ unfold alight_passengers in Ha.
      destruct (passengers tram =? 0); [done|].
      destruct (stop_number cfg =? 0); [|done]. now injection Ha as <-. }
  destruct (get_new_passengers _ _ _ _) as [new_passengers g'] eqn:Hn.
  assert (Hnew : 0 <= new_passengers).
  { unfold get_new_passengers in Hn.
    destruct (Qle_bool _ 0); [injection Hn as <- _; lia|].
    destruct (Qle_bool _ 0); [injection Hn as <- _; lia|].
    destruct (gauss _ _). injection Hn as <- _. lia. }
  destruct (alight_passengers_keeps _ _ _ _ _ _ Ha) as (Hc & _).
  destruct (alight_passengers_bounds _ _ _ _ _ _ (proj1 Hp) Hr Ha)
    as (Hal & Hp1 & _).
  unfold board_passengers, timeout. simpl.
  destruct (Qle_bool 0 _) eqn:E; [done|]. exfalso.
  apply not_true_iff_false in E. apply E. apply Qle_bool_iff.
  assert (H : (0 <= inject_Z ((waiting_passengers stop + new_passengers)
                               `min` free_seats tram1 + alighted))%Q).
  { apply inject_Z_nonneg. unfold free_seats. lia. }
  nra.
Qed.

Lemma interval_ok_preserved s k s' :
  Forall (fun r : Z * Q => (0 <= r.2)%Q) (bus_intervals cfg) ->
  interval_ok s ->
  handle gauss uniform cfg s k = Ok s' ->
  interval_ok s'.
Proof.
  unfold interval_ok. intros Hall Hi Hh.
  destruct k; sim_unfold Hh; sim_cases; try arrive_frame; simpl in *.
  all: try assumption.
  all: eapply get_current_interval_nonneg; eauto.
Qed.

Lemma handle_delay s k :
  (0 <= acceleration_time cfg)%Q -> (0 <= stop_time cfg)%Q ->
  passengers_ok cfg s -> interval_ok s ->
  handle gauss uniform cfg s k <> Raise NegativeDelay.
Proof.
  intros Hacc Hst Hp Hi Hh. unfold interval_ok in Hi.
  destruct k; sim_unfold Hh; sim_cases; simpl in *; try discriminate Hh.
  all: try match goal with
       | H : arrive_at_stop _ _ _ _ _ _ = Raise _ |- _ =>
           revert H; apply arrive_at_stop_delay; assumption
       end.
  all: try match goal with
       | H : Qle_bool 0 2 = false |- _ => vm_compute in H; discriminate H
       end.
  all: try match goal with
       | H : mbind _ (get_current_interval ?c ?t) = Raise _ |- _ =>
           destruct (get_current_interval c t) eqn:Hg; simpl in H;
           [discriminate H
           |injection H as ->; apply get_current_interval_error in Hg;
            discriminate Hg]
       end.
  all: match goal with
       | H : Qle_bool 0 _ = false |- _ =>
           apply not_true_iff_false in H; apply H; apply Qle_bool_iff
       end.
  all: try assumption.
  all: match goal with
       | H : calculate_travel_time _ _ ?d ?h ?g = _ |- _ =>
           pose proof (calculate_travel_time_nonneg d h g Hacc) as Hnn;
           rewrite H in Hnn; exact Hnn
       end.
Qed.

(** C9 (as amended).  When [acceleration_time], the dwell constant
    [stop_time], every headway interval and the tram capacity are not
    negative, every delay the simulation schedules (travel time, dwell time,
    headway wait, turnaround pause) is non-negative: no step of a run raises
    the negative-delay error of [timeout]. *)
Theorem no_negative_delay (g : RNG) s0 (n : nat) :
  (0 <= acceleration_time cfg)%Q ->
  (0 <= stop_time cfg)%Q ->
  Forall (fun r : Z * Q => (0 <= r.2)%Q) (bus_intervals cfg) ->
  0 <= tram_capacity cfg ->
  run_simulation cfg g = Ok s0 ->
  steps gauss uniform cfg n s0 <> Crashed NegativeDelay.
Proof.
  intros Hacc Hst Hiv Hcap Hrun Hcrash.
  apply steps_Crashed in Hcrash as (m & s & Hm & Hs).
  apply step_Crashed in Hs as (e & q & Hpop & Hh).
  assert (Hreach : reachable gauss uniform cfg g s) by (exists s0, m; auto).
  pose proof (passengers_ok_reachable g s Hcap Hreach) as Hp.
  assert (Hi : interval_ok s).
  { revert Hreach. apply reachable_invariant.
    - intros s1. unfold run_simulation. destruct (Qle_bool _ _); [done|].
      intros [= <-]. unfold interval_ok. cbn. lra.
    - intros s1 e1 q1 s' H1 _ H2. eapply interval_ok_preserved; [done| |exact H2].
      exact H1. }
  revert Hh. apply handle_delay; assumption.
Qed.

(** C1.  At every state of a run the trams in the available-trams pool
    together with the trams checked out of it are exactly the fleet created
    at setup, trams 1 to 8, each once: no tram is duplicated or lost, and
    [|pool| + |checked out| = 8].  The trams checked out are those held by
    the trip processes that have not yet put their tram back, and at most
    one tram that the pool has granted to the dispatcher and whose trip
    process is created when the grant is delivered.  The grant is delivered
    at the virtual instant it is made: whenever the clock is about to
    advance, and in the state in which [run] returns, no grant is pending
    and the trams checked out are exactly those of the in-flight trip
    processes.  (No process of the program is ever interrupted.) *)
Theorem fleet_conserved (g : RNG) s :
  reachable gauss uniform cfg g s ->
  let pool := items (available_trams s) in
  let in_flight := on_trip (processes s) in
  pool ++ checked_out s ≡ₚ seqZ 1 8 /\
  NoDup (pool ++ checked_out s) /\
  (length pool + length (checked_out s) = 8)%nat /\
  (length (granted (queue (env s))) <= 1)%nat /\
  (forall e q,
     pop_min (queue (env s)) = Some (e, q) -> (now (env s) < ev_at e)%Q ->
     checked_out s = in_flight /\ pool ++ in_flight ≡ₚ seqZ 1 8 /\
     (length pool + length in_flight = 8)%nat) /\
  ((exists s0 n, run_simulation cfg g = Ok s0 /\
                 steps gauss uniform cfg n s0 = Halted s) ->
     checked_out s = in_flight /\ pool ++ in_flight ≡ₚ seqZ 1 8 /\
     (length pool + length in_flight = 8)%nat).
Proof.
  intros Hs. cbv zeta.
  destruct (fleet_accounting g s Hs) as [[Hperm Hfleet] [Hclock Hgen]].
  rewrite Hfleet in Hperm.
  assert (Hlen : (length (items (available_trams s)) + length (checked_out s) = 8)%nat).
  { rewrite <- length_app, Hperm. reflexivity. }
  assert (Hquiet : granted (queue (env s)) = [] ->
            checked_out s = on_trip (processes s) /\
            items (available_trams s) ++ on_trip (processes s) ≡ₚ seqZ 1 8 /\
            (length (items (available_trams s)) +
             length (on_trip (processes s)) = 8)%nat).
  { intros Hg. unfold checked_out in *. rewrite Hg in *. simpl in *. auto. }
  split; [exact Hperm|]. split; [|split; [exact Hlen|split; [|split]]].
  - rewrite Hperm. apply NoDup_seqZ.
  - pose proof (granted_length (queue (env s))). unfold generator_ok in Hgen. lia.
  - intros e q Hpop Hlt. apply Hquiet. eapply clock_advance_no_grant; eauto.
  - intros (s0 & n & Hrun & Hhalt). apply Hquiet. eapply halted_state; eauto.
Qed.

(** C2.  When the configured tram capacity is positive, every tram of
    every state of a run has that capacity and carries between 0 and
    [capacity] passengers.  In particular [board_passengers] never raises
    the count above the capacity, and [alight_passengers] never makes it
    negative. *)
Theorem passengers_within_capacity (g : RNG) s :
  0 < tram_capacity cfg ->
  reachable gauss uniform cfg g s ->
  (forall t tr, trams s !! t = Some tr ->
     0 < capacity tr /\ 0 <= passengers tr <= capacity tr) /\
  (forall (t : Tram) (waiting : Z),
     passengers t <= capacity t ->
     passengers (board_passengers t waiting).2 <= capacity t) /\
  (forall (t t' : Tram) (stop_id total_stops peak a : Z),
     0 <= passengers t ->
     alight_passengers t stop_id total_stops peak = Ok (a, t') ->
     0 <= passengers t').
Proof.
  intros Hc Hs. split; [|split].
  - intros t tr Ht.
    destruct (passengers_ok_reachable g s (Z.lt_le_incl _ _ Hc) Hs) as [Hall _].
    destruct (map_Forall_lookup_1 _ _ _ _ Hall Ht) as [Hcap Hp]. lia.
  - intros t waiting Hp. now apply board_passengers_bounds.
  - intros t t' stop_id total_stops peak a Hp Ha.
    eapply alight_passengers_not_negative; eauto.
Qed.

(** C5 (as amended).  The trip counter of a tram is incremented exactly
    once per trip process, and the increment takes effect when the trip
    process starts, before the first stop of the outbound leg: at every
    state of a run the counter of a tram equals the number of trip processes
    launched for it, that is the number of outbound+inbound cycles it has
    completed plus one if a trip is under way (so a trip still in progress,
    or frozen at the horizon, has already increased the counter).  The tram
    is released when both legs are completed: the step in which a trip
    process stops holding its tram is the one that ends the inbound leg, and
    it appends the tram to the pool. *)
Theorem trip_counter_counts_launches (g : RNG) s :
  reachable gauss uniform cfg g s ->
  (forall t tr, trams s !! t = Some tr ->
     total_trips (stats tr) = Z.of_nat (launched (processes s) t) /\
     launched (processes s) t
     = (completed (processes s) t + under_way (processes s) t)%nat /\
     (under_way (processes s) t <= 1)%nat) /\
  (forall s' p f f',
     step gauss uniform cfg s = Running s' ->
     processes s !! p = Some f -> processes s' !! p = Some f' ->
     in_flight (trip_pc f) = true -> in_flight (trip_pc f') = false ->
     trip_direction f' = backward /\
     stops_sequence cfg backward !! trip_i f' = None /\
     trip_tram f' = trip_tram f /\
     items (available_trams s') = items (available_trams s) ++ [trip_tram f]).
Proof.
  intros Hs. split.
  - intros t tr Ht. split; [|split].
    + exact (map_Forall_lookup_1 _ _ _ _ (trips_ok_reachable g s Hs) Ht).
    + apply launched_split.
    + destruct (fleet_accounting g s Hs) as [[Hperm Hfleet] _].
      assert (Hnd : NoDup (on_trip (processes s))).
      { assert (H : NoDup (held s)).
        { rewrite Hperm, Hfleet. apply NoDup_seqZ. }
        unfold held in H. apply NoDup_app in H as (_ & _ & H).
        now apply NoDup_app in H as (_ & _ & H). }
      etrans; [apply under_way_on_trip|]. now apply NoDup_filter_eq.
  - intros s' p f f' Hstep Hp Hp' Hf Hf'.
    apply step_Running in Hstep as (e & q & Hpop & _ & Hh).
    destruct (release_on_completion _ _ _ p f f' Hh Hp Hp' Hf Hf')
      as (_ & H1 & H2 & H3 & H4). auto.
Qed.

(** C6 (as amended).  In every dispatcher iteration the headway used to
    delay the next launch is resolved from the clock at the instant at which
    the iteration begins and the tram is requested, before the acquisition.
    If a tram is available at that instant, the acquisition completes at the
    same virtual instant.  If the pool is empty the dispatcher is suspended,
    and when the acquisition completes, possibly in a later hour, the delay
    scheduled after the launch is still the headway of the hour of the
    request. *)
Theorem headway_resolved_at_request (g : RNG) s e q s' :
  reachable gauss uniform cfg g s ->
  pop_min (queue (env s)) = Some (e, q) ->
  step gauss uniform cfg s = Running s' ->
  (forall tram, ev_kind e = StoreGet tram ->
     (request_time (generator s) <= ev_at e)%Q /\
     get_current_interval cfg (request_time (generator s))
     = Ok (interval (generator s)) /\
     exists ev, ev ∈ queue (env s') /\ ev_kind ev = GeneratorTimeout /\
                (ev_at ev == ev_at e + interval (generator s))%Q) /\
  (ev_kind e = InitializeGenerator \/ ev_kind e = GeneratorTimeout ->
     request_time (generator s') = ev_at e /\
     get_current_interval cfg (ev_at e) = Ok (interval (generator s')) /\
     (forall tram rest,
        items (available_trams s) = tram :: rest ->
        exists ev, ev ∈ queue (env s') /\ ev_kind ev = StoreGet tram /\
                   (ev_at ev == ev_at e)%Q) /\
     (items (available_trams s) = [] ->
        get_queue (available_trams s') = [dispatcher] /\
        granted (queue (env s')) = granted q)).
Proof.
  intros Hs Hpop Hstep.
  destruct (headway_ok_reachable g s Hs) as [[Hle Hhw] Hclock].
  destruct (fleet_accounting g s Hs) as (_ & _ & Hgen).
  apply step_Running in Hstep as (e' & q' & Hpop' & _ & Hh).
  rewrite Hpop in Hpop'. injection Hpop' as <- <-.
  unfold clock_ok in Hclock. unfold generator_ok, generator_tokens in Hgen.
  rewrite (pop_min_perm _ _ _ Hpop) in Hclock, Hgen, Hhw.
  apply Forall_cons in Hclock as [[Hnow _] _].
  rewrite granted_cons in Hhw. simpl in Hgen. unfold generator_token in Hgen at 1.
  split.
  - intros tram Hk. rewrite Hk in *. simpl in Hhw.
    split; [lra|]. split; [apply Hhw; lia|].
    sim_unfold Hh. sim_cases. simpl.
    eexists. split.
    { apply elem_of_app. right. apply list_elem_of_singleton. reflexivity. }
    split; [reflexivity|]. simpl. apply Qred_correct.
  - assert (Hq : ev_kind e = InitializeGenerator \/ ev_kind e = GeneratorTimeout ->
                 get_queue (available_trams s) = []).
    { intros [Hk|Hk]; rewrite Hk in Hgen;
        destruct (get_queue (available_trams s)); simpl in *; [done|lia|done|lia]. }
    intros Hk'. specialize (Hq Hk').
    destruct Hk' as [Hk|Hk]; rewrite Hk in *; sim_unfold Hh; rewrite Hq in Hh;
      sim_cases; simpl.
    all: repeat match goal with
         | H : get_current_interval _ _ = Ok _ |- _ => rewrite H
         end.
    all: split; [reflexivity|]; split; [reflexivity|].
    all: repeat match goal with H : items _ = _ |- _ => rewrite H end.
    all: split; [intros tram rest [=]|intros [=]]; subst.
    all: rewrite ?granted_snoc; simpl; rewrite ?app_nil_r; try (split; reflexivity).
    all: eexists;
      (split; [apply elem_of_app; right; apply list_elem_of_singleton; reflexivity|]);
      (split; [reflexivity|]); simpl; apply Qred_no_delay.
Qed.

End Run.

(** ** Setup *)

Lemma run_simulation_fleet {RNG : Type} (cfg : Config) (g : RNG) (s0 : @Sim RNG) :
  run_simulation cfg g = Ok s0 ->
  map_Forall (fun _ tr => capacity tr = tram_capacity cfg /\ passengers tr = 0)
    (trams s0) /\
  Forall (fun t => is_Some (trams s0 !! t)) (seqZ 1 8).
Proof.
  unfold run_simulation. destruct (Qle_bool _ _); [done|]. intros [= <-].
  cbn. split.
  - repeat (apply map_Forall_insert_2; [done|]). apply map_Forall_empty.
  - repeat (first [apply Forall_nil_2 | apply Forall_cons_2]);
      eexists; reflexivity.
Qed.

(** C8 (as amended).  [load_config] performs no check on the tram capacity:
    its only failure is a missing key.  A configuration that has all the
    required keys is loaded whatever its capacity, zero and negative values
    included, and setup then creates the fleet of 8 trams with exactly that
    capacity; a tram whose capacity is not positive reports a utilization of
    0. *)
Theorem load_config_accepts_any_capacity (j : ConfigJson) (c : Z) :
  has_required_keys j ->
  json_tram_capacity j = Some c ->
  (forall e, load_config j <> Raise e) /\
  exists cfg,
    load_config j = Ok cfg /\ tram_capacity cfg = c /\
    forall (RNG : Type) (g : RNG) (s0 : @Sim RNG),
      run_simulation cfg g = Ok s0 ->
      Forall (fun t => exists tr, trams s0 !! t = Some tr /\ capacity tr = c /\
                                  (c <= 0 -> utilization tr = 0%Q))
        (seqZ 1 8).
Proof.
  intros ([n Hn] & [d Hd] & [f Hf] & [p Hp] & _ & [h Hh] & [i Hi] & [b Hb] & [r Hr]) Hc.
  assert (Hload : load_config j =
    Ok (mkConfig n (dict_of_items d) f p c h
          (default 0.5%Q (json_acceleration_time j))
          (default 1%Q (json_stop_time j))
          (fold_left add_intensity i ∅) (sorted_by_hour b) (dict_of_items r))).
  { unfold load_config. rewrite Hn, Hd, Hf, Hp, Hc, Hh, Hi, Hb, Hr. reflexivity. }
  split; [intros e; rewrite Hload; discriminate|].
  eexists. split; [exact Hload|]. split; [reflexivity|].
  intros RNG g s0 Hrun.
  destruct (run_simulation_fleet _ g s0 Hrun) as [Hcap Hdom].
  eapply Forall_impl; [exact Hdom|]. intros t [tr Ht].
  exists tr. split; [exact Ht|].
  destruct (map_Forall_lookup_1 _ _ _ _ Hcap Ht) as [Hcap' _]. simpl in Hcap'.
  split; [exact Hcap'|]. intros Hle. unfold utilization.
  destruct (Z.ltb_spec 0 (capacity tr)); [lia|reflexivity].
Qed.

Lemma load_config_accepts_any_capacity_witness :
  exists cfg, load_config (json_two_stops (-5)) = Ok cfg /\ tram_capacity cfg = -5.
Proof.
  destruct (load_config_accepts_any_capacity (json_two_stops (-5)) (-5))
    as (_ & cfg & H1 & H2 & _).
  - unfold has_required_keys. simpl. repeat split; eexists; reflexivity.
  - reflexivity.
  - exists cfg. split; [exact H1 | exact H2].
Defined.

(** C8, as stated, fails: a configuration with tram capacity 0 is loaded
    without error, the fleet is created with capacity 0, and the simulation
    runs. *)
Lemma capacity_zero_counterexample :
  let j := json_two_stops 0 in
  load_config j = Ok (config_of j) /\
  tram_capacity (config_of j) = 0 /\
  run_simulation (config_of j) tt = Ok (example_start j) /\
  capacity <$> (trams (example_start j) !! 1) = Some 0 /\
  example_steps j 40 = Running (example_run j 40) /\
  (0 < now (env (example_run j 40)))%Q.
Proof. intros j. repeat apply conj; vm_compute; reflexivity. Qed.

(** ** Runs *)

Lemma example_run_reachable (j : ConfigJson) (n : nat) :
  run_simulation (config_of j) tt = Ok (example_start j) ->
  example_steps j n = Running (example_run j n) ->
  reachable gauss_mean uniform_one (config_of j) tt (example_run j n).
Proof. intros H1 H2. exists (example_start j), n. split; [exact H1 | left; exact H2]. Defined.

Lemma fleet_conserved_witness :
  let s := example_run (json_two_stops 100) 30 in
  items (available_trams s) ++ checked_out s ≡ₚ seqZ 1 8.
Proof.
  intros s.
  assert (Hs : reachable gauss_mean uniform_one (config_of (json_two_stops 100)) tt s).
  { apply example_run_reachable; vm_compute; reflexivity. }
  pose proof (fleet_conserved gauss_mean uniform_one _ tt s Hs) as W.
  cbv zeta in W. exact (proj1 W).
Defined.

Lemma passengers_within_capacity_witness :
  exists tr,
    trams (example_run json_busy_line 80) !! 5 = Some tr /\
    passengers tr = 50 /\
    0 < capacity tr /\ 0 <= passengers tr <= capacity tr.
Proof.
  set (s := example_run json_busy_line 80).
  assert (Hs : reachable gauss_mean uniform_one (config_of json_busy_line) tt s).
  { apply example_run_reachable; vm_compute; reflexivity. }
  assert (Hc : 0 < tram_capacity (config_of json_busy_line)) by reflexivity.
  eexists. split; [vm_compute; reflexivity|]. split; [reflexivity|].
  apply (proj1 (passengers_within_capacity gauss_mean uniform_one _ tt s Hc Hs) 5).
  vm_compute. reflexivity.
Defined.

Lemma trip_counter_counts_launches_witness :
  exists tr,
    trams (example_run (json_two_stops 100) 12) !! 1 = Some tr /\
    total_trips (stats tr)
    = Z.of_nat (launched (processes (example_run (json_two_stops 100) 12)) 1).
Proof.
  set (s := example_run (json_two_stops 100) 12).
  assert (Hs : reachable gauss_mean uniform_one (config_of (json_two_stops 100)) tt s).
  { apply example_run_reachable; vm_compute; reflexivity. }
  eexists. split; [vm_compute; reflexivity|].
  apply (proj1 (trip_counter_counts_launches gauss_mean uniform_one _ tt s Hs) 1).
  vm_compute. reflexivity.
Defined.

(** C5, as stated, fails as soon as a trip starts: after 12 events tram 1
    is at its first stop, its only trip process has completed no leg, and
    its trip counter is already 1.  When the run halts at the horizon tram 6
    is travelling on its inbound leg, has completed no cycle, and its
    counter is 1 as well. *)
Lemma trip_counter_in_progress_counterexample :
  let j := json_two_stops 100 in
  let s := example_run j 12 in
  let h := example_run j 200 in
  example_steps j 12 = Running s /\
  processes s = [mkTripFrame 1 forward 0 AtStop] /\
  completed (processes s) 1 = 0%nat /\
  (total_trips ∘ stats) <$> (trams s !! 1) = Some 1 /\
  example_steps j 200 = Halted h /\
  processes h !! 5%nat = Some (mkTripFrame 6 backward 1 Travelling) /\
  completed (processes h) 6 = 0%nat /\
  (total_trips ∘ stats) <$> (trams h !! 6) = Some 1.
Proof. intros j s h. repeat apply conj; vm_compute; reflexivity. Qed.

Lemma headway_resolved_at_request_witness :
  let j := json_long_line in
  let s := example_run j 128 in
  let e := (example_next j 128).1 in
  (request_time (generator s) <= ev_at e)%Q /\
  get_current_interval (config_of j) (request_time (generator s))
  = Ok (interval (generator s)).
Proof.
  intros j s e.
  assert (Hs : reachable gauss_mean uniform_one (config_of j) tt s).
  { apply example_run_reachable; vm_compute; reflexivity. }
  assert (Hpop : pop_min (queue (env s)) = Some (e, (example_next j 128).2)).
  { vm_compute. reflexivity. }
  assert (Hstep : step gauss_mean uniform_one (config_of j) s
                  = Running (example_run j 129)).
  { vm_compute. reflexivity. }
  assert (Hk : ev_kind e = StoreGet 1) by (vm_compute; reflexivity).
  destruct (headway_resolved_at_request gauss_mean uniform_one _ tt s e _ _
              Hs Hpop Hstep) as [W _].
  destruct (W 1 Hk) as (W1 & W2 & _). split; [exact W1 | exact W2].
Defined.

(** C6, as stated, fails when the acquire suspends across an hour boundary.
    With a tram every minute until 02:00 and every 30 minutes afterwards,
    the 8 trams are launched at minutes 0 to 7; at minute 8 (hour 0, headway
    1) the dispatcher requests a tram and the pool is empty.  Tram 1 comes
    back at minute 127 (hour 2, headway 30) and the acquisition completes
    then.  The delay scheduled after the launch is 1 minute, the headway of
    the hour of the request: the only pending headway timeout is due at
    minute 128, not at minute 157. *)
Lemma headway_after_stall_counterexample :
  let j := json_long_line in
  let cfg := config_of j in
  let s := example_run j 128 in
  let e := (example_next j 128).1 in
  let s' := example_run j 129 in
  example_steps j 128 = Running s /\
  pop_min (queue (env s)) = Some (example_next j 128) /\
  ev_kind e = StoreGet 1 /\ ev_at e = 127%Q /\
  request_time (generator s) = 8%Q /\
  get_current_interval cfg 8 = Ok 1%Q /\
  get_current_interval cfg (ev_at e) = Ok 30%Q /\
  step gauss_mean uniform_one cfg s = Running s' /\
  generator_timeouts s' = [128%Q] /\
  generator_timeouts s' <> [Qred (ev_at e + 30)].
Proof.
  intros j cfg s e s'.
  repeat apply conj; vm_compute; try reflexivity. discriminate.
Qed.

Lemma no_negative_delay_witness :
  example_steps json_busy_line 80 <> Crashed NegativeDelay.
Proof.
  apply (no_negative_delay gauss_mean uniform_one (config_of json_busy_line) tt).
  - vm_compute. discriminate.
  - vm_compute. discriminate.
  - vm_compute. repeat constructor. discriminate.
  - vm_compute. discriminate.
  - vm_compute. reflexivity.
Defined.

(** C9, as stated, fails when the tram capacity is negative, which the
    configuration loader accepts: with [acceleration_time = 0.5],
    [stop_time = 1.0], a headway of 10 and a capacity of -100, the first
    arrival boards [min(0, -100) = -100] passengers, the dwell time is
    [1.0 + (-100 + 0) * 0.05 = -4] and the timeout raises. *)
Lemma negative_capacity_counterexample :
  let cfg := config_of json_negative_capacity in
  (0 <= acceleration_time cfg)%Q /\ (0 <= stop_time cfg)%Q /\
  Forall (fun r : Z * Q => (0 <= r.2)%Q) (bus_intervals cfg) /\
  load_config json_negative_capacity = Ok cfg /\
  run_simulation cfg tt = Ok (example_start json_negative_capacity) /\
  example_steps json_negative_capacity 12 = Crashed NegativeDelay.
Proof.
  intros cfg. repeat apply conj; vm_compute; try reflexivity; try discriminate.
  repeat constructor. discriminate.
Qed.

(** * The loader and the timetable *)

Lemma load_config_Raise (j : ConfigJson) :
  ~ has_required_keys j -> load_config j = Raise KeyError.
Proof.
  unfold load_config, has_required_keys. intros H.
  destruct (json_stop_number j); [simpl|done].
  destruct (json_distance j); [simpl|done].
  destruct (json_flow_speed j); [simpl|done].
  destruct (json_peak_stop j); [simpl|done].
  destruct (json_tram_capacity j); [simpl|done].
  destruct (json_simulation_hours j); [simpl|done].
  destruct (json_intensity j); [simpl|done].
  destruct (json_bus_interval j); [simpl|done].
  destruct (json_road_loads j); [simpl|done].
  exfalso. apply H. repeat split; eexists; reflexivity.
Qed.

Lemma load_config_Ok (j : ConfigJson) :
  has_required_keys j ->
  exists n d f p c h i b r,
    json_stop_number j = Some n /\ json_distance j = Some d /\
    json_flow_speed j = Some f /\ json_peak_stop j = Some p /\
    json_tram_capacity j = Some c /\ json_simulation_hours j = Some h /\
    json_intensity j = Some i /\ json_bus_interval j = Some b /\
    json_road_loads j = Some r /\
    load_config j =
    Ok (mkConfig n (dict_of_items d) f p c h
          (default 0.5%Q (json_acceleration_time j))
          (default 1%Q (json_stop_time j))
          (fold_left add_intensity i ∅) (sorted_by_hour b) (dict_of_items r)).
Proof.
  intros ([n Hn] & [d Hd] & [f Hf] & [p Hp] & [c Hc] & [h Hh] & [i Hi] & [b Hb] &
          [r Hr]).
  exists n, d, f, p, c, h, i, b, r. repeat (split; [assumption|]).
  unfold load_config. rewrite Hn, Hd, Hf, Hp, Hc, Hh, Hi, Hb, Hr. reflexivity.
Qed.

Lemma has_required_keys_dec (j : ConfigJson) :
  has_required_keys j \/ ~ has_required_keys j.
Proof.
  destruct (load_config j) as [cfg|e] eqn:E.
  - left. unfold load_config, has_required_keys in *.
    destruct (json_stop_number j); [simpl in E|done].
    destruct (json_distance j); [simpl in E|done].
    destruct (json_flow_speed j); [simpl in E|done].
    destruct (json_peak_stop j); [simpl in E|done].
    destruct (json_tram_capacity j); [simpl in E|done].
    destruct (json_simulation_hours j); [simpl in E|done].
    destruct (json_intensity j); [simpl in E|done].
    destruct (json_bus_interval j); [simpl in E|done].
    destruct (json_road_loads j); [simpl in E|done].
    repeat split; eexists; reflexivity.
  - right. intros H. apply load_config_Ok in H
      as (n & d & f & p & c & h & i & b & r & _ & _ & _ & _ & _ & _ & _ & _ & _ & H).
    congruence.
Qed.

Lemma dict_of_items_snoc {V} (l : list (Z * V)) (kv : Z * V) :
  dict_of_items (l ++ [kv]) = <[kv.1 := kv.2]> (dict_of_items l).
Proof. unfold dict_of_items. now rewrite fold_left_app. Qed.

Lemma dict_of_items_lookup {V} (l : list (Z * V)) (k : Z) :
  dict_of_items l !! k = last_item k l.
Proof.
  unfold last_item. induction l as [|kv l IH] using rev_ind; [done|].
  rewrite dict_of_items_snoc, filter_app, lookup_insert.
  case_decide as Hk.
  - rewrite filter_cons_True, filter_nil by done. now rewrite last_snoc.
  - rewrite filter_cons_False, filter_nil, app_nil_r by done. exact IH.
Qed.

Lemma fold_add_intensity_snoc (l : list (Z * Z * Q)) (e : Z * Z * Q) :
  fold_left add_intensity (l ++ [e]) ∅
  = add_intensity (fold_left add_intensity l ∅) e.
Proof. now rewrite fold_left_app. Qed.

Lemma intensity_map_lookup (l : list (Z * Z * Q)) (stop_id hour : Z) :
  default ∅ (fold_left add_intensity l ∅ !! stop_id) !! hour
  = last_intensity stop_id hour l.
Proof.
  unfold last_intensity. induction l as [|[[s h] v] l IH] using rev_ind; [done|].
  rewrite fold_add_intensity_snoc, filter_app. unfold add_intensity at 1.
  rewrite lookup_insert. case_decide as Hs.
  - subst s. simpl. rewrite lookup_insert. case_decide as Hh.
    + subst h. rewrite filter_cons_True, filter_nil by done. now rewrite last_snoc.
    + rewrite filter_cons_False, filter_nil, app_nil_r by (simpl; tauto). exact IH.
  - rewrite filter_cons_False, filter_nil, app_nil_r by (simpl; tauto). exact IH.
Qed.

(** X1.  [load_config] fails exactly when a required key is missing, and
    then with KeyError; [acceleration_time] and [stop_time] are optional and
    default to 0.5 and 1.0; the scalar keys are stored as they are. *)
Theorem load_config_keys (j : ConfigJson) :
  (load_config j = Raise KeyError <-> ~ has_required_keys j) /\
  (forall e, load_config j = Raise e -> e = KeyError) /\
  (forall cfg, load_config j = Ok cfg ->
     has_required_keys j /\
     json_stop_number j = Some (stop_number cfg) /\
     json_flow_speed j = Some (flow_speed cfg) /\
     json_peak_stop j = Some (peak_stop cfg) /\
     json_tram_capacity j = Some (tram_capacity cfg) /\
     json_simulation_hours j = Some (simulation_hours cfg) /\
     acceleration_time cfg = default 0.5%Q (json_acceleration_time j) /\
     stop_time cfg = default 1%Q (json_stop_time j)).
Proof.
  destruct (has_required_keys_dec j) as [H|H].
  - pose proof H as H'. apply load_config_Ok in H'
      as (n & d & f & p & c & h & i & b & r &
          Hn & Hd & Hf & Hp & Hc & Hh & Hi & Hb & Hr & Hload).
    rewrite Hload. split; [split; [discriminate|tauto]|].
    split; [discriminate|]. intros cfg [= <-]. simpl. tauto.
  - rewrite (load_config_Raise j H). split; [tauto|].
    split; [now intros e [= <-]|discriminate].
Qed.

(** X2.  The tables that [load_config] builds answer a lookup with the last
    item of the configuration that has the key: a later item overrides an
    earlier one, and a key without item is absent from the distance and
    road-load dicts and has intensity 0. *)
Theorem load_config_tables (j : ConfigJson) (cfg : Config) :
  load_config j = Ok cfg ->
  exists d i r,
    json_distance j = Some d /\ json_intensity j = Some i /\
    json_road_loads j = Some r /\
    (forall k, distances cfg !! k = last_item k d) /\
    (forall h, road_loads cfg !! h = last_item h r) /\
    (forall stop_id hour,
       get_intensity cfg stop_id hour
       = default 0%Q (last_intensity stop_id hour i)).
Proof.
  intros Hload.
  destruct (has_required_keys_dec j) as [H|H];
    [|rewrite (load_config_Raise j H) in Hload; discriminate].
  apply load_config_Ok in H
    as (n & d & f & p & c & h & i & b & r &
        Hn & Hd & Hf & Hp & Hc & Hh & Hi & Hb & Hr & Hload').
  rewrite Hload' in Hload. revert Hload.
  intros [= <-]. exists d, i, r. repeat (split; [assumption|]). repeat split.
  - intros k. apply dict_of_items_lookup.
  - intros h'. apply dict_of_items_lookup.
  - intros stop_id hour. unfold get_intensity. simpl.
    now rewrite intensity_map_lookup.
Qed.

(** ** The headway table *)

Lemma insert_rule_Permutation (r : Z * Q) (l : list (Z * Q)) :
  insert_rule r l ≡ₚ r :: l.
Proof.
  induction l as [|r' l IH]; simpl; [done|].
  destruct (r.1 <=? r'.1); [done|]. rewrite IH. apply Permutation_swap.
Qed.

Lemma insert_rule_ascending (r : Z * Q) (l : list (Z * Q)) :
  ascending l -> ascending (insert_rule r l).
Proof.
  unfold ascending. induction l as [|r' l IH]; simpl; intros Hl.
  - repeat constructor.
  - apply StronglySorted_cons in Hl as [Hr' Hl].
    destruct (Z.leb_spec r.1 r'.1) as [Hle|Hlt].
    + apply StronglySorted_cons. split; [|apply StronglySorted_cons; auto].
      apply Forall_cons_2; [done|].
      eapply Forall_impl; [exact Hr'|]. simpl. intros x Hx. lia.
    + apply StronglySorted_cons. split; [|auto].
      rewrite insert_rule_Permutation. apply Forall_cons_2; [lia|done].
Qed.

Lemma insert_rule_filter (r : Z * Q) (l : list (Z * Q)) (h : Z) :
  filter (fun x => x.1 = h) (insert_rule r l) = filter (fun x => x.1 = h) (r :: l).
Proof.
  induction l as [|r' l IH]; simpl; [done|].
  destruct (Z.leb_spec r.1 r'.1) as [Hle|Hlt]; [done|].
  rewrite filter_cons, IH, !filter_cons.
  repeat case_decide; try done. lia.
Qed.

(** X3.  [load_config] stores the headway rules in ascending order of start
    hour: every rule of the configuration is kept, once, and rules with the
    same start hour keep their relative order. *)
Theorem sorted_by_hour_sorts (l : list (Z * Q)) :
  sorted_by_hour l ≡ₚ l /\ ascending (sorted_by_hour l) /\
  (forall h, filter (fun r => r.1 = h) (sorted_by_hour l)
             = filter (fun r => r.1 = h) l) /\
  (ascending l -> sorted_by_hour l = l).
Proof.
  unfold sorted_by_hour. repeat split.
  - induction l as [|r l IH]; simpl; [done|].
    now rewrite insert_rule_Permutation, IH.
  - induction l as [|r l IH]; simpl; [constructor|].
    now apply insert_rule_ascending.
  - intros h. induction l as [|r l IH]; simpl; [done|].
    rewrite insert_rule_filter, !filter_cons, IH. done.
  - induction l as [|r l IH]; simpl; [done|]. intros Hl.
    apply StronglySorted_cons in Hl as [Hr Hl]. rewrite IH by done.
    destruct l as [|r' l']; simpl; [done|].
    apply Forall_cons in Hr as [Hr _].
    destruct (Z.leb_spec r.1 r'.1); [done|lia].
Qed.

Lemma find_rev_last {A} (P : A -> bool) (l : list A) :
  find P (rev l) = last (filter (fun x => P x = true) l).
Proof.
  induction l as [|x l IH] using rev_ind; [done|].
  rewrite rev_app_distr, filter_app. simpl.
  destruct (P x) eqn:E.
  - rewrite filter_cons_True, filter_nil by done. now rewrite last_snoc.
  - rewrite filter_cons_False, filter_nil, app_nil_r by congruence. exact IH.
Qed.

Lemma last_filter_Some {A} (P : A -> Prop) `{!forall x, Decision (P x)}
    (l : list A) (x : A) :
  last (filter P l) = Some x ->
  exists l1 l2, l = l1 ++ x :: l2 /\ P x /\ Forall (fun y => ~ P y) l2.
Proof.
  induction l as [|y l IH] using rev_ind; [done|].
  rewrite filter_app. destruct (decide (P y)) as [Hy|Hy].
  - rewrite filter_cons_True, filter_nil by done. rewrite last_snoc.
    intros [= <-]. exists l, []. repeat split; [done|constructor].
  - rewrite filter_cons_False, filter_nil, app_nil_r by done.
    intros (l1 & l2 & -> & Hx & Hl2)%IH.
    exists l1, (l2 ++ [y]). rewrite <- app_assoc. repeat split; [done|].
    apply Forall_app. split; [done|]. now apply Forall_cons_2.
Qed.

Lemma last_filter_None {A} (P : A -> Prop) `{!forall x, Decision (P x)}
    (l : list A) :
  last (filter P l) = None -> Forall (fun y => ~ P y) l.
Proof.
  rewrite last_None. intros Hnil. apply Forall_forall. intros y Hy HP.
  assert (Hin : y ∈ filter P l) by (apply list_elem_of_filter; auto).
  rewrite Hnil in Hin. by apply elem_of_nil in Hin.
Qed.

(** X4.  The headway rule in force.  [get_current_interval] raises, with
    IndexError, exactly when the headway table is empty.  On a table in
    ascending order of start hour it returns the interval of a rule with the
    greatest start hour that does not exceed the current hour of the day;
    when every rule starts later in the day it returns the interval of the
    rule that starts first (not the one that ends the previous day). *)
Theorem get_current_interval_selects (cfg : Config) (t : Q) :
  (forall e, get_current_interval cfg t = Raise e <->
             e = IndexError /\ bus_intervals cfg = []) /\
  (ascending (bus_intervals cfg) ->
   forall iv, get_current_interval cfg t = Ok iv ->
     exists r, r ∈ bus_intervals cfg /\ iv = r.2 /\
       ((r.1 <= hour_of t /\
         forall r', r' ∈ bus_intervals cfg -> r'.1 <= hour_of t -> r'.1 <= r.1) \/
        (forall r', r' ∈ bus_intervals cfg -> hour_of t < r'.1 /\ r.1 <= r'.1))).
Proof.
  unfold get_current_interval. rewrite find_rev_last. split.
  - intros e. destruct (last _) as [r|] eqn:E.
    + split; [done|]. intros [_ Hnil]. rewrite Hnil in E. done.
    + destruct (bus_intervals cfg); [|split; [done|intros [_ [=]]]].
      split; [now intros [= <-]|now intros [-> _]].
  - intros Hasc iv. destruct (last _) as [r|] eqn:E.
    + intros [= <-]. apply last_filter_Some in E as (l1 & l2 & Hl & Hr & Hl2).
      apply Z.leb_le in Hr.
      exists r. split; [rewrite Hl; apply elem_of_app; right; now left|].
      split; [done|]. left. split; [done|].
      intros r' Hr' Hle. rewrite Hl in Hr'.
      unfold ascending in Hasc. rewrite Hl in Hasc.
      apply elem_of_app in Hr' as [Hr'|Hr'].
      * apply (StronglySorted_app_1_elem_of _ _ _ _ _ Hasc); [done|now left].
      * apply elem_of_cons in Hr' as [->|Hr']; [lia|].
        rewrite Forall_forall in Hl2. exfalso. apply (Hl2 r' Hr').
        now apply Z.leb_le.
    + apply last_filter_None in E.
      destruct (bus_intervals cfg) as [|r l] eqn:Hb; [done|]. intros [= <-].
      exists r. split; [now left|]. split; [done|]. right.
      intros r' Hr'. rewrite Forall_forall in E. split.
      * specialize (E r' Hr'). destruct (Z.leb_spec r'.1 (hour_of t)); [done|lia].
      * apply elem_of_cons in Hr' as [->|Hr']; [lia|].
        apply StronglySorted_cons in Hasc as [Hr _].
        rewrite Forall_forall in Hr. now apply Hr.
Qed.

(** ** Hours of the day *)

Lemma Qfloor_unique (x : Q) (m : Z) :
  (inject_Z m <= x)%Q -> (x < inject_Z (m + 1))%Q -> Qfloor x = m.
Proof.
  intros H1 H2.
  assert (m <= Qfloor x).
  { rewrite <- (Qfloor_Z m). now apply Qfloor_resp_le. }
  assert (Qfloor x < m + 1).
  { rewrite Zlt_Qlt. eapply Qle_lt_trans; [apply Qfloor_le|done]. }
  lia.
Qed.

Lemma Qfloor_add_Z (x : Q) (n : Z) : Qfloor (x + inject_Z n) = Qfloor x + n.
Proof.
  apply Qfloor_unique.
  - rewrite inject_Z_plus. pose proof (Qfloor_le x). lra.
  - replace (Qfloor x + n + 1) with ((Qfloor x + 1) + n) by lia.
    rewrite inject_Z_plus. pose proof (Qlt_floor x). lra.
Qed.

Lemma hour_of_day (t : Q) : hour_of (t + 1440) = hour_of t.
Proof.
  unfold hour_of.
  assert (H : ((t + 1440) / 60 == t / 60 + inject_Z 24)%Q) by (unfold inject_Z; field).
  rewrite (Qfloor_comp _ _ H), Qfloor_add_Z.
  rewrite <- (Z.mul_1_l 24) at 1. now rewrite Z.mod_add.
Qed.

(** X5.  The timetable repeats every day.  The hour of the day is between 0
    and 23 at any clock value, and 24 hours later the hour, the headway in
    force and the effective speed are the same. *)
Theorem daily_cycle (cfg : Config) (t : Q) :
  0 <= hour_of t < 24 /\
  hour_of (t + 1440) = hour_of t /\
  get_current_interval cfg (t + 1440) = get_current_interval cfg t /\
  (forall jitter,
     actual_speed cfg (hour_of (t + 1440)) jitter = actual_speed cfg (hour_of t) jitter).
Proof.
  split; [apply Z.mod_pos_bound; lia|]. split; [apply hour_of_day|]. split.
  - unfold get_current_interval. now rewrite hour_of_day.
  - intros jitter. now rewrite hour_of_day.
Qed.

(** ** Travel *)

(** X6.  A hop of positive length takes more than the acceleration time and
    at most the acceleration time plus 0.012 minutes per metre, the time at
    the floor speed of 5 km/h, whatever the road load and the jitter. *)
Theorem calculate_travel_time_bounds {RNG : Type}
    (uniform : RNG -> Q -> Q -> Q * RNG) (cfg : Config)
    (distance : Q) (hour : Z) (g : RNG) :
  (0 < distance)%Q ->
  (acceleration_time cfg < (calculate_travel_time uniform cfg distance hour g).1
   <= acceleration_time cfg + distance * 0.012)%Q.
Proof.
  intros Hd. unfold calculate_travel_time.
  destruct (Qle_bool distance 0) eqn:E.
  { apply Qle_bool_iff in E. lra. }
  destruct (uniform g _ _) as [jitter g']. simpl.
  set (v := actual_speed cfg hour jitter).
  assert (Hv : (5 <= v)%Q) by (unfold v, actual_speed; apply Q.le_max_r).
  set (x := (60 / v)%Q).
  assert (Hx : (0 < x <= 12)%Q).
  { unfold x. split.
    - apply Qlt_shift_div_l; lra.
    - apply Qle_shift_div_r; lra. }
  clearbody x. clear v Hv.
  set (k := (distance / 1000)%Q).
  assert (Hk : (k * 1000 == distance)%Q) by (unfold k; field).
  clearbody k. split; nra.
Qed.

(** X7.  The hop between two neighbouring stops has one length.  Between
    stop [k] and stop [k + 1] the distance used is the entry of stop [k + 1]
    of the distance table (0 when it has none), on the outbound leg, where
    the tram is about to arrive at stop [k + 1], and on the inbound leg,
    where it is about to arrive at stop [k]. *)
Theorem hop_distance_symmetric {RNG : Type}
    (uniform : RNG -> Q -> Q -> Q * RNG) (cfg : Config)
    (s : @Sim RNG) (p : nat) (f : TripFrame) (k : nat) :
  (1 <= k)%nat -> Z.of_nat k < stop_number cfg ->
  let d := default 0%Q (distances cfg !! (Z.of_nat k + 1)) in
  let r := calculate_travel_time uniform cfg d (hour_of (now (env s))) (rng s) in
  let back := Z.to_nat (stop_number cfg - Z.of_nat k) in
  (trip_direction f = forward ->
   stops_sequence cfg forward !! k = Some (Z.of_nat k + 1) /\
   trip_iteration uniform cfg s p f k
   = timeout (set_rng (set_frame s p (at_pc f forward k Travelling)) r.2)
       r.1 (TripTimeout p)) /\
  (trip_direction f = backward ->
   stops_sequence cfg backward !! back = Some (Z.of_nat k) /\
   trip_iteration uniform cfg s p f back
   = timeout (set_rng (set_frame s p (at_pc f backward back Travelling)) r.2)
       r.1 (TripTimeout p)).
Proof.
  intros Hk HN. cbv zeta. split; intros Hd.
  - assert (H1 : stops_sequence cfg forward !! k = Some (Z.of_nat k + 1)).
    { apply stops_sequence_lookup. split; lia. }
    split; [exact H1|].
    unfold trip_iteration. rewrite Hd, H1.
    destruct k as [|j]; [lia|].
    destruct (calculate_travel_time _ _ _ _ _). reflexivity.
  - set (back := Z.to_nat (stop_number cfg - Z.of_nat k)).
    assert (H1 : stops_sequence cfg backward !! back = Some (Z.of_nat k)).
    { apply stops_sequence_lookup. unfold back. split; lia. }
    split; [exact H1|].
    unfold trip_iteration. rewrite Hd, H1.
    destruct back as [|j] eqn:Hb; [unfold back in Hb; lia|].
    assert (H2 : stops_sequence cfg backward !! j = Some (Z.of_nat k + 1)).
    { apply stops_sequence_lookup. unfold back in Hb. split; lia. }
    rewrite H2. simpl.
    destruct (calculate_travel_time _ _ _ _ _). reflexivity.
Qed.

(** * The books of a run *)

Ltac sim_unfold H :=
  cbv beta iota zeta delta
    [handle tram_generator_loop tram_generator_resume tram_process_start
     start_leg trip_iteration timeout store_put store_get trigger_get
     schedule set_frame set_rng set_trams set_processes set_generator
     set_available_trams set_env pop_event at_pc subscript] in H;
  cbn [env available_trams trams stops tram_counter all_trams_created
       total_passengers_served utilization_deviations generator processes rng
       now queue next_eid items get_queue mbind result_bind
       trip_tram trip_direction trip_i trip_pc] in H.

Ltac sim_cases :=
  repeat match goal with
  | H : mbind _ ?r = Ok _ |- _ => destruct r eqn:?; simpl in H; [|discriminate H]
  | H : context [match ?x with _ => _ end] |- _ =>
      destruct x eqn:?; try discriminate H
  | H : context [if ?x then _ else _] |- _ =>
      destruct x eqn:?; try discriminate H
  | H : Ok _ = Ok _ |- _ => injection H as <-
  end.

Section Ledger.

Context {RNG : Type}.
Variable gauss : RNG -> Q -> Q * RNG.
Variable uniform : RNG -> Q -> Q -> Q * RNG.
Variable cfg : Config.

Implicit Types s : @Sim RNG.

#[local] Arguments Qred : simpl never.
#[local] Arguments Qplus : simpl never.
#[local] Arguments Qminus : simpl never.
#[local] Arguments Qmult : simpl never.
#[local] Arguments Qdiv : simpl never.
#[local] Arguments Qabs : simpl never.
#[local] Arguments Qle_bool : simpl never.
#[local] Arguments inject_Z : simpl never.
#[local] Arguments hour_of : simpl never.
#[local] Arguments utilization : simpl never.
#[local] Arguments alight_passengers : simpl never.
#[local] Arguments get_intensity : simpl never.
#[local] Arguments get_current_interval : simpl never.
#[local] Arguments actual_speed : simpl never.
#[local] Arguments stops_sequence : simpl never.

Lemma alight_passengers_effect (t t' : Tram) (stop_id total_stops peak a : Z) :
  alight_passengers t stop_id total_stops peak = Ok (a, t') ->
  t' = set_passengers t (passengers t - a) \/ (a = 0 /\ t' = t).
Proof.
  unfold alight_passengers.
  destruct (passengers t =? 0); [intros [= <- <-]; by right|].
  destruct (total_stops =? 0); [done|]. intros [= <- <-]. by left.
Qed.

Lemma arrive_at_stop_effect s p tram_ref stop_id s' :
  arrive_at_stop gauss cfg s p tram_ref stop_id = Ok s' ->
  exists tram stop alighted new_passengers boarded g' dwell,
    trams s !! tram_ref = Some tram /\ stops s !! stop_id = Some stop /\
    0 <= new_passengers /\
    (0 <= passengers tram -> 1 <= stop_id <= stop_number cfg ->
     0 <= alighted <= passengers tram) /\
    boarded = Z.min (waiting_passengers stop + new_passengers)
                (capacity tram - (passengers tram - alighted)) /\
    s' = mkSim
           (mkEnvironment (now (env s))
              (queue (env s) ++
               [mkEvent (Qred (now (env s) + dwell)) NORMAL (next_eid (env s))
                  (ArriveTimeout p)])
              (S (next_eid (env s))))
           (available_trams s)
           (<[tram_ref := arrived (now (env s)) stop_id
                            (waiting_passengers stop + new_passengers)
                            alighted boarded tram]> (trams s))
           (<[stop_id := served (now (env s))
                           (waiting_passengers stop + new_passengers) boarded stop]>
              (stops s))
           (tram_counter s) (all_trams_created s)
           (total_passengers_served s + boarded)
           (utilization_deviations s ++
            [Qabs (utilization
                     (set_passengers tram (passengers tram - alighted + boarded))
                   - 0.75)])
           (generator s) (processes s) g'.
Proof.
  unfold arrive_at_stop. intros H.
  destruct (stops s !! stop_id) as [stop|] eqn:Hstop; [simpl in H|done].
  destruct (trams s !! tram_ref) as [tram|] eqn:Htram; [|done].
  destruct (alight_passengers _ _ _ _) as [[alighted tram1]|] eqn:Ha;
    [simpl in H|done].
  destruct (get_new_passengers _ _ _ _) as [new_passengers g'] eqn:Hn.
  unfold board_passengers in H.
  unfold timeout in H. destruct (Qle_bool 0 _) eqn:Hd; [|done].
  injection H as <-.
  exists tram, stop, alighted, new_passengers.
  exists (Z.min (waiting_passengers stop + new_passengers)
            (capacity tram - (passengers tram - alighted))).
  exists g'. eexists.
  split; [reflexivity|]. split; [reflexivity|].
  split.
  { unfold get_new_passengers in Hn.
    destruct (Qle_bool _ 0); [injection Hn as <- _; lia|].
    destruct (Qle_bool _ 0); [injection Hn as <- _; lia|].
    destruct (gauss _ _). injection Hn as <- _. lia. }
  split.
  { intros Hp Hs.
    destruct (alight_passengers_bounds _ _ _ _ _ _ Hp Hs Ha) as (Hal & _). exact Hal. }
  split; [reflexivity|].
  assert (HH : passengers tram1 = passengers tram - alighted /\
               tram_id tram1 = tram_id tram /\ capacity tram1 = capacity tram /\
               direction tram1 = direction tram /\ stats tram1 = stats tram).
  { apply alight_passengers_effect in Ha as [->|[-> ->]]; simpl; repeat split; lia. }
  destruct HH as (E1 & E2 & E3 & E4 & E5).
  unfold free_seats in *. rewrite E1, E3 in *.
  match goal with
  | |- context [0 <? ?b] => destruct (0 <? b) eqn:Hb
  end.
  all: unfold arrived, served, schedule, set_env, log_stop_event, set_stats,
         set_passengers, record_waiting, set_waiting_passengers,
         set_last_tram_time, add_waiting_time.
  all: cbn [tram_id capacity passengers direction stats stop_id_of
            waiting_passengers last_tram_time total_waiting_time
            stop_passengers_served waiting_history stats_tram_id passengers_served
            total_trips utilization_history stop_log env now queue next_eid].
  all: rewrite ?E1, ?E2, ?E3, ?E4, ?E5, ?Hb, <- ?app_assoc; reflexivity.
Qed.

Lemma handle_effect s k s' :
  handle gauss uniform cfg s k = Ok s' ->
  now (env s') = now (env s) /\ effect cfg s s'.
Proof.
  intros Hh. destruct k; sim_unfold Hh; sim_cases; simpl.
  all: try match goal with
       | H : arrive_at_stop _ _ _ _ _ _ = Ok _ |- _ =>
           apply arrive_at_stop_effect in H
             as (tram & stop & alighted & new_passengers & boarded & g' & dwell &
                 Htram & Hstop & Hnew & Hal & Hb & ->);
           split; [reflexivity|];
           eapply effect_arrival; eauto
       end.
  all: split; [reflexivity|].
  all: try (apply effect_none; reflexivity).
  all: repeat match goal with
       | H : <[_:=_]> _ !! _ = Some _ |- _ =>
           rewrite lookup_insert_eq in H; injection H as <-
       end.
  all: rewrite ?insert_insert_eq.
  all: eapply effect_mark; [eassumption| |reflexivity..].
  all: unfold same_books; simpl; tauto.
Qed.

Lemma sumZ_snoc (l : list Z) (x : Z) : sumZ (l ++ [x]) = sumZ l + x.
Proof. unfold sumZ. induction l as [|y l IH]; simpl; lia. Qed.

Lemma snoc_two {A} (l : list A) (a b : A) : l ++ [a; b] = (l ++ [a]) ++ [b].
Proof. now rewrite <- app_assoc. Qed.

Lemma sumZ_fmap_snoc {A} (f : A -> Z) (l : list A) (x : A) :
  sumZ (f <$> (l ++ [x])) = sumZ (f <$> l) + f x.
Proof. rewrite fmap_app. apply sumZ_snoc. Qed.

Lemma sum_values_insert {V} (f : V -> Z) (m : gmap Z V) (k : Z) (v v' : V) :
  m !! k = Some v ->
  sum_values f (<[k := v']> m) = sum_values f m - f v + f v'.
Proof.
  intros Hk. unfold sum_values.
  rewrite <- (insert_delete_eq m k v').
  rewrite map_fold_insert_L; [|intros; lia|apply lookup_delete_eq].
  rewrite <- (insert_id m k v Hk) at 2.
  rewrite <- (insert_delete_eq m k v).
  rewrite (map_fold_insert_L _ _ k v); [|intros; lia|apply lookup_delete_eq].
  lia.
Qed.

Lemma chronological_snoc {A} (time : A -> Q) (l : list A) (x : A) :
  chronological time l -> Forall (fun a => (time a <= time x)%Q) l ->
  chronological time (l ++ [x]).
Proof.
  intros Hl Hx. unfold chronological. apply StronglySorted_app_2; [|done|].
  - intros a b Ha ->%list_elem_of_singleton.
    rewrite Forall_forall in Hx. auto.
  - repeat constructor.
Qed.

Lemma ledger_ok_clock s (t : Q) (q : list Event) :
  ledger_ok cfg s -> (now (env s) <= t)%Q ->
  ledger_ok cfg (set_env s (mkEnvironment t q (next_eid (env s)))).
Proof.
  intros (H0 & Ht & Hs & Htot & Hdev) Hle. unfold ledger_ok. simpl.
  split; [lra|]. split; [|split; [|done]].
  - eapply map_Forall_impl; [exact Ht|]. intros k tr (? & ? & ? & ? & ? & Hev & ?).
    unfold tram_books. repeat (split; [assumption|]). split; [|assumption].
    eapply Forall_impl; [exact Hev|]. intros e [? ?]. split; [lra|assumption].
  - eapply map_Forall_impl; [exact Hs|].
    intros k st (? & ? & ? & ? & [? ?] & ? & ? & ? & ? & ?).
    unfold stop_books. repeat (split; [first [assumption | lra | lia]|]). assumption.
Qed.

Lemma tram_books_same (t_now : Q) (t : Z) (tr tr' : Tram) :
  same_books tr tr' -> tram_books cfg t_now t tr -> tram_books cfg t_now t tr'.
Proof.
  unfold same_books, tram_books, boarded_total, alighted_total.
  intros (-> & _ & -> & -> & -> & -> & ->). tauto.
Qed.

Lemma tram_books_arrived (t_now : Q) (t stop_id w a b : Z) (tr : Tram) :
  (0 <= t_now)%Q -> 1 <= stop_id <= stop_number cfg -> b <= w ->
  tram_books cfg t_now t tr ->
  tram_books cfg t_now t (arrived t_now stop_id w a b tr).
Proof.
  intros H0 Hi Hb (H1 & H2 & H3 & H4 & H5 & H6 & H7).
  unfold tram_books, arrived, boarded_total, alighted_total.
  cbn [tram_id stats stats_tram_id passengers passengers_served
       utilization_history stop_log].
  rewrite !sumZ_fmap_snoc, !fmap_app. simpl.
  unfold boarded_total, alighted_total in H3, H4.
  split; [done|]. split; [done|]. split; [lia|]. split; [lia|].
  split; [by rewrite H5|]. split.
  - apply Forall_app. split; [done|].
    apply Forall_cons_2; [|apply Forall_nil_2]. simpl.
    split; [lra|]. split; [lia|lia].
  - apply chronological_snoc; [done|].
    eapply Forall_impl; [exact H6|]. simpl. intros e [? _]. lra.
Qed.

Lemma stop_books_served (t_now : Q) (i w b : Z) (st : Stop) :
  waiting_passengers st <= w -> b <= w ->
  stop_books cfg t_now i st ->
  stop_books cfg t_now i (served t_now w b st).
Proof.
  intros Hw Hb (H1 & H2 & H3 & H4 & [H5 H5'] & H6 & H7 & H8 & H9 & H10).
  unfold stop_books, served. simpl.
  split; [done|]. split; [done|]. split; [lia|].
  split; [destruct (Z.ltb_spec 0 b); lia|].
  split; [lra|].
  assert (Hs : (0 <= inject_Z (stop_passengers_served st))%Q)
    by now apply inject_Z_nonneg.
  set (d := ((t_now - last_tram_time st) / 2)%Q).
  assert (Hd : (d * 2 == t_now - last_tram_time st)%Q) by (unfold d; field).
  clearbody d.
  split; [|split].
  - destruct (Z.ltb_spec 0 b) as [Hb0|Hb0]; [|done].
    assert ((0 < inject_Z b)%Q) by (change 0%Q with (inject_Z 0); now rewrite <- Zlt_Qlt).
    nra.
  - destruct (Z.ltb_spec 0 b) as [Hb0|Hb0].
    + rewrite inject_Z_plus.
      assert ((0 < inject_Z b)%Q) by (change 0%Q with (inject_Z 0); now rewrite <- Zlt_Qlt).
      nra.
    + nra.
  - split; [|split].
    + intros x. rewrite snoc_two, last_snoc. now intros [= <-].
    + apply Forall_app. split.
      * eapply Forall_impl; [exact H9|]. simpl. intros x [? ?]. split; [lra|done].
      * repeat (first [apply Forall_nil_2 | apply Forall_cons_2]); simpl;
          (split; [lra|lia]).
    + rewrite snoc_two.
      apply chronological_snoc; [apply chronological_snoc; [done|]|].
      * eapply Forall_impl; [exact H9|]. simpl. intros x [? ?]. lra.
      * apply Forall_app. split.
        -- eapply Forall_impl; [exact H9|]. simpl. intros x [? ?]. lra.
        -- apply Forall_cons_2; [simpl; lra|apply Forall_nil_2].
Qed.

Lemma ledger_ok_effect s s' :
  ledger_ok cfg s -> now (env s') = now (env s) -> effect cfg s s' ->
  ledger_ok cfg s'.
Proof.
  intros (H0 & Ht & Hs & Htot & Hdev) Hnow Heff. unfold ledger_ok.
  rewrite Hnow. split; [done|].
  destruct Heff as [E1 E2 E3 E4|t tr tr' Hl Hsame E1 E2 E3 E4
                   |tram_ref stop_id tram stop a n b Hl Hst Hn Ha Hb E1 E2 E3 E4];
    rewrite E1, E2, E3, E4.
  - done.
  - pose proof Hsame as (_ & _ & _ & _ & Hps & _ & Hlog).
    split; [|split; [done|]].
    + apply map_Forall_insert_2; [|done].
      eapply tram_books_same; [exact Hsame|]. exact (map_Forall_lookup_1 _ _ _ _ Ht Hl).
    + rewrite !(sum_values_insert _ _ _ _ _ Hl). unfold visits, compose in *.
      rewrite Hps, Hlog. lia.
  - pose proof (map_Forall_lookup_1 _ _ _ _ Hs Hst) as Hsb.
    pose proof Hsb as (_ & Hi & Hw & _).
    assert (Hbw : b <= waiting_passengers stop + n) by lia.
    split; [|split].
    + apply map_Forall_insert_2; [|done].
      apply tram_books_arrived; try done.
      exact (map_Forall_lookup_1 _ _ _ _ Ht Hl).
    + apply map_Forall_insert_2; [|done].
      apply stop_books_served; [lia|done|done].
    + rewrite !(sum_values_insert _ _ _ _ _ Hl). unfold visits, compose, arrived in *.
      cbn [stats passengers_served stop_log].
      rewrite !length_app. cbn [length]. lia.
Qed.

Lemma setup_stops_Forall (P : Z -> Stop -> Prop) :
  (forall i, 1 <= i <= stop_number cfg -> P i (new_Stop i)) ->
  map_Forall P (setup_stops cfg).
Proof.
  intros HP. unfold setup_stops.
  assert (H : forall l (m : gmap Z Stop),
            Forall (fun i => 1 <= i <= stop_number cfg) l ->
            map_Forall P m ->
            map_Forall P (fold_left (fun m i => <[i := new_Stop i]> m) l m)).
  { induction l as [|i l IH]; intros m Hl Hm; simpl; [done|].
    apply Forall_cons in Hl as [Hi Hl]. apply IH; [done|].
    apply map_Forall_insert_2; [|done]. now apply HP. }
  apply H; [|apply map_Forall_empty].
  apply Forall_forall. intros i Hi%elem_of_seqZ. lia.
Qed.

Lemma sum_values_zero {V} (f : V -> Z) (m : gmap Z V) :
  map_Forall (fun _ v => f v = 0) m -> sum_values f m = 0.
Proof.
  unfold sum_values.
  apply (map_fold_weak_ind
           (fun r m => map_Forall (fun _ v => f v = 0) m -> r = 0)); [done|].
  intros i x m' r Hi IH Hall.
  apply map_Forall_insert in Hall as [Hx Hall]; [|done].
  rewrite Hx, IH by done. reflexivity.
Qed.

Lemma ledger_ok_start (g : RNG) s0 :
  run_simulation cfg g = Ok s0 -> ledger_ok cfg s0.
Proof.
  unfold run_simulation. destruct (Qle_bool _ _); [done|]. intros [= <-].
  unfold ledger_ok. cbn. split; [done|]. split; [|split; [|split]].
  - repeat (apply map_Forall_insert_2;
            [unfold tram_books; simpl; repeat split; try done; constructor|]).
    apply map_Forall_empty.
  - apply setup_stops_Forall. intros i Hi.
    unfold stop_books, new_Stop. simpl.
    repeat split; first [done | lia | lra | constructor].
  - vm_compute. reflexivity.
  - vm_compute. reflexivity.
Qed.

Lemma ledger_ok_reachable (g : RNG) s :
  reachable gauss uniform cfg g s -> ledger_ok cfg s.
Proof.
  intros Hs.
  cut (ledger_ok cfg s /\ clock_ok s); [tauto|].
  revert s Hs. apply reachable_invariant.
  - intros s0 H. split; [now apply (ledger_ok_start g)|].
    apply run_simulation_start in H. tauto.
  - intros s1 e q s' [H1 H2] Hpop Hh. split.
    + destruct (handle_effect _ _ _ Hh) as [Hnow Heff].
      assert (Hle : (now (env s1) <= ev_at e)%Q).
      { unfold clock_ok in H2. rewrite (pop_min_perm _ _ _ Hpop) in H2.
        apply Forall_cons in H2 as [[H2 _] _]. exact H2. }
      pose proof (ledger_ok_clock s1 (ev_at e) q H1 Hle) as H1'.
      eapply ledger_ok_effect; [exact H1'|exact Hnow|exact Heff].
    + eapply clock_ok_preserved; eauto.
Qed.

Lemma utilization_range (tr : Tram) :
  0 <= passengers tr <= capacity tr -> (0 <= utilization tr <= 1)%Q.
Proof.
  intros [Hp Hc]. unfold utilization.
  destruct (Z.ltb_spec 0 (capacity tr)) as [H|H]; [|lra].
  assert (H1 : (0 < inject_Z (capacity tr))%Q)
    by (change 0%Q with (inject_Z 0); now rewrite <- Zlt_Qlt).
  assert (H2 : (0 <= inject_Z (passengers tr))%Q) by now apply inject_Z_nonneg.
  assert (H3 : (inject_Z (passengers tr) <= inject_Z (capacity tr))%Q)
    by now rewrite <- Zle_Qle.
  split.
  - apply Qle_shift_div_l; [done|]. lra.
  - apply Qle_shift_div_r; [done|]. lra.
Qed.

Lemma deviation_range (u : Q) :
  (0 <= u <= 1)%Q -> (0 <= Qabs (u - 0.75) <= 0.75)%Q.
Proof.
  intros Hu. split; [apply Qabs_nonneg|].
  apply Qabs_Qle_condition. lra.
Qed.

Lemma service_ok_effect s s' :
  service_ok s -> passengers_ok cfg s -> effect cfg s s' -> service_ok s'.
Proof.
  intros (Htot & Ht & Hd) [Hp Hs] Heff. unfold service_ok.
  destruct Heff as [E1 E2 E3 E4|t tr tr' Hl Hsame E1 E2 E3 E4
                   |tram_ref stop_id tram stop a n b Hl Hst Hn Ha Hb E1 E2 E3 E4];
    rewrite E1, E2, E3, E4.
  - done.
  - split; [done|]. split; [|done].
    apply map_Forall_insert_2; [|done].
    destruct Hsame as (_ & _ & _ & _ & _ & -> & ->).
    exact (map_Forall_lookup_1 _ _ _ _ Ht Hl).
  - destruct (map_Forall_lookup_1 _ _ _ _ Hp Hl) as [_ Hpc].
    destruct (map_Forall_lookup_1 _ _ _ _ Hs Hst) as [Hi Hw].
    specialize (Ha (proj1 Hpc) Hi).
    assert (Hb0 : 0 <= b) by lia.
    assert (Hu : (0 <= utilization (set_passengers tram (passengers tram - a + b))
                  <= 1)%Q).
    { apply utilization_range. simpl. lia. }
    split; [|split].
    + rewrite (sum_values_insert _ _ _ _ _ Hst). unfold served.
      cbn [stop_passengers_served]. destruct (Z.ltb_spec 0 b); lia.
    + apply map_Forall_insert_2; [|done].
      destruct (map_Forall_lookup_1 _ _ _ _ Ht Hl) as [H1 H2].
      unfold arrived. cbn [stats utilization_history stop_log]. split.
      * apply Forall_app. split; [done|]. now apply Forall_cons_2.
      * apply Forall_app. split; [done|]. apply Forall_cons_2; [|done].
        simpl. lia.
    + apply Forall_app. split; [done|]. apply Forall_cons_2; [|done].
      now apply deviation_range.
Qed.

Lemma service_ok_reachable (g : RNG) s :
  0 <= tram_capacity cfg ->
  reachable gauss uniform cfg g s -> service_ok s.
Proof.
  intros Hc Hs.
  cut (service_ok s /\ passengers_ok cfg s); [tauto|].
  revert s Hs. apply reachable_invariant.
  - intros s0 H. split; [|now apply (passengers_ok_start cfg g)].
    revert H. unfold run_simulation. destruct (Qle_bool _ _); [done|].
    intros [= <-]. unfold service_ok. cbn. split; [|split].
    + symmetry. apply sum_values_zero. now apply setup_stops_Forall.
    + repeat (apply map_Forall_insert_2; [simpl; split; constructor|]).
      apply map_Forall_empty.
    + constructor.
  - intros s1 e q s' [H1 H2] Hpop Hh. split.
    + destruct (handle_effect _ _ _ Hh) as [_ Heff].
      eapply service_ok_effect; [| |exact Heff].
      * exact H1.
      * exact H2.
    + eapply passengers_ok_preserved; [|exact Hh]. exact H2.
Qed.

(** ** Failures and progress *)

Lemma arrive_at_stop_no_IndexError s p tram_ref stop_id :
  arrive_at_stop gauss cfg s p tram_ref stop_id <> Raise IndexError.
Proof.
  unfold arrive_at_stop.
  destruct (stops s !! stop_id) as [stop|]; [simpl|done].
  destruct (trams s !! tram_ref) as [tram|]; [|done].
  destruct (alight_passengers _ _ _ _) as [[alighted tram1]|err] eqn:Ha; simpl.
  2:{ unfold alight_passengers in Ha.
      destruct (passengers tram =? 0); [done|].
      destruct (stop_number cfg =? 0); [|done]. now injection Ha as <-. }
  destruct (get_new_passengers _ _ _ _) as [new_passengers g'].
  unfold board_passengers, timeout. simpl.
  destruct (Qle_bool 0 _); done.
Qed.

Lemma get_current_interval_Raise (t : Q) (err : PyError) :
  get_current_interval cfg t = Raise err -> bus_intervals cfg = [].
Proof.
  unfold get_current_interval. destruct (find _ _); [done|].
  now destruct (bus_intervals cfg).
Qed.

Lemma handle_IndexError s k :
  handle gauss uniform cfg s k = Raise IndexError -> bus_intervals cfg = [].
Proof.
  intros Hh.
  destruct k; sim_unfold Hh; sim_cases; simpl in *; try discriminate Hh.
  all: try match goal with
       | H : arrive_at_stop _ _ _ _ _ _ = Raise _ |- _ =>
           exfalso; revert H; apply arrive_at_stop_no_IndexError
       end.
  all: match goal with
       | H : mbind _ (get_current_interval ?c ?t) = Raise _ |- _ =>
           destruct (get_current_interval c t) eqn:Hg; simpl in H;
           [discriminate H|eapply get_current_interval_Raise; exact Hg]
       end.
Qed.

Lemma steps_S_Running (n : nat) s0 s :
  steps gauss uniform cfg n s0 = Running s ->
  steps gauss uniform cfg (S n) s0 = step gauss uniform cfg s.
Proof.
  revert s0. induction n as [|n IH]; intros s0.
  - intros [= <-]. simpl. now destruct (step gauss uniform cfg s0).
  - intros H. change (steps gauss uniform cfg (S (S n)) s0)
      with (match step gauss uniform cfg s0 with
            | Running s' => steps gauss uniform cfg (S n) s'
            | o => o
            end).
    simpl in H. destruct (step gauss uniform cfg s0); try discriminate H.
    now apply IH.
Qed.

Lemma steps_S_Halted (n : nat) s0 s :
  steps gauss uniform cfg n s0 = Halted s ->
  steps gauss uniform cfg (S n) s0 = Halted s.
Proof.
  revert s0. induction n as [|n IH]; intros s0; [done|].
  intros H. change (steps gauss uniform cfg (S (S n)) s0)
    with (match step gauss uniform cfg s0 with
          | Running s' => steps gauss uniform cfg (S n) s'
          | o => o
          end).
  simpl in H. destruct (step gauss uniform cfg s0); try discriminate H; [|done].
  now apply IH.
Qed.

(** The states between two events: the until event is still in the heap. *)
Lemma running_horizon (g : RNG) s0 (n : nat) s :
  run_simulation cfg g = Ok s0 ->
  steps gauss uniform cfg n s0 = Running s -> horizon_ok cfg s.
Proof.
  intros Hrun Hs.
  destruct (run_invariant gauss uniform cfg (horizon_ok cfg) (fun _ => True))
    with (n := n) (s0 := s0) (s := s) as [H _]; [| | |auto].
  - intros s1 e q s' H1 Hpop Hk Hh. eapply horizon_ok_preserved; eauto.
  - done.
  - eapply horizon_ok_start; eauto.
Qed.

Lemma step_not_Exhausted s : horizon_ok cfg s -> forall s', step gauss uniform cfg s <> Exhausted s'.
Proof.
  intros (_ & (u & Hu & _) & _) s'. unfold step.
  destruct (pop_min (queue (env s))) as [[e q]|] eqn:E.
  - destruct (ev_kind e); try done;
      match goal with |- match ?h with _ => _ end <> _ => destruct h; done end.
  - destruct (queue (env s)) as [|a l]; [by apply elem_of_nil in Hu|].
    simpl in E. destruct (pop_min l) as [[? ?]|]; [destruct (event_ltb _ _)|]; done.
Qed.

Lemma interval_ok_reachable (g : RNG) s :
  Forall (fun r : Z * Q => (0 <= r.2)%Q) (bus_intervals cfg) ->
  reachable gauss uniform cfg g s -> interval_ok s.
Proof.
  intros Hiv. apply reachable_invariant.
  - intros s1. unfold run_simulation. destruct (Qle_bool _ _); [done|].
    intros [= <-]. unfold interval_ok. cbn. lra.
  - intros s1 e1 q1 s' H1 _ H2.
    eapply interval_ok_preserved; [exact Hiv| |exact H2]. exact H1.
Qed.

(** The first event of a run is the start of the dispatcher. *)
Lemma first_event (g : RNG) s0 (e : Event) (q : list Event) :
  run_simulation cfg g = Ok s0 ->
  pop_min (queue (env s0)) = Some (e, q) ->
  ev_kind e = InitializeGenerator.
Proof.
  unfold run_simulation. destruct (Qle_bool _ _) eqn:E; [done|].
  apply not_true_iff_false in E. rewrite Qle_bool_iff in E. cbn in E.
  intros [= <-] Hpop.
  pose proof (pop_min_perm _ _ _ Hpop) as Hperm.
  pose proof (pop_min_key _ _ _ Hpop) as Hkey.
  clear Hpop. cbn in Hperm.
  assert (He : e ∈ e :: q) by (apply elem_of_cons; now left).
  rewrite <- Hperm in He.
  set (init := mkEvent (Qred (0 + 0)) URGENT 8 InitializeGenerator) in *.
  assert (Hinit : e = init \/ key_le e init).
  { assert (Hi : init ∈ e :: q).
    { rewrite <- Hperm. rewrite !elem_of_cons. do 8 right. now left. }
    apply elem_of_cons in Hi as [->|Hi]; [now left|right; now apply Hkey]. }
  destruct Hinit as [->|Hle]; [reflexivity|].
  rewrite !elem_of_cons in He.
  unfold key_le in Hle. simpl in Hle.
  assert (H0 : (Qred (0 + 0) == 0)%Q) by (rewrite Qred_correct; ring).
  repeat (destruct He as [->|He]); simpl in *;
    try (rewrite H0 in Hle; destruct Hle as [Hle|[_ [Hle|Hle]]];
         [lra|discriminate|discriminate]).
  - reflexivity.
  - rewrite H0 in Hle. rewrite Qred_correct in Hle.
    destruct Hle as [Hle|[Hle _]]; lra.
  - by apply elem_of_nil in He.
Qed.

(** X8.  A run fails only in two ways, and the first is decided at the first
    event.  If a step of a run raises, the exception is the IndexError of
    [bus_intervals[0]] on an empty headway table or the negative-delay error
    of [timeout]: no stop or tram is ever missing and [alight_passengers]
    never divides by zero.  With an empty headway table the first event
    processed, the start of the dispatcher, raises the IndexError. *)
Theorem run_failures (g : RNG) s0 :
  run_simulation cfg g = Ok s0 ->
  (forall n err, steps gauss uniform cfg n s0 = Crashed err ->
     (err = IndexError /\ bus_intervals cfg = []) \/ err = NegativeDelay) /\
  (bus_intervals cfg = [] ->
   forall n, steps gauss uniform cfg (S n) s0 = Crashed IndexError).
Proof.
  intros Hrun. split.
  - intros n err Hcrash.
    apply steps_Crashed in Hcrash as (m & s & Hm & Hs).
    apply step_Crashed in Hs as (e & q & Hpop & Hh).
    assert (Hreach : reachable gauss uniform cfg g s) by (exists s0, m; auto).
    pose proof (frames_ok_reachable gauss uniform cfg g s Hreach) as Hf.
    destruct (handle_error gauss uniform cfg s e q err Hf Hpop Hh) as [->| ->];
      [left|now right].
    split; [reflexivity|]. eapply handle_IndexError; exact Hh.
  - intros Hemp n. simpl.
    assert (Hstep : step gauss uniform cfg s0 = Crashed IndexError); [|now rewrite Hstep].
    pose proof (horizon_ok_start cfg g s0 Hrun) as Hh.
    unfold step.
    destruct (pop_min (queue (env s0))) as [[e q]|] eqn:Hpop.
    + rewrite (first_event g s0 e q Hrun Hpop).
      unfold handle, tram_generator_loop, get_current_interval.
      rewrite Hemp. simpl. reflexivity.
    + exfalso. eapply (step_not_Exhausted s0 Hh s0). unfold step. now rewrite Hpop.
Qed.

Lemma run_progress (g : RNG) s0 (n : nat) :
  (0 <= acceleration_time cfg)%Q ->
  (0 <= stop_time cfg)%Q ->
  bus_intervals cfg <> [] ->
  Forall (fun r : Z * Q => (0 <= r.2)%Q) (bus_intervals cfg) ->
  0 <= tram_capacity cfg ->
  run_simulation cfg g = Ok s0 ->
  (exists s, steps gauss uniform cfg n s0 = Running s) \/
  (exists s, steps gauss uniform cfg n s0 = Halted s).
Proof.
  intros Hacc Hst Hne Hiv Hcap Hrun.
  induction n as [|n [[s Hs]|[s Hs]]]; [left; now exists s0| |].
  2:{ right. exists s. now apply steps_S_Halted. }
  rewrite (steps_S_Running n s0 s Hs).
  assert (Hreach : reachable gauss uniform cfg g s) by (exists s0, n; auto).
  destruct (step gauss uniform cfg s) as [s'|s'|s'|err] eqn:E.
  - left. now exists s'.
  - right. now exists s'.
  - exfalso. eapply step_not_Exhausted; [|exact E].
    eapply running_horizon; eauto.
  - exfalso. apply step_Crashed in E as (e & q & Hpop & Hh).
    pose proof (frames_ok_reachable gauss uniform cfg g s Hreach) as Hf.
    destruct (handle_error gauss uniform cfg s e q err Hf Hpop Hh) as [->| ->].
    + apply Hne. eapply handle_IndexError; exact Hh.
    + revert Hh. apply handle_delay; try assumption.
      * exact (passengers_ok_reachable gauss uniform cfg g s Hcap Hreach).
      * exact (interval_ok_reachable g s Hiv Hreach).
Qed.

(** X9.  With a headway table that is not empty and configuration constants
    that are not negative (acceleration time, dwell constant, every headway,
    tram capacity) a run never raises and never runs out of events: after
    any number of events it is still running, or it has reached the horizon
    and returned. *)
Theorem run_proceeds_to_horizon (g : RNG) s0 (n : nat) :
  (0 <= acceleration_time cfg)%Q ->
  (0 <= stop_time cfg)%Q ->
  bus_intervals cfg <> [] ->
  Forall (fun r : Z * Q => (0 <= r.2)%Q) (bus_intervals cfg) ->
  0 <= tram_capacity cfg ->
  run_simulation cfg g = Ok s0 ->
  (exists s, steps gauss uniform cfg n s0 = Running s) \/
  (exists s, steps gauss uniform cfg n s0 = Halted s).
Proof. apply run_progress. Qed.

(** X10.  The clock of a run starts at 0, never goes back, stays below the
    horizon [simulation_hours * 60] while events are processed, and equals
    the horizon when [run] returns. *)
Theorem clock_bounds (g : RNG) s0 (n : nat) s :
  run_simulation cfg g = Ok s0 ->
  (steps gauss uniform cfg n s0 = Running s ->
     (0 <= now (env s) < horizon cfg)%Q /\
     forall s', step gauss uniform cfg s = Running s' \/
                step gauss uniform cfg s = Halted s' ->
                (now (env s) <= now (env s'))%Q) /\
  (steps gauss uniform cfg n s0 = Halted s -> (now (env s) == horizon cfg)%Q).
Proof.
  intros Hrun. split.
  - intros Hs.
    assert (Hreach : reachable gauss uniform cfg g s) by (exists s0, n; auto).
    destruct (ledger_ok_reachable g s Hreach) as [H0 _].
    destruct (running_horizon g s0 n s Hrun Hs) as [Hlt _].
    split; [split; assumption|].
    destruct (fleet_accounting gauss uniform cfg g s Hreach) as (_ & Hclock & _).
    unfold clock_ok in Hclock.
    intros s' [Hstep|Hstep].
    + apply step_Running in Hstep as (e & q & Hpop & _ & Hh).
      apply handle_queue in Hh as [-> _]. simpl.
      rewrite (pop_min_perm _ _ _ Hpop) in Hclock.
      now apply Forall_cons in Hclock as [[H _] _].
    + apply step_Halted in Hstep as (e & q & Hpop & _ & ->). simpl.
      rewrite (pop_min_perm _ _ _ Hpop) in Hclock.
      now apply Forall_cons in Hclock as [[H _] _].
  - intros Hs.
    destruct (run_invariant gauss uniform cfg (horizon_ok cfg)
                (fun s => (now (env s) == horizon cfg)%Q))
      with (n := n) (s0 := s0) (s := s) as [_ H]; [| | |auto].
    + intros s1 e q s' H1 Hpop Hk Hh. eapply horizon_ok_preserved; eauto.
    + intros s1 e q (_ & _ & Hall) Hpop Hk. simpl.
      rewrite (pop_min_perm _ _ _ Hpop) in Hall.
      apply Forall_cons in Hall as [He _]. unfold before_horizon in He.
      rewrite Hk in He. tauto.
    + eapply horizon_ok_start; eauto.
Qed.

(** X11.  The three counts of passengers served agree.  At every state of a
    run the counter of the simulation object is the sum of the counters of
    the trams; when the tram capacity is not negative it is also the sum of
    the counters of the stops. *)
Theorem served_counters_agree (g : RNG) s :
  reachable gauss uniform cfg g s ->
  total_passengers_served s = sum_values (passengers_served ∘ stats) (trams s) /\
  (0 <= tram_capacity cfg ->
   total_passengers_served s = sum_values stop_passengers_served (stops s)).
Proof.
  intros Hs. split.
  - destruct (ledger_ok_reachable g s Hs) as (_ & _ & _ & H & _). exact H.
  - intros Hc. destruct (service_ok_reachable g s Hc Hs) as [H _]. exact H.
Qed.

(** X12.  The stop log of a tram accounts for its passengers.  At every
    state of a run a tram carries what its log says boarded minus what it
    says alighted, its served counter is the sum of the boardings, the log
    has one entry per utilization sample and records that sample as a
    percentage, the entries are in chronological order and none is in the
    future, every logged stop is a stop of the line, and no entry boards
    more passengers than were waiting. *)
Theorem stop_log_accounts (g : RNG) s (t : Z) (tr : Tram) :
  reachable gauss uniform cfg g s ->
  trams s !! t = Some tr ->
  tram_id tr = t /\
  passengers tr = boarded_total tr - alighted_total tr /\
  passengers_served (stats tr) = boarded_total tr /\
  length (utilization_history (stats tr)) = length (stop_log (stats tr)) /\
  ev_utilization_after <$> stop_log (stats tr)
  = (fun u => (u * 100)%Q) <$> utilization_history (stats tr) /\
  chronological ev_time (stop_log (stats tr)) /\
  Forall (fun e => (0 <= ev_time e <= now (env s))%Q /\
                   1 <= ev_stop_id e <= stop_number cfg /\
                   ev_boarded e <= ev_waiting_before e)
    (stop_log (stats tr)).
Proof.
  intros Hs Ht.
  destruct (ledger_ok_reachable g s Hs) as (_ & Hall & _).
  destruct (map_Forall_lookup_1 _ _ _ _ Hall Ht)
    as (H1 & _ & H3 & H4 & H5 & H6 & H7).
  repeat (split; [assumption|]). split; [|tauto].
  apply (f_equal length) in H5. rewrite !length_fmap in H5. now symmetry.
Qed.

(** X13.  Every recorded utilization is a fraction of the capacity.  When
    the tram capacity is not negative, at every state of a run each
    utilization sample of each tram is between 0 and 1, each logged
    utilization between 0 and 100 percent, each deviation from the 75
    percent target between 0 and 0.75, and no log entry has a negative
    number of passengers boarding or alighting. *)
Theorem utilization_is_a_fraction (g : RNG) s :
  0 <= tram_capacity cfg ->
  reachable gauss uniform cfg g s ->
  (forall t tr, trams s !! t = Some tr ->
     Forall (fun u => (0 <= u <= 1)%Q) (utilization_history (stats tr)) /\
     Forall (fun e => (0 <= ev_utilization_after e <= 100)%Q /\
                      0 <= ev_alighted e /\ 0 <= ev_boarded e)
       (stop_log (stats tr))) /\
  Forall (fun d => (0 <= d <= 0.75)%Q) (utilization_deviations s).
Proof.
  intros Hc Hs. destruct (service_ok_reachable g s Hc Hs) as (_ & Hall & Hd).
  split; [|exact Hd]. intros t tr Ht.
  destruct (map_Forall_lookup_1 _ _ _ _ Hall Ht) as [Hu He].
  split; [exact Hu|].
  destruct (ledger_ok_reachable g s Hs) as (_ & Hb & _).
  destruct (map_Forall_lookup_1 _ _ _ _ Hb Ht) as (_ & _ & _ & _ & H5 & _).
  apply Forall_lookup_2. intros i e Hi.
  split; [|exact (Forall_lookup_1 _ _ _ _ He Hi)].
  assert (Hl : (ev_utilization_after <$> stop_log (stats tr)) !! i
               = Some (ev_utilization_after e)).
  { rewrite list_lookup_fmap, Hi. reflexivity. }
  rewrite H5, list_lookup_fmap in Hl.
  destruct (utilization_history (stats tr) !! i) as [u|] eqn:Hui; [|done].
  injection Hl as <-.
  pose proof (Forall_lookup_1 _ _ _ _ Hu Hui) as Hur. simpl in Hur. lra.
Qed.

(** X14.  The books of a stop.  At every state of a run the queue of a stop
    is not negative, the time of its last tram is not in the future, the
    last entry of its waiting history is the queue left by the last tram at
    the time it called, and the history is in chronological order, with no
    negative queue and no sample later than the last call. *)
Theorem stop_books_hold (g : RNG) s (i : Z) (st : Stop) :
  reachable gauss uniform cfg g s ->
  stops s !! i = Some st ->
  stop_id_of st = i /\ 1 <= i <= stop_number cfg /\
  0 <= waiting_passengers st /\
  (0 <= last_tram_time st <= now (env s))%Q /\
  (forall x, last (waiting_history st) = Some x ->
             x = (last_tram_time st, waiting_passengers st)) /\
  chronological fst (waiting_history st) /\
  Forall (fun x : Q * Z => (0 <= x.1 <= last_tram_time st)%Q /\ 0 <= x.2)
    (waiting_history st).
Proof.
  intros Hs Hi.
  destruct (ledger_ok_reachable g s Hs) as (_ & _ & Hall & _).
  destruct (map_Forall_lookup_1 _ _ _ _ Hall Hi)
    as (H1 & H2 & H3 & H4 & H5 & H6 & H7 & H8 & H9 & H10).
  repeat (split; [assumption|]). assumption.
Qed.

End Ledger.

(** * The order of departures *)

Section Fifo.

Context {RNG : Type}.
Variable gauss : RNG -> Q -> Q * RNG.
Variable uniform : RNG -> Q -> Q -> Q * RNG.
Variable cfg : Config.

Implicit Types s : @Sim RNG.

#[local] Arguments Qred : simpl never.
#[local] Arguments Qplus : simpl never.
#[local] Arguments Qminus : simpl never.
#[local] Arguments Qmult : simpl never.
#[local] Arguments Qdiv : simpl never.
#[local] Arguments Qabs : simpl never.
#[local] Arguments Qle_bool : simpl never.
#[local] Arguments inject_Z : simpl never.
#[local] Arguments hour_of : simpl never.
#[local] Arguments utilization : simpl never.
#[local] Arguments alight_passengers : simpl never.
#[local] Arguments get_intensity : simpl never.
#[local] Arguments get_current_interval : simpl never.
#[local] Arguments actual_speed : simpl never.
#[local] Arguments stops_sequence : simpl never.

Ltac arrive_frame :=
  match goal with
  | H : arrive_at_stop _ _ _ _ _ _ = Ok _ |- _ =>
      apply arrive_at_stop_frame in H
        as (?tram & ?tram' & ?stop & ?stop' & ?served & ?devs & ?g' & ?dwell &
            ?Htram & ?Hstop & ?Hdwell & -> & ?Hcap & ?Htrips & ?Hpass)
  end.

Lemma pool_grant (k : nat) (z : Z) (l0 back : list Z) :
  z :: l0 = seqZ (Z.of_nat k + 1) (8 - Z.of_nat k) ++ back ->
  (exists back', l0 = seqZ (Z.of_nat (k + 1) + 1) (8 - Z.of_nat (k + 1)) ++ back') /\
  ((k < 8)%nat -> z = Z.of_nat k + 1).
Proof.
  intros H. destruct (le_lt_dec 8 k) as [Hk|Hk].
  - rewrite seqZ_nil in H by lia. split; [|lia].
    exists l0. now rewrite seqZ_nil by lia.
  - rewrite seqZ_cons in H by lia. injection H as -> ->.
    split; [|done]. exists back. f_equal. f_equal; lia.
Qed.

Lemma fifo_ok_preserved s e q s' :
  fifo_ok s -> generator_ok s ->
  pop_min (queue (env s)) = Some (e, q) ->
  handle gauss uniform cfg (pop_event s e q) (ev_kind e) = Ok s' ->
  fifo_ok s'.
Proof.
  unfold fifo_ok, generator_ok, generator_tokens. cbv zeta.
  intros (Hpool & Hproc & Hgrant) Hgen Hpop Hh.
  pose proof (granted_length q) as Hgl. unfold generator_tokens in Hgl.
  assert (Hg : granted (queue (env s)) ≡ₚ granted (e :: q)).
  { apply omap_Permutation. now apply pop_min_perm. }
  rewrite (Permutation_length Hg) in Hpool.
  setoid_rewrite Hg in Hgrant. clear Hg.
  rewrite (pop_min_perm _ _ _ Hpop) in Hgen.
  rewrite granted_cons in Hpool, Hgrant. simpl in Hgen.
  unfold generator_token in Hgen at 1.
  destruct Hpool as [back Hpool]. pose proof Hpool as Hpool0.
  destruct (ev_kind e) eqn:Hk; sim_unfold Hh; simpl in *; sim_cases;
    try arrive_frame; simpl.
  all: rewrite ?granted_snoc, ?length_app, ?length_insert; simpl.
  all: rewrite ?app_nil_r, ?Nat.add_0_r.
  all: rewrite ?Nat.add_0_r in *.
  all: repeat match goal with
       | H : get_queue _ = _ |- _ => rewrite H in Hgen; clear H
       | H : get_queue _ ++ _ = _ |- _ =>
           apply (f_equal length) in H; rewrite length_app in H; simpl in H
       end.
  all: cbn [length] in Hgen.
  (* a grant: no other grant is pending, and the tram granted is the head
     of the pool *)
  all: try match goal with
       | H : items _ = ?z :: ?l0 |- context [granted ?q0 ++ [?z]] =>
           assert (Hq0 : granted q0 = []) by (apply length_zero_iff_nil; lia);
           rewrite Hq0, ?Nat.add_0_r in *; clear Hpool0;
           try rewrite H in Hpool; apply pool_grant in Hpool as [Hpool0 Hz]
       end.
  all: try match goal with
       | H : items _ = [] |- context [items _] => rewrite H
       end.
  all: split; [|split].
  (* the pool *)
  all: try match goal with
       | |- exists b, _ = seqZ _ _ ++ b =>
           first [ exact Hpool0
                 | exists back; exact Hpool0
                 | eexists; rewrite Hpool0, <- app_assoc; reflexivity
                 | exists back; rewrite Hpool0; simpl;
                   f_equal; f_equal; f_equal; lia ]
       end.
  (* the grants *)
  all: try match goal with
       | |- forall t, t ∈ [] ++ [_] -> _ =>
           simpl; intros ? ->%list_elem_of_singleton; exact Hz
       | |- forall t, t ∈ _ -> _ => first [ assumption | intros ? Ht Hlt; apply Hgrant; [now right|lia] ]
       end.
  (* the frames *)
  all: try assumption.
  all: try match goal with
       | Hp : processes _ !! ?p = Some ?f
         |- context [<[?p := _]> (processes _)] =>
           intros p0 f0 Hl Hlt;
           destruct (decide (p = p0)) as [<-|Hne];
           [rewrite list_lookup_insert_eq in Hl by (eapply lookup_lt_Some; eauto);
            injection Hl as <-; simpl; now apply Hproc
           |rewrite list_lookup_insert_ne in Hl by done; now apply Hproc]
       end.
  (* a launch: the tram granted goes to a new trip process *)
  - intros p f Hl Hlt. apply lookup_app_Some in Hl as [Hl|[Hge Hl]].
    + now apply Hproc.
    + apply list_lookup_singleton_Some in Hl as [Hp0 <-]. simpl.
      assert (p = length (processes s)) as -> by lia.
      apply Hgrant; [now left|lia].
  - intros t Ht. assert (Hq0 : granted q = []) by (apply length_zero_iff_nil; lia).
    rewrite Hq0 in Ht. by apply elem_of_nil in Ht.
Qed.

Lemma fifo_ok_start (g : RNG) s0 :
  run_simulation cfg g = Ok s0 -> fifo_ok s0.
Proof.
  unfold run_simulation. destruct (Qle_bool _ _); [done|]. intros [= <-].
  unfold fifo_ok. cbn. split; [exists []; reflexivity|].
  split; [intros p f [=]|intros t Ht; by apply elem_of_nil in Ht].
Qed.

Lemma fifo_ok_reachable (g : RNG) s :
  reachable gauss uniform cfg g s -> fifo_ok s.
Proof.
  intros Hs. cut (fifo_ok s /\ generator_ok s); [tauto|].
  revert s Hs. apply reachable_invariant.
  - intros s0 H. split; [now apply (fifo_ok_start g)|].
    apply run_simulation_start in H. tauto.
  - intros s1 e q s' [H1 H2] Hpop Hh. split.
    + eapply fifo_ok_preserved; eauto.
    + eapply generator_ok_preserved; eauto.
Qed.

(** X15.  The trams leave the depot in the order of their ids.  In every
    state of a run the first eight trip processes run the trams 1 to 8, in
    this order: the pool serves the requests first in, first out, and a tram
    that comes back queues behind the trams that have not yet left. *)
Theorem first_trips_in_order (g : RNG) s (p : nat) (f : TripFrame) :
  reachable gauss uniform cfg g s ->
  processes s !! p = Some f -> (p < 8)%nat ->
  trip_tram f = Z.of_nat p + 1.
Proof.
  intros Hs Hp Hlt. destruct (fifo_ok_reachable g s Hs) as (_ & H & _). eauto.
Qed.

End Fifo.

(** * Arrivals *)

Section Samples.

Context {RNG : Type}.
Variable gauss : RNG -> Q -> Q * RNG.
Variable uniform : RNG -> Q -> Q -> Q * RNG.
Variable cfg : Config.

Implicit Types s : @Sim RNG.

Lemma samples_ok_effect s s' :
  samples_ok s -> effect cfg s s' -> samples_ok s'.
Proof.
  intros Hok Heff. unfold samples_ok in *.
  destruct Heff as [E1 E2 E3 E4|t tr tr' Hl Hsame E1 E2 E3 E4
                   |tram_ref stop_id tram stop a n b Hl Hst Hn Ha Hb E1 E2 E3 E4];
    rewrite E1, E2.
  - exact Hok.
  - destruct Hsame as (_ & _ & _ & _ & _ & _ & Hlog).
    rewrite (sum_values_insert _ _ _ _ _ Hl). unfold visits in *.
    rewrite Hlog. lia.
  - rewrite (sum_values_insert _ _ _ _ _ Hl), (sum_values_insert _ _ _ _ _ Hst).
    unfold visits, samples, arrived, served in *.
    cbn [stats stop_log waiting_history].
    rewrite !length_app. cbn [length]. lia.
Qed.

Lemma samples_ok_start (g : RNG) s0 :
  run_simulation cfg g = Ok s0 -> samples_ok s0.
Proof.
  unfold run_simulation. destruct (Qle_bool _ _); [done|]. intros [= <-].
  unfold samples_ok. cbn.
  rewrite (sum_values_zero samples (setup_stops cfg)).
  - vm_compute. reflexivity.
  - apply setup_stops_Forall. reflexivity.
Qed.

Lemma samples_ok_reachable (g : RNG) s :
  reachable gauss uniform cfg g s -> samples_ok s.
Proof.
  revert s. apply reachable_invariant.
  - intros s0 H. now apply (samples_ok_start g).
  - intros s1 e q s' H1 Hpop Hh.
    destruct (handle_effect gauss uniform cfg _ _ _ Hh) as [_ Heff].
    eapply samples_ok_effect; [|exact Heff]. exact H1.
Qed.

(** X16.  Every arrival is recorded once per book.  At every state of a run
    the stop logs of the trams together have as many entries as there are
    utilization deviations recorded, and the waiting histories of the stops
    together have twice as many samples: one before and one after the
    boarding of each arrival. *)
Theorem arrivals_counted (g : RNG) s :
  reachable gauss uniform cfg g s ->
  sum_values visits (trams s) = Z.of_nat (length (utilization_deviations s)) /\
  sum_values samples (stops s) = 2 * Z.of_nat (length (utilization_deviations s)).
Proof.
  intros Hs.
  destruct (ledger_ok_reachable gauss uniform cfg g s Hs) as (_ & _ & _ & _ & Hdev).
  pose proof (samples_ok_reachable g s Hs) as Hsam. unfold samples_ok in Hsam.
  split; [now symmetry|]. rewrite Hsam, Hdev. reflexivity.
Qed.

End Samples.

(** * The configuration generator *)

(** A table with one row per key. *)
Lemma filter_tabulate {A} (key : A -> Z) (f : Z -> A) (l : list Z) (k : Z) :
  (forall x, key (f x) = x) -> NoDup l ->
  filter (fun y => key y = k) (f <$> l) = if decide (k ∈ l) then [f k] else [].
Proof.
  intros Hkey. induction 1 as [|x l Hx Hl IH]; [done|].
  rewrite fmap_cons, filter_cons, IH.
  destruct (decide (key (f x) = k)) as [E|E]; rewrite Hkey in E.
  - subst x. rewrite (decide_False (P := k ∈ l)) by done.
    rewrite decide_True by (now left). reflexivity.
  - destruct (decide (k ∈ l)) as [Hin|Hnin].
    + rewrite decide_True by (now right). reflexivity.
    + rewrite decide_False; [done|]. intros [->|?]%elem_of_cons; done.
Qed.

Lemma dict_of_items_tabulate {V} (f : Z -> V) (l : list Z) (k : Z) :
  NoDup l ->
  dict_of_items ((fun x => (x, f x)) <$> l) !! k
  = if decide (k ∈ l) then Some (f k) else None.
Proof.
  intros Hl. rewrite dict_of_items_lookup. unfold last_item.
  rewrite (filter_tabulate fst (fun x => (x, f x))) by done.
  now case_decide.
Qed.

Lemma road_load_range (peak_hours : list Z) (hour : Z) :
  (0.1 <= road_load peak_hours hour <= 0.9)%Q.
Proof.
  unfold road_load.
  repeat match goal with |- context [if ?b then _ else _] => destruct b end; lra.
Qed.

Lemma generate_road_loads_lookup (peak_hours : option (list Z)) (h : Z) :
  dict_of_items (generate_road_loads peak_hours) !! h
  = if decide (0 <= h < 24)
    then Some (road_load (default [8; 9; 17; 18] peak_hours) h) else None.
Proof.
  unfold generate_road_loads. rewrite dict_of_items_tabulate by apply NoDup_seqZ.
  destruct (decide (h ∈ seqZ 0 24)) as [Hin|Hnin].
  - apply elem_of_seqZ in Hin. rewrite decide_True by lia. reflexivity.
  - rewrite decide_False; [done|]. intros H. apply Hnin, elem_of_seqZ. lia.
Qed.

Lemma road_load_peak (peak_hours : list Z) (h : Z) :
  h ∈ peak_hours -> road_load peak_hours h = 0.9%Q.
Proof. intros Hin. unfold road_load. now rewrite bool_decide_eq_true_2. Qed.

(** X17.  The road loads of a generated configuration cover the day.  The
    table has one row for each hour 0 to 23, in that order; the load of an
    hour is 0.9 if the hour is a peak hour and 0.7, 0.6, 0.4 or 0.1
    otherwise, always between 0.1 and 0.9; so at no clock value does the
    travel time fall back on the default load of 0.5. *)
Theorem generate_road_loads_all_day (peak_hours : option (list Z)) :
  let peaks := default [8; 9; 17; 18] peak_hours in
  let table := dict_of_items (generate_road_loads peak_hours) in
  (generate_road_loads peak_hours).*1 = seqZ 0 24 /\
  (forall h, table !! h
             = if decide (0 <= h < 24) then Some (road_load peaks h) else None) /\
  (forall t, table !! hour_of t = Some (road_load peaks (hour_of t))) /\
  (forall h, (0.1 <= road_load peaks h <= 0.9)%Q /\
             (h ∈ peaks -> road_load peaks h = 0.9%Q)).
Proof.
  cbv zeta. split; [|split; [apply generate_road_loads_lookup|split]].
  - unfold generate_road_loads. rewrite <- list_fmap_compose. apply list_fmap_id.
  - intros t. rewrite generate_road_loads_lookup. rewrite decide_True; [done|].
    unfold hour_of. apply Z.mod_pos_bound. lia.
  - intros h. split; [apply road_load_range|apply road_load_peak].
Qed.

(** ** Distances *)

Lemma draw_distances_spec {RNG : Type} (randint : RNG -> Z -> Z -> option (Z * RNG))
    (ids : list Z) (lo hi : Z) (g : RNG) :
  randint_in_range randint -> lo <= hi ->
  exists l g', draw_distances randint ids lo hi g = Some (l, g') /\
    l.*1 = ids /\
    Forall (fun kv => (50 | kv.2) /\ lo - 50 < kv.2 <= hi) l.
Proof.
  intros Hr Hle. revert g. induction ids as [|i ids IH]; intros g; simpl.
  - exists [], g. repeat split; constructor.
  - destruct (Hr g lo hi Hle) as (r & g1 & -> & Hlo & Hhi). simpl.
    destruct (IH g1) as (l & g2 & -> & Hk & Hall). simpl.
    exists ((i, r `div` 50 * 50) :: l), g2. split; [done|]. split.
    + rewrite fmap_cons, Hk. reflexivity.
    + apply Forall_cons_2; [|done]. simpl. split.
      * exists (r `div` 50). reflexivity.
      * pose proof (Z.mul_div_le r 50 ltac:(lia)).
        pose proof (Z.mul_succ_div_gt r 50 ltac:(lia)). lia.
Qed.

Lemma generate_distances_spec {RNG : Type}
    (randint : RNG -> Z -> Z -> option (Z * RNG))
    (stop_number min_distance max_distance : Z) (g : RNG) :
  randint_in_range randint -> min_distance <= max_distance ->
  exists l g',
    generate_distances randint stop_number min_distance max_distance g = Some (l, g') /\
    l.*1 = seqZ 1 (Z.max 1 stop_number) /\
    l !! 0%nat = Some (1, 0) /\
    Forall (fun kv => (50 | kv.2) /\ min_distance - 50 < kv.2 <= max_distance)
      (tail l).
Proof.
  intros Hr Hle. unfold generate_distances.
  destruct (draw_distances_spec randint (seqZ 2 (stop_number - 1))
              min_distance max_distance g Hr Hle) as (l & g' & -> & Hk & Hall).
  simpl. exists ((1, 0) :: l), g'. split; [done|]. split; [|split; [done|exact Hall]].
  rewrite fmap_cons, Hk. cbn [fst]. destruct (Z.le_gt_cases stop_number 1) as [H1|H1].
  - rewrite Z.max_l by lia. rewrite seqZ_nil by lia. reflexivity.
  - rewrite Z.max_r by lia. rewrite (seqZ_cons 1) by lia.
    reflexivity.
Qed.

(** X18.  The generated distance table.  With a [randint] that draws from a
    range that is not empty and [min_distance <= max_distance],
    [generate_distances] returns a table whose keys are the stops 1 to
    [stop_number] in order (stop 1 alone when [stop_number < 2]); the entry
    of stop 1 is 0 and every other entry is a multiple of 50 metres, greater
    than [min_distance - 50] and at most [max_distance]. *)
Theorem generate_distances_table {RNG : Type}
    (randint : RNG -> Z -> Z -> option (Z * RNG))
    (stop_number min_distance max_distance : Z) (g : RNG) :
  randint_in_range randint -> min_distance <= max_distance ->
  exists l g',
    generate_distances randint stop_number min_distance max_distance g = Some (l, g') /\
    l.*1 = seqZ 1 (Z.max 1 stop_number) /\
    l !! 0%nat = Some (1, 0) /\
    Forall (fun kv => (50 | kv.2) /\ min_distance - 50 < kv.2 <= max_distance)
      (tail l).
Proof. apply generate_distances_spec. Qed.

(** ** Intensities *)

Lemma list_item_Ok {A} (l : list A) (i : Z) (x : A) :
  0 <= i -> (list_item l i = Ok x <-> l !! Z.to_nat i = Some x).
Proof.
  intros Hi. unfold list_item.
  destruct (Z.ltb_spec i 0); [lia|]. destruct (Z.ltb_spec i 0); [lia|].
  destruct (l !! Z.to_nat i); split; congruence.
Qed.

Lemma list_item_Raise {A} (l : list A) (i : Z) (e : PyError) :
  0 <= i -> (list_item l i = Raise e <-> e = IndexError /\ Z.of_nat (length l) <= i).
Proof.
  intros Hi. unfold list_item.
  destruct (Z.ltb_spec i 0); [lia|]. destruct (Z.ltb_spec i 0); [lia|].
  destruct (l !! Z.to_nat i) eqn:E.
  - apply lookup_lt_Some in E. split; [done|]. intros [_ ?]. lia.
  - apply lookup_ge_None in E. split; [intros [= <-]; split; [done|lia]|].
    now intros [-> _].
Qed.

Lemma for_each_Ok {A B} (f : A -> result B) (g : A -> B) (l : list A) :
  Forall (fun x => f x = Ok (g x)) l -> for_each f l = Ok (g <$> l).
Proof.
  induction 1 as [|x l Hx _ IH]; [done|]. simpl. rewrite Hx. simpl.
  rewrite IH. reflexivity.
Qed.

Lemma for_each_Raise {A B} (f : A -> result B) (l : list A) (e : PyError) :
  for_each f l = Raise e -> exists x, x ∈ l /\ f x = Raise e.
Proof.
  induction l as [|x l IH]; [done|]. simpl.
  destruct (f x) as [y|e'] eqn:Hx; simpl.
  - destruct (for_each f l) as [ys|e'] eqn:Hl; simpl; [done|].
    intros [= <-]. destruct (IH eq_refl) as (x' & Hin & Hx').
    exists x'. split; [now right|done].
  - intros [= <-]. exists x. split; [now left|done].
Qed.

Lemma for_each_Raise_2 {A B} (f : A -> result B) (l : list A) (x : A) (e : PyError) :
  x ∈ l -> f x = Raise e -> exists e', for_each f l = Raise e'.
Proof.
  induction l as [|y l IH]; [by intros ?%elem_of_nil|].
  intros [->|Hin]%elem_of_cons Hx; simpl.
  - rewrite Hx. simpl. eauto.
  - destruct (f y); simpl; [|eauto].
    destruct (IH Hin Hx) as [e' ->]. simpl. eauto.
Qed.

Lemma generate_intensity_data_Ok (stop_number : Z) (base_intensities : option (list Z)) :
  let bases := base_intensities_of stop_number base_intensities in
  stop_number <= Z.of_nat (length bases) ->
  generate_intensity_data stop_number base_intensities
  = Ok (concat (intensity_row bases <$> seqZ 1 stop_number)).
Proof.
  cbv zeta. intros Hlen. unfold generate_intensity_data.
  fold (base_intensities_of stop_number base_intensities).
  set (bases := base_intensities_of stop_number base_intensities) in *.
  rewrite (for_each_Ok _ (intensity_row bases)); [done|].
  apply Forall_forall. intros stop_id Hin%elem_of_seqZ.
  destruct (bases !! Z.to_nat (stop_id - 1)) as [b|] eqn:E.
  - rewrite (proj2 (list_item_Ok bases (stop_id - 1) b ltac:(lia)) E). simpl.
    unfold intensity_row. now rewrite E.
  - apply lookup_ge_None in E. lia.
Qed.

Lemma generate_intensity_data_Raise (stop_number : Z)
    (base_intensities : option (list Z)) :
  let bases := base_intensities_of stop_number base_intensities in
  Z.of_nat (length bases) < stop_number ->
  generate_intensity_data stop_number base_intensities = Raise IndexError.
Proof.
  cbv zeta. intros Hlen. unfold generate_intensity_data.
  fold (base_intensities_of stop_number base_intensities).
  set (bases := base_intensities_of stop_number base_intensities) in *.
  match goal with |- mbind _ (for_each ?f ?l) = _ =>
    destruct (for_each f l) as [rows|e] eqn:E
  end.
  - exfalso.
    assert (Hin : stop_number ∈ seqZ 1 stop_number) by (apply elem_of_seqZ; lia).
    match type of E with for_each ?f _ = _ =>
      destruct (for_each_Raise_2 f _ stop_number IndexError Hin) as [e' He']
    end; [|congruence].
    rewrite (proj2 (list_item_Raise bases (stop_number - 1) IndexError ltac:(lia)));
      [done|]. split; [done|lia].
  - simpl. apply for_each_Raise in E as (x & Hx%elem_of_seqZ & Hf).
    destruct (list_item bases (x - 1)) as [b|e'] eqn:El; [done|].
    simpl in Hf. injection Hf as <-.
    apply list_item_Raise in El as [-> _]; [done|lia].
Qed.

Lemma default_base_intensities_length (stop_number : Z) :
  Z.of_nat (length (base_intensities_of stop_number None)) = Z.max 0 stop_number.
Proof. simpl. rewrite length_fmap, length_seqZ. lia. Qed.

Lemma intensity_row_filter (bases : list Z) (x stop_id hour : Z) :
  filter (fun e : Z * Z * Q => e.1.1 = stop_id /\ e.1.2 = hour)
    (json_intensities (intensity_row bases x))
  = if decide (x = stop_id /\ 0 <= hour < 24)
    then [(stop_id, hour,
           inject_Z (hourly_intensity (default 0 (bases !! Z.to_nat (stop_id - 1)))
                       hour))]
    else [].
Proof.
  unfold json_intensities, intensity_row.
  rewrite <- list_fmap_compose.
  rewrite <- (list_filter_filter (fun e : Z * Z * Q => e.1.1 = stop_id)
                (fun e : Z * Z * Q => e.1.2 = hour)).
  rewrite (filter_tabulate (fun e : Z * Z * Q => e.1.2)) by (done || apply NoDup_seqZ).
  destruct (decide (hour ∈ seqZ 0 24)) as [Hin|Hnin].
  - apply elem_of_seqZ in Hin. rewrite filter_cons, filter_nil. simpl.
    destruct (decide (x = stop_id)) as [->|Hne].
    + rewrite decide_True by (split; [done|lia]). reflexivity.
    + rewrite decide_False by tauto. reflexivity.
  - rewrite filter_nil. rewrite decide_False; [done|].
    intros [_ H]. apply Hnin, elem_of_seqZ. lia.
Qed.

Lemma intensity_rows_filter (bases : list Z) (l : list Z) (stop_id hour : Z) :
  NoDup l ->
  filter (fun e : Z * Z * Q => e.1.1 = stop_id /\ e.1.2 = hour)
    (json_intensities (concat (intensity_row bases <$> l)))
  = if decide (stop_id ∈ l /\ 0 <= hour < 24)
    then [(stop_id, hour,
           inject_Z (hourly_intensity (default 0 (bases !! Z.to_nat (stop_id - 1)))
                       hour))]
    else [].
Proof.
  induction 1 as [|x l Hx Hl IH].
  { rewrite decide_False; [done|]. intros [H%elem_of_nil _]. done. }
  rewrite fmap_cons. cbn [concat].
  unfold json_intensities in *. rewrite fmap_app, filter_app, IH.
  fold (json_intensities (intensity_row bases x)).
  rewrite intensity_row_filter.
  destruct (decide (x = stop_id /\ 0 <= hour < 24)) as [[-> Hh]|Hno].
  - rewrite (decide_False (P := stop_id ∈ l /\ _)) by tauto.
    rewrite decide_True by (split; [now left|done]). reflexivity.
  - destruct (decide (stop_id ∈ l /\ 0 <= hour < 24)) as [[Hin Hh]|Hno'].
    + rewrite decide_True by (split; [now right|done]). reflexivity.
    + rewrite decide_False; [done|].
      intros [[->|Hin]%elem_of_cons Hh]; tauto.
Qed.

Lemma dict_of_items_Forall {V} (P : V -> Prop) (l : list (Z * V)) :
  Forall (fun kv => P kv.2) l -> map_Forall (fun _ => P) (dict_of_items l).
Proof.
  induction l as [|kv l IH] using rev_ind; [intros _; apply map_Forall_empty|].
  intros [Hl Hkv]%Forall_app. rewrite dict_of_items_snoc.
  apply map_Forall_insert_2; [|auto]. now apply Forall_cons in Hkv as [Hkv _].
Qed.

Lemma time_coefficient_nonneg (hour : Z) :
  (0 <= default 0.5 (time_coefficients !! hour))%Q.
Proof.
  destruct (time_coefficients !! hour) as [c|] eqn:E; simpl; [|lra].
  revert E. apply (map_Forall_lookup_1 (fun _ c => (0 <= c)%Q)).
  apply dict_of_items_Forall. repeat constructor; simpl; lra.
Qed.

Lemma hourly_intensity_nonneg (base hour : Z) :
  0 <= base -> 0 <= hourly_intensity base hour.
Proof.
  intros Hb. unfold hourly_intensity. apply py_int_nonneg.
  apply Qmult_le_0_compat; [now apply inject_Z_nonneg|apply time_coefficient_nonneg].
Qed.

Lemma length_concat_rows {A B} (f : A -> list B) (l : list A) (n : nat) :
  (forall x, length (f x) = n) -> length (concat (f <$> l)) = (length l * n)%nat.
Proof.
  intros Hf. induction l as [|x l IH]; [done|].
  rewrite fmap_cons. cbn [concat]. rewrite length_app, Hf, IH. simpl. lia.
Qed.

(** X19.  The generated intensity table.  [generate_intensity_data] raises,
    with IndexError, exactly when fewer base intensities are given than
    there are stops; without base intensities it computes one per stop and
    does not raise.  Otherwise it returns 24 rows per stop, and the
    intensity map that [load_config] builds from them answers, for a stop of
    the line and an hour of the day, with the intensity generated for that
    stop and hour, which is not negative when the base intensity is not; for
    any other stop or hour it answers 0. *)
Theorem generate_intensity_data_table (stop_number : Z)
    (base_intensities : option (list Z)) :
  let bases := base_intensities_of stop_number base_intensities in
  (generate_intensity_data stop_number base_intensities = Raise IndexError <->
   Z.of_nat (length bases) < stop_number) /\
  (forall e, generate_intensity_data stop_number base_intensities = Raise e ->
             e = IndexError) /\
  (base_intensities = None ->
   forall e, generate_intensity_data stop_number base_intensities <> Raise e) /\
  (forall data, generate_intensity_data stop_number base_intensities = Ok data ->
     length data = (Z.to_nat stop_number * 24)%nat /\
     forall stop_id hour,
       default 0%Q
         (default ∅ (fold_left add_intensity (json_intensities data) ∅ !! stop_id)
            !! hour)
       = if decide (1 <= stop_id <= stop_number /\ 0 <= hour < 24)
         then inject_Z (hourly_intensity
                          (default 0 (bases !! Z.to_nat (stop_id - 1))) hour)
         else 0%Q) /\
  (forall base hour, 0 <= base -> 0 <= hourly_intensity base hour).
Proof.
  cbv zeta.
  set (bases := base_intensities_of stop_number base_intensities).
  destruct (Z.lt_ge_cases (Z.of_nat (length bases)) stop_number) as [Hlt|Hge].
  - pose proof (generate_intensity_data_Raise stop_number base_intensities Hlt) as Hr.
    rewrite Hr. split; [tauto|]. split; [now intros e [= <-]|].
    split; [|split; [discriminate|]].
    + intros ->. exfalso. unfold bases in Hlt.
      rewrite default_base_intensities_length in Hlt. lia.
    + apply hourly_intensity_nonneg.
  - pose proof (generate_intensity_data_Ok stop_number base_intensities Hge) as Ho.
    rewrite Ho. split; [split; [discriminate|fold bases; lia]|].
    split; [discriminate|]. split; [discriminate|]. split; [|apply hourly_intensity_nonneg].
    intros data [= <-]. split.
    + rewrite (length_concat_rows _ _ 24%nat).
      * now rewrite length_seqZ.
      * intros x. unfold intensity_row. now rewrite length_fmap.
    + intros stop_id hour. rewrite intensity_map_lookup. unfold last_intensity.
      rewrite intensity_rows_filter by apply NoDup_seqZ.
      destruct (decide (stop_id ∈ seqZ 1 stop_number /\ 0 <= hour < 24))
        as [[Hin%elem_of_seqZ Hh]|Hno].
      * rewrite decide_True by (split; lia). reflexivity.
      * rewrite decide_False; [done|]. intros [Hs Hh]. apply Hno.
        split; [apply elem_of_seqZ; lia|done].
Qed.

(** ** Generated configurations *)

Lemma dict_of_items_NoDup {V} (l : list (Z * V)) (k : Z) (v : V) :
  NoDup l.*1 -> (k, v) ∈ l -> dict_of_items l !! k = Some v.
Proof.
  induction l as [|kv l IH] using rev_ind; [by intros _ ?%elem_of_nil|].
  rewrite fmap_app, dict_of_items_snoc. intros Hnd Hin.
  apply NoDup_app in Hnd as (Hl & Hfresh & _).
  apply elem_of_app in Hin as [Hin|Hin%list_elem_of_singleton].
  - rewrite lookup_insert_ne; [auto|].
    intros <-. apply (Hfresh kv.1).
    + apply list_elem_of_fmap. exists (kv.1, v). auto.
    + simpl. now left.
  - subst kv. simpl. apply lookup_insert_eq.
Qed.

Lemma dict_of_items_None {V} (l : list (Z * V)) (k : Z) :
  k ∉ l.*1 -> dict_of_items l !! k = None.
Proof.
  induction l as [|kv l IH] using rev_ind; [done|].
  rewrite fmap_app, dict_of_items_snoc. intros Hk.
  apply not_elem_of_app in Hk as [Hk1 Hk2].
  rewrite lookup_insert_ne; [auto|].
  intros <-. apply Hk2. simpl. now left.
Qed.

Lemma run_simulation_Ok {RNG : Type} (cfg : Config) (g : RNG) :
  (0 < simulation_hours cfg)%Q -> exists s0, run_simulation cfg g = Ok s0.
Proof.
  intros H. unfold run_simulation.
  destruct (Qle_bool _ _) eqn:E; [|eauto].
  apply Qle_bool_iff in E. cbn in E. lra.
Qed.

Lemma sorted_by_hour_default :
  sorted_by_hour ((fun kv : Z * Z => (kv.1, inject_Z kv.2)) <$> generate_bus_intervals None)
  = [(0, 120%Q); (6, 30%Q); (8, 15%Q); (10, 20%Q); (17, 15%Q); (20, 30%Q); (23, 120%Q)].
Proof. reflexivity. Qed.

Lemma create_config_spec {G : Type}
    (randint : G -> Z -> Z -> option (Z * G))
    (stops_n cap hours speed : Z)
    (peak : option Z) (g : G) :
  randint_in_range randint ->
  exists j g' cfg,
    create_config randint stops_n cap hours speed
      peak g = Some (j, g') /\
    load_config j = Ok cfg /\
    stop_number cfg = stops_n /\
    tram_capacity cfg = cap /\
    simulation_hours cfg = inject_Z hours /\
    flow_speed cfg = inject_Z speed /\
    peak_stop cfg = default ((stops_n + 1) `div` 2) peak /\
    (peak = None -> 1 <= stops_n ->
     1 <= peak_stop cfg <= stops_n) /\
    acceleration_time cfg = 0.5%Q /\ stop_time cfg = 1%Q /\
    bus_intervals cfg
    = [(0, 120%Q); (6, 30%Q); (8, 15%Q); (10, 20%Q); (17, 15%Q); (20, 30%Q);
       (23, 120%Q)] /\
    (forall t, is_Some (road_loads cfg !! hour_of t)) /\
    (forall k, 2 <= k <= stops_n ->
       exists d, distances cfg !! k = Some (inject_Z d) /\ (50 | d) /\
                 400 <= d <= 800).
Proof.
  intros Hr. unfold create_config.
  destruct (generate_distances_spec randint stops_n 400 800 g Hr ltac:(lia))
    as (l & g' & -> & Hkeys & Hfirst & Hall).
  simpl.
  rewrite (generate_intensity_data_Ok stops_n None)
    by (rewrite default_base_intensities_length; lia).
  eexists _, g', _. split; [reflexivity|]. split; [reflexivity|]. simpl.
  repeat (split; [reflexivity|]).
  split.
  { intros -> HN. simpl.
    pose proof (Z.div_le_lower_bound (stops_n + 1) 2 1 ltac:(lia) ltac:(lia)).
    pose proof (Z.div_le_upper_bound (stops_n + 1) 2 stops_n ltac:(lia)
                  ltac:(lia)). lia. }
  repeat (split; [reflexivity|]).
  split.
  { intros t. rewrite generate_road_loads_lookup.
    rewrite decide_True; [eauto|]. unfold hour_of. apply Z.mod_pos_bound. lia. }
  intros k Hk.
  assert (Hin : k ∈ l.*1) by (rewrite Hkeys; apply elem_of_seqZ; lia).
  apply list_elem_of_fmap in Hin as ([k' d] & -> & Hin). cbn [fst snd] in *.
  assert (Hnd : NoDup ((fun kv : Z * Z => (kv.1, inject_Z kv.2)) <$> l).*1).
  { rewrite <- list_fmap_compose.
    change (NoDup l.*1). rewrite Hkeys. apply NoDup_seqZ. }
  assert (Hin' : (k', inject_Z d) ∈ (fun kv : Z * Z => (kv.1, inject_Z kv.2)) <$> l).
  { apply list_elem_of_fmap. exists (k', d). auto. }
  destruct l as [|kv0 l']; [by apply elem_of_nil in Hin|].
  injection Hfirst as ->. cbn [tail] in Hall.
  apply elem_of_cons in Hin as [[= -> ->]|Hin]; [lia|].
  rewrite Forall_forall in Hall. destruct (Hall _ Hin) as [Hdiv Hrange].
  cbn [fst snd] in *. exists d. split.
  - now apply dict_of_items_NoDup.
  - split; [done|]. destruct Hdiv as [q ->]. lia.
Qed.

(** X20.  A configuration made by [create_config] is well formed.  With a
    [randint] that draws from its range, [create_config] returns a
    configuration that [load_config] accepts, with the stop number,
    capacity, duration and speed given, a peak stop that defaults to the
    middle stop of the line, the default acceleration and dwell constants,
    the seven default headway rules, a road load for every hour of the day,
    and for every stop from the second on a distance that is a multiple of
    50 between 400 and 800 metres: every hop has a positive length. *)
Theorem create_config_well_formed {G : Type}
    (randint : G -> Z -> Z -> option (Z * G))
    (stops_n cap hours speed : Z)
    (peak : option Z) (g : G) :
  randint_in_range randint ->
  exists j g' cfg,
    create_config randint stops_n cap hours speed
      peak g = Some (j, g') /\
    load_config j = Ok cfg /\
    stop_number cfg = stops_n /\
    tram_capacity cfg = cap /\
    simulation_hours cfg = inject_Z hours /\
    flow_speed cfg = inject_Z speed /\
    peak_stop cfg = default ((stops_n + 1) `div` 2) peak /\
    (peak = None -> 1 <= stops_n ->
     1 <= peak_stop cfg <= stops_n) /\
    acceleration_time cfg = 0.5%Q /\ stop_time cfg = 1%Q /\
    bus_intervals cfg
    = [(0, 120%Q); (6, 30%Q); (8, 15%Q); (10, 20%Q); (17, 15%Q); (20, 30%Q);
       (23, 120%Q)] /\
    (forall t, is_Some (road_loads cfg !! hour_of t)) /\
    (forall k, 2 <= k <= stops_n ->
       exists d, distances cfg !! k = Some (inject_Z d) /\ (50 | d) /\
                 400 <= d <= 800).
Proof. apply create_config_spec. Qed.

(** X21.  A configuration made by [create_config] runs.  With a [randint]
    that draws from its range, a tram capacity that is not negative and a
    positive duration, the simulation of the generated configuration starts,
    and whatever the random draws it never raises: after any number of
    events it is still running or has returned at the horizon. *)
Theorem create_config_runs {G RNG : Type}
    (randint : G -> Z -> Z -> option (Z * G))
    (gauss : RNG -> Q -> Q * RNG) (uniform : RNG -> Q -> Q -> Q * RNG)
    (stops_n cap hours speed : Z)
    (peak : option Z) (g : G) (r : RNG) :
  randint_in_range randint -> 0 <= cap -> 0 < hours ->
  exists j g' cfg s0,
    create_config randint stops_n cap hours speed
      peak g = Some (j, g') /\
    load_config j = Ok cfg /\
    run_simulation cfg r = Ok s0 /\
    forall n, (exists s, steps gauss uniform cfg n s0 = Running s) \/
              (exists s, steps gauss uniform cfg n s0 = Halted s).
Proof.
  intros Hr Hcap Hh.
  destruct (create_config_spec randint stops_n cap hours
              speed peak g Hr)
    as (j & g' & cfg & Hc & Hl & _ & Hcap' & Hhours & _ & _ & _ & Hacc & Hst &
        Hiv & _).
  destruct (run_simulation_Ok cfg r) as [s0 Hs0].
  { rewrite Hhours. change 0%Q with (inject_Z 0). now rewrite <- Zlt_Qlt. }
  exists j, g', cfg, s0. repeat (split; [assumption|]).
  intros n. apply (run_progress gauss uniform cfg r s0 n); try assumption.
  - rewrite Hacc. lra.
  - rewrite Hst. lra.
  - now rewrite Hiv.
  - rewrite Hiv. repeat constructor; simpl; lra.
  - now rewrite Hcap'.
Qed.

(** ** Custom configurations *)

Lemma enumerate_from_keys {A} (start : Z) (l : list A) :
  (enumerate_from start l).*1 = seqZ start (Z.of_nat (length l)).
Proof.
  unfold enumerate_from. apply list_eq. intros i.
  rewrite list_lookup_fmap, list_lookup_imap.
  destruct (l !! i) as [x|] eqn:E; simpl.
  - apply lookup_lt_Some in E. symmetry. apply lookup_seqZ. split; lia.
  - apply lookup_ge_None in E. symmetry. apply lookup_seqZ_ge. lia.
Qed.

(** X22.  The distance table of a custom configuration.
    [create_custom_config] raises, with IndexError, exactly when fewer base
    intensities are given than there are stops.  Otherwise [load_config]
    accepts its configuration, in which stop 1 has distance 0 and stop [k >=
    2] has the distance number [k - 2] of the list given; a stop beyond the
    end of that list has no entry, so the hop to it has length 0 and takes
    no time at all. *)
Theorem create_custom_config_distances (stops_n : Z)
    (bases dists : list Z) (peak : Z) :
  (create_custom_config stops_n bases dists peak
   = Raise IndexError <-> Z.of_nat (length bases) < stops_n) /\
  (forall j, create_custom_config stops_n bases dists peak
             = Ok j ->
   exists cfg,
     load_config j = Ok cfg /\
     stop_number cfg = stops_n /\
     peak_stop cfg = peak /\
     distances cfg !! 1 = Some 0%Q /\
     (forall k, 2 <= k ->
        distances cfg !! k = inject_Z <$> dists !! Z.to_nat (k - 2)) /\
     (forall (RNG : Type) (uniform : RNG -> Q -> Q -> Q * RNG) k hour (g : RNG),
        Z.of_nat (length dists) + 2 <= k ->
        calculate_travel_time uniform cfg
          (default 0%Q (distances cfg !! k)) hour g = (0%Q, g))).
Proof.
  unfold create_custom_config.
  destruct (Z.lt_ge_cases (Z.of_nat (length bases)) stops_n)
    as [Hlt|Hge].
  { rewrite (generate_intensity_data_Raise stops_n (Some bases) Hlt).
    simpl. split; [tauto|discriminate]. }
  rewrite (generate_intensity_data_Ok stops_n (Some bases) Hge).
  simpl. split; [split; [discriminate|lia]|].
  intros j [= <-]. eexists. split; [reflexivity|]. cbn [stop_number peak_stop distances].
  split; [reflexivity|]. split; [reflexivity|].
  set (table := (fun kv : Z * Z => (kv.1, inject_Z kv.2))
                  <$> (1, 0) :: enumerate_from 2 dists).
  assert (Hkeys : table.*1 = seqZ 1 (Z.of_nat (S (length dists)))).
  { unfold table. rewrite <- list_fmap_compose.
    change (((1, 0) :: enumerate_from 2 dists).*1
            = seqZ 1 (Z.of_nat (S (length dists)))).
    rewrite fmap_cons, enumerate_from_keys. cbn [fst].
    rewrite (seqZ_cons 1) by lia. f_equal. f_equal; lia. }
  assert (Hnd : NoDup table.*1) by (rewrite Hkeys; apply NoDup_seqZ).
  assert (Hlook : forall k, 2 <= k ->
            dict_of_items table !! k = inject_Z <$> dists !! Z.to_nat (k - 2)).
  { intros k Hk. destruct (dists !! Z.to_nat (k - 2)) as [d|] eqn:E; simpl.
    - apply dict_of_items_NoDup; [done|]. unfold table.
      apply list_elem_of_fmap. exists (k, d). split; [done|].
      apply elem_of_cons. right. unfold enumerate_from.
      apply list_elem_of_lookup. exists (Z.to_nat (k - 2)).
      rewrite list_lookup_imap, E. simpl. f_equal. f_equal. lia.
    - apply dict_of_items_None. rewrite Hkeys.
      apply lookup_ge_None in E. intros Hin%elem_of_seqZ. lia. }
  split; [|split; [exact Hlook|]].
  - apply dict_of_items_NoDup; [done|]. unfold table. rewrite fmap_cons. now left.
  - intros RNG uniform k hour g Hk. rewrite Hlook by lia.
    rewrite lookup_ge_None_2 by lia. reflexivity.
Qed.

(** X23.  At peak hours a generated configuration runs at the floor speed.
    With generated road loads, a free-flow speed of at most 47 km/h (the
    default is 40) and a jitter between 0 and 1.05, the effective speed in a
    peak hour is the floor of 5 km/h whatever the jitter, and a hop of
    positive length then takes the acceleration time plus 0.012 minutes per
    metre. *)
Theorem peak_hour_floor {RNG : Type} (uniform : RNG -> Q -> Q -> Q * RNG)
    (cfg : Config) (peaks : option (list Z)) (h : Z) :
  road_loads cfg = dict_of_items (generate_road_loads peaks) ->
  h ∈ default [8; 9; 17; 18] peaks -> 0 <= h < 24 ->
  (flow_speed cfg <= 47)%Q ->
  (forall jitter, (0 <= jitter <= 1.05)%Q -> (actual_speed cfg h jitter == 5)%Q) /\
  (forall distance g,
     (0 < distance)%Q -> (0 <= (uniform g 0.95 1.05).1 <= 1.05)%Q ->
     ((calculate_travel_time uniform cfg distance h g).1
      == acceleration_time cfg + distance * 0.012)%Q).
Proof.
  intros Hloads Hpeak Hh Hflow.
  assert (Hspeed : forall jitter, (0 <= jitter <= 1.05)%Q ->
                                  (actual_speed cfg h jitter == 5)%Q).
  { intros jitter Hj. unfold actual_speed. rewrite Hloads.
    rewrite generate_road_loads_lookup, decide_True by done.
    rewrite (road_load_peak _ h Hpeak). simpl.
    apply Q.max_r. nra. }
  split; [exact Hspeed|].
  intros distance g Hd Hj. unfold calculate_travel_time.
  destruct (Qle_bool distance 0) eqn:E.
  { apply Qle_bool_iff in E. lra. }
  destruct (uniform g _ _) as [jitter g']. simpl in *.
  rewrite (Hspeed jitter Hj). field.
Qed.

(** ** The profile of the generated demand *)

Lemma py_int_mono (x y : Q) : (0 <= x)%Q -> (x <= y)%Q -> py_int x <= py_int y.
Proof.
  intros Hx Hxy. rewrite !py_int_floor by lra. now apply Qfloor_resp_le.
Qed.

Lemma distance_from_center (n i : Z) :
  (Qabs (inject_Z i - inject_Z n / 2) == inject_Z (Z.abs (2 * i - n)) / 2)%Q.
Proof.
  assert (E : (inject_Z i - inject_Z n / 2 == inject_Z (2 * i - n) * / 2)%Q).
  { unfold Z.sub. rewrite inject_Z_plus, inject_Z_mult, inject_Z_opp. field. }
  rewrite E, Qabs_Qmult. reflexivity.
Qed.

Lemma default_base_intensity_peak (n i : Z) :
  1 <= i <= n ->
  80 <= default_base_intensity n i
     <= default_base_intensity n ((n + 1) `div` 2).
Proof.
  intros Hi. unfold default_base_intensity.
  pose proof (distance_from_center n i) as Ei.
  pose proof (distance_from_center n ((n + 1) `div` 2)) as Ep.
  pose proof (Z.div_mod (n + 1) 2 ltac:(lia)) as Hd.
  pose proof (Z.mod_pos_bound (n + 1) 2 ltac:(lia)) as Hm.
  set (p := (n + 1) `div` 2) in *.
  assert (Hab : Z.abs (2 * p - n) <= Z.abs (2 * i - n)) by lia.
  assert (Hin : Z.abs (2 * i - n) <= n) by lia.
  assert (H0 : 0 <= Z.abs (2 * p - n)) by lia.
  rewrite Zle_Qle in Hab, Hin, H0.
  set (m := inject_Z n) in *.
  set (a := (inject_Z (Z.abs (2 * i - n)) / 2)%Q) in *.
  set (b := (inject_Z (Z.abs (2 * p - n)) / 2)%Q) in *.
  assert (Ha : (a * 2 == inject_Z (Z.abs (2 * i - n)))%Q) by (unfold a; field).
  assert (Hb : (b * 2 == inject_Z (Z.abs (2 * p - n)))%Q) by (unfold b; field).
  change (inject_Z 0) with 0%Q in H0. clearbody a b m.
  assert (Hlo : (0 <= (m - Qabs (inject_Z i - m / 2)) * 5)%Q)
    by (rewrite Ei; lra).
  split.
  - pose proof (py_int_nonneg _ Hlo). lia.
  - apply Z.add_le_mono_l. apply py_int_mono; [exact Hlo|].
    rewrite Ei, Ep. lra.
Qed.

Lemma default_base_intensities_lookup (n stop_id : Z) :
  1 <= stop_id <= n ->
  base_intensities_of n None !! Z.to_nat (stop_id - 1)
  = Some (default_base_intensity n stop_id).
Proof.
  intros Hs. simpl. rewrite list_lookup_fmap.
  rewrite lookup_seqZ_lt by lia. simpl. f_equal. f_equal. lia.
Qed.

Lemma generated_intensity (n stop_id hour : Z) :
  default 0%Q
    (default ∅
       (fold_left add_intensity
          (json_intensities
             (concat (intensity_row (base_intensities_of n None) <$> seqZ 1 n))) ∅
        !! stop_id) !! hour)
  = if decide (1 <= stop_id <= n /\ 0 <= hour < 24)
    then inject_Z (hourly_intensity (default_base_intensity n stop_id) hour)
    else 0%Q.
Proof.
  rewrite intensity_map_lookup. unfold last_intensity.
  rewrite intensity_rows_filter by apply NoDup_seqZ.
  destruct (decide (stop_id ∈ seqZ 1 n /\ 0 <= hour < 24))
    as [[Hin%elem_of_seqZ Hh]|Hno].
  - rewrite decide_True by (split; lia).
    rewrite default_base_intensities_lookup by lia. reflexivity.
  - rewrite decide_False; [done|]. intros [Hs Hh]. apply Hno.
    split; [apply elem_of_seqZ; lia|done].
Qed.

Lemma hourly_intensity_mono (base base' hour : Z) :
  0 <= base <= base' -> hourly_intensity base hour <= hourly_intensity base' hour.
Proof.
  intros Hb. unfold hourly_intensity.
  pose proof (time_coefficient_nonneg hour) as Hc.
  set (c := default 0.5%Q (time_coefficients !! hour)) in *. clearbody c.
  assert (H0 : (0 <= inject_Z base)%Q) by (now apply inject_Z_nonneg).
  assert (H1 : (inject_Z base <= inject_Z base')%Q) by (rewrite <- Zle_Qle; lia).
  apply py_int_mono.
  - now apply Qmult_le_0_compat.
  - apply Qmult_le_compat_r; assumption.
Qed.

(** X24.  The default peak stop is the busiest stop.  In a configuration
    that [create_config] makes without a peak stop given, the peak stop is
    the middle stop of the line, and at every hour the intensity that the
    simulation reads for any stop is not negative and at most the intensity
    it reads for the peak stop. *)
Theorem default_peak_stop_is_busiest {G : Type}
    (randint : G -> Z -> Z -> option (Z * G))
    (stops_n cap hours speed : Z) (g g' : G) (j : ConfigJson) (cfg : Config) :
  create_config randint stops_n cap hours speed None g = Some (j, g') ->
  load_config j = Ok cfg ->
  peak_stop cfg = (stops_n + 1) `div` 2 /\
  forall stop_id hour,
    (0 <= get_intensity cfg stop_id hour
       <= get_intensity cfg (peak_stop cfg) hour)%Q.
Proof.
  intros Hc Hl. unfold create_config in Hc.
  destruct (generate_distances _ _ _ _ _) as [[l g1]|]; [|done]. simpl in Hc.
  rewrite (generate_intensity_data_Ok stops_n None) in Hc
    by (rewrite default_base_intensities_length; lia).
  injection Hc as <- <-. injection Hl as <-.
  split; [reflexivity|]. intros stop_id hour.
  unfold get_intensity. cbn [intensity_map peak_stop default].
  set (peak := (stops_n + 1) `div` 2).
  pose proof (generated_intensity stops_n stop_id hour) as E1.
  pose proof (generated_intensity stops_n peak hour) as E2.
  unfold json_intensities in E1, E2. cbn [base_intensities_of] in E1, E2.
  rewrite E1, E2. clear E1 E2.
  assert (Hpos : forall i,
            (0 <= inject_Z (hourly_intensity (default_base_intensity stops_n i) hour))%Q
            \/ ~ 1 <= i <= stops_n).
  { intros i. destruct (decide (1 <= i <= stops_n)) as [Hi|Hi]; [left|now right].
    apply inject_Z_nonneg, hourly_intensity_nonneg.
    pose proof (default_base_intensity_peak stops_n i Hi). lia. }
  destruct (decide (1 <= stop_id <= stops_n /\ 0 <= hour < 24)) as [[Hs Hh]|Hno].
  - assert (Hp : 1 <= peak <= stops_n).
    { unfold peak.
      pose proof (Z.div_le_lower_bound (stops_n + 1) 2 1 ltac:(lia) ltac:(lia)).
      pose proof (Z.div_le_upper_bound (stops_n + 1) 2 stops_n ltac:(lia)
                    ltac:(lia)). lia. }
    rewrite decide_True by done. split.
    + destruct (Hpos stop_id); [assumption|tauto].
    + rewrite <- Zle_Qle. apply hourly_intensity_mono.
      pose proof (default_base_intensity_peak stops_n stop_id Hs). unfold peak. lia.
  - split; [lra|]. case_decide as Hp; [|lra].
    destruct (Hpos peak); [assumption|tauto].
Qed.

(** X25.  A custom configuration runs.  When [create_custom_config] returns,
    with whatever base intensities and distances, negative ones included,
    [load_config] accepts its configuration, the simulation starts, and
    whatever the random draws it never raises: after any number of events it
    is still running or has returned at the horizon. *)
Theorem create_custom_config_runs {RNG : Type}
    (gauss : RNG -> Q -> Q * RNG) (uniform : RNG -> Q -> Q -> Q * RNG)
    (stops_n : Z) (bases dists : list Z) (peak : Z) (j : ConfigJson) (r : RNG) :
  create_custom_config stops_n bases dists peak = Ok j ->
  exists cfg s0,
    load_config j = Ok cfg /\
    run_simulation cfg r = Ok s0 /\
    forall n, (exists s, steps gauss uniform cfg n s0 = Running s) \/
              (exists s, steps gauss uniform cfg n s0 = Halted s).
Proof.
  unfold create_custom_config.
  destruct (generate_intensity_data stops_n (Some bases)) as [data|e]; [|done].
  simpl. intros [= <-].
  set (cfg := mkConfig stops_n
       (dict_of_items ((fun kv : Z * Z => (kv.1, inject_Z kv.2))
                         <$> (1, 0) :: enumerate_from 2 dists))
       (inject_Z 40) peak 150 (inject_Z 24) 0.5 1
       (fold_left add_intensity
          ((fun e : Z * Z * Z => (e.1, inject_Z e.2)) <$> data) ∅)
       (sorted_by_hour ((fun kv : Z * Z => (kv.1, inject_Z kv.2))
                          <$> generate_bus_intervals None))
       (dict_of_items (generate_road_loads None))).
  destruct (run_simulation_Ok cfg r) as [s0 Hs0]; [reflexivity|].
  exists cfg, s0. split; [reflexivity|]. split; [exact Hs0|].
  intros n. apply (run_progress gauss uniform cfg r s0 n); try exact Hs0;
    unfold cfg; cbn [acceleration_time stop_time bus_intervals tram_capacity];
    rewrite ?sorted_by_hour_default.
  - lra.
  - lra.
  - discriminate.
  - repeat constructor; simpl; lra.
  - lia.
Qed.

(** * Reports *)

Lemma sumQ_range (a b : Q) (l : list Q) :
  Forall (fun x => (a <= x <= b)%Q) l ->
  (a * inject_Z (Z.of_nat (length l)) <= sumQ l
   <= b * inject_Z (Z.of_nat (length l)))%Q.
Proof.
  induction 1 as [|x l Hx _ IH].
  - change (a * 0 <= 0 <= b * 0)%Q. lra.
  - cbn [length sumQ foldr]. fold (sumQ l).
    rewrite Nat2Z.inj_succ. unfold Z.succ. rewrite inject_Z_plus.
    change (inject_Z 1) with 1%Q. lra.
Qed.

Lemma mean_range (a b : Q) (l : list Q) (m : Q) :
  Forall (fun x => (a <= x <= b)%Q) l -> mean l = Some m -> (a <= m <= b)%Q.
Proof.
  intros Hl. destruct l as [|x l]; [done|]. intros [= <-].
  pose proof (sumQ_range a b _ Hl) as Hs.
  set (n := inject_Z (Z.of_nat (length (x :: l)))) in *.
  assert (Hn : (0 < n)%Q).
  { unfold n. change 0%Q with (inject_Z 0). rewrite <- Zlt_Qlt. simpl. lia. }
  split.
  - apply Qle_shift_div_l; [done|]. exact (proj1 Hs).
  - apply Qle_shift_div_r; [done|]. exact (proj2 Hs).
Qed.

Section Reports.

Context {RNG : Type}.
Variable gauss : RNG -> Q -> Q * RNG.
Variable uniform : RNG -> Q -> Q -> Q * RNG.
Variable cfg : Config.

(** X26.  The final statistics are within bounds.  In every state of a run,
    the state in which [run] returns included, the fleet that
    [print_final_stats] counts has 8 trams; the mean waiting time it prints
    for a stop is between 0 and half the clock; and when the tram capacity
    is not negative the mean deviation of the utilization from 75 percent is
    between 0 and 0.75. *)
Theorem final_stats_ranges (g : RNG) (s : @Sim RNG) :
  reachable gauss uniform cfg g s ->
  length (all_trams_created s) = 8%nat /\
  (forall i stop w, stops s !! i = Some stop -> avg_waiting stop = Some w ->
     (0 <= w <= now (env s) / 2)%Q) /\
  (0 <= tram_capacity cfg ->
   forall d, avg_util_deviation s = Some d -> (0 <= d <= 0.75)%Q).
Proof.
  intros Hs. split; [|split].
  - destruct (fleet_accounting gauss uniform cfg g s Hs) as [[_ ->] _]. reflexivity.
  - intros i stop w Hi. unfold avg_waiting.
    destruct (Z.ltb_spec 0 (stop_passengers_served stop)) as [Hpos|]; [|done].
    intros [= <-].
    destruct (ledger_ok_reachable gauss uniform cfg g s Hs) as (_ & _ & Hall & _).
    destruct (map_Forall_lookup_1 _ _ _ _ Hall Hi)
      as (H1 & H2 & H3 & H4 & H5 & H6 & H7 & H8 & H9 & H10).
    assert (Hq : (0 < inject_Z (stop_passengers_served stop))%Q)
      by (change 0%Q with (inject_Z 0); now rewrite <- Zlt_Qlt).
    split.
    + apply Qle_shift_div_l; [done|]. lra.
    + apply Qle_shift_div_r; [done|].
      set (h := (now (env s) / 2)%Q).
      assert (Hh : (h * 2 == now (env s))%Q) by (unfold h; field).
      clearbody h. nra.
  - intros Hc d Hd.
    destruct (service_ok_reachable gauss uniform cfg g s Hc Hs) as (_ & _ & Hall).
    eapply mean_range; eauto.
Qed.

End Reports.

(** ** Buckets *)

(** X27.  Every sample falls into the bucket of its hour of the day.  The
    bucketing loop of the plots never raises; it yields 24 buckets, and
    bucket [h] holds, in the order of the history, exactly the samples whose
    time is in hour [h] of some day. *)
Theorem hourly_counts_buckets {A} (history : list (Q * A)) :
  exists buckets,
    hourly_counts history = Ok buckets /\ length buckets = 24%nat /\
    forall h : nat, (h < 24)%nat ->
      buckets !! h
      = Some (snd <$> filter (fun sample => hour_of sample.1 = Z.of_nat h) history).
Proof.
  unfold hourly_counts.
  induction history as [|[t c] history IH] using rev_ind.
  - exists (replicate 24 []). split; [done|]. split; [done|].
    intros h Hh. rewrite lookup_replicate_2 by done. reflexivity.
  - destruct IH as (buckets & Hb & Hlen & Hlook).
    rewrite foldl_app. cbn [foldl]. rewrite Hb. cbn [mbind result_bind fst snd].
    assert (Hr : 0 <= hour_of t < 24) by (apply Z.mod_pos_bound; lia).
    set (k := Z.to_nat (hour_of t)).
    assert (Hk : (k < 24)%nat) by (unfold k; lia).
    rewrite (proj2 (list_item_Ok buckets (hour_of t) _ (proj1 Hr)) (Hlook k Hk)).
    cbn [mbind result_bind].
    eexists. split; [reflexivity|]. split; [now rewrite length_insert|].
    intros h Hh. rewrite filter_app, fmap_app.
    destruct (decide (k = h)) as [<-|Hne].
    + rewrite list_lookup_insert_eq by lia.
      rewrite (filter_cons_True _ (t, c)) by (simpl; unfold k; lia).
      reflexivity.
    + rewrite list_lookup_insert_ne by done.
      rewrite (filter_cons_False _ (t, c)) by (simpl; unfold k; lia).
      rewrite filter_nil, fmap_nil, app_nil_r.
      now apply Hlook.
Qed.

(** ** The summary *)

Lemma maxQ_foldl (x : Q) (l : list Q) :
  (x <= foldl Qmax x l)%Q /\ Forall (fun y => (y <= foldl Qmax x l)%Q) l /\
  (foldl Qmax x l = x \/ foldl Qmax x l ∈ l).
Proof.
  revert x. induction l as [|y l IH]; intros x; simpl.
  - split; [lra|]. split; [constructor|now left].
  - destruct (IH (Qmax x y)) as (H1 & H2 & H3).
    pose proof (Q.le_max_l x y). pose proof (Q.le_max_r x y).
    split; [lra|]. split; [apply Forall_cons_2; [lra|done]|].
    destruct H3 as [H3|H3]; [|right; now right].
    rewrite H3. unfold Qmax, GenericMinMax.gmax.
    destruct (x ?= y)%Q; [now left|right; now left|now left].
Qed.

Lemma maxQ_spec (l : list Q) (m : Q) :
  maxQ l = Some m -> m ∈ l /\ Forall (fun y => (y <= m)%Q) l.
Proof.
  destruct l as [|x l]; [done|]. intros [= <-].
  destruct (maxQ_foldl x l) as (H1 & H2 & H3). split.
  - destruct H3 as [->|H3]; [now left|now right].
  - now apply Forall_cons_2.
Qed.

Lemma summary_row_Some (item : Z * Tram) (row : SummaryRow) :
  summary_row item = Some row ->
  row_tram_id row = item.1 /\ utilization_history (stats item.2) <> [] /\
  row_visits row = length (stop_log (stats item.2)) /\
  exists avg mx, mean (utilization_history (stats item.2)) = Some avg /\
                 maxQ (utilization_history (stats item.2)) = Some mx /\
                 row_avg_util row = (avg * 100)%Q /\ row_max_util row = (mx * 100)%Q.
Proof.
  destruct item as [tram_id tram]. unfold summary_row. simpl.
  destruct (utilization_history (stats tram)) as [|u h] eqn:E; [done|].
  simpl. intros [= <-]. simpl. split; [done|]. split; [done|]. split; [done|].
  eexists _, _. repeat split; reflexivity.
Qed.

Lemma summary_row_is_Some (item : Z * Tram) :
  utilization_history (stats item.2) <> [] -> is_Some (summary_row item).
Proof.
  destruct item as [tram_id tram]. unfold summary_row. simpl.
  destruct (utilization_history (stats tram)); [done|]. simpl. eauto.
Qed.

Lemma summary_ids (l : list (Z * Tram)) :
  Forall (fun item => length (utilization_history (stats item.2))
                      = length (stop_log (stats item.2))) l ->
  row_tram_id <$> omap summary_row l
  = fst <$> filter (fun item : Z * Tram => stop_log (stats item.2) <> []) l.
Proof.
  induction 1 as [|item l Hlen _ IH]; [done|].
  rewrite filter_cons. cbn [omap list_omap]. fold (omap summary_row l).
  destruct (summary_row item) as [row|] eqn:E.
  - apply summary_row_Some in E as (Hid & Hne & _).
    rewrite decide_True.
    + rewrite !fmap_cons, IH, Hid. reflexivity.
    + intros Hnil. rewrite Hnil in Hlen. simpl in Hlen.
      now apply length_zero_iff_nil in Hlen.
  - rewrite decide_False; [exact IH|].
    intros Hne. destruct (summary_row_is_Some item) as [row Hrow]; [|congruence].
    intros Hnil. rewrite Hnil in Hlen. simpl in Hlen. symmetry in Hlen.
    now apply length_zero_iff_nil in Hlen.
Qed.

Lemma summary_sorted (l : list (Z * Tram)) :
  StronglySorted by_key l ->
  StronglySorted Z.le (row_tram_id <$> omap summary_row l).
Proof.
  induction 1 as [|item l Hl IH Hall]; [constructor|].
  cbn [omap list_omap]. fold (omap summary_row l).
  destruct (summary_row item) as [row|] eqn:E; [|exact IH].
  rewrite fmap_cons. constructor; [exact IH|].
  apply summary_row_Some in E as (Hid & _).
  apply Forall_forall. intros k (row' & -> & Hin)%list_elem_of_fmap.
  apply list_elem_of_omap in Hin as (item' & Hin & E').
  apply summary_row_Some in E' as (Hid' & _).
  rewrite Forall_forall in Hall. specialize (Hall item' Hin).
  unfold by_key in Hall. lia.
Qed.

Section Summary.

Context {RNG : Type}.
Variable gauss : RNG -> Q -> Q * RNG.
Variable uniform : RNG -> Q -> Q -> Q * RNG.
Variable cfg : Config.

(** X28.  The summary table agrees with the logs.  For the trams of any
    state of a run, [create_summary] writes a row for exactly the trams
    whose log [save_all_trams] saves, in ascending order of tram id; the row
    of a tram counts as many visited stops as the tram has utilization
    samples; and when the tram capacity is not negative the mean utilization
    of a row is between 0 and its maximal utilization, which is at most 100
    percent. *)
Theorem create_summary_agrees (g : RNG) (s : @Sim RNG) :
  reachable gauss uniform cfg g s ->
  row_tram_id <$> create_summary (trams s) ≡ₚ save_all_trams (trams s) /\
  length (create_summary (trams s)) = length (save_all_trams (trams s)) /\
  StronglySorted Z.le (row_tram_id <$> create_summary (trams s)) /\
  (forall row, row ∈ create_summary (trams s) ->
     exists tr, trams s !! row_tram_id row = Some tr /\
       row_visits row = length (utilization_history (stats tr)) /\
       (0 <= tram_capacity cfg ->
        (0 <= row_avg_util row <= row_max_util row)%Q /\
        (row_max_util row <= 100)%Q)).
Proof.
  intros Hs.
  pose proof (ledger_ok_reachable gauss uniform cfg g s Hs) as (_ & Hb & _).
  assert (Hlen : forall l : list (Z * Tram),
            l ≡ₚ map_to_list (trams s) ->
            Forall (fun item => length (utilization_history (stats item.2))
                                = length (stop_log (stats item.2))) l).
  { intros l Hl. apply Forall_forall. intros [k tr] Hin. rewrite Hl in Hin.
    apply elem_of_map_to_list in Hin.
    destruct (map_Forall_lookup_1 _ _ _ _ Hb Hin) as (_ & _ & _ & _ & H5 & _).
    apply (f_equal length) in H5. rewrite !length_fmap in H5. now symmetry. }
  assert (Hperm : row_tram_id <$> create_summary (trams s)
                  ≡ₚ save_all_trams (trams s)).
  { unfold create_summary, save_all_trams, sorted_items.
    rewrite (merge_sort_Permutation by_key (map_to_list (trams s))).
    now rewrite summary_ids by (now apply Hlen). }
  split; [exact Hperm|]. split.
  { apply Permutation_length in Hperm. now rewrite length_fmap in Hperm. }
  split.
  { apply summary_sorted. unfold sorted_items.
    apply (StronglySorted_merge_sort by_key). }
  intros row Hrow. unfold create_summary in Hrow.
  apply list_elem_of_omap in Hrow as ([k tr] & Hin & Hr).
  unfold sorted_items in Hin.
  rewrite (merge_sort_Permutation by_key (map_to_list (trams s))) in Hin.
  pose proof (Hlen _ (reflexivity _)) as Hl.
  rewrite Forall_forall in Hl. specialize (Hl _ Hin). simpl in Hl.
  apply elem_of_map_to_list in Hin.
  apply summary_row_Some in Hr
    as (Hid & Hne & Hv & avg & mx & Havg & Hmx & -> & ->).
  simpl in *. exists tr. split; [now rewrite Hid|]. split; [congruence|].
  intros Hc.
  destruct (service_ok_reachable gauss uniform cfg g s Hc Hs) as (_ & Hall & _).
  destruct (map_Forall_lookup_1 _ _ _ _ Hall Hin) as [Hu _].
  apply maxQ_spec in Hmx as [Hmem Hup].
  rewrite Forall_forall in Hu. pose proof (Hu mx Hmem) as Hmx1.
  assert (Hr : (0 <= avg <= mx)%Q).
  { eapply mean_range; [|exact Havg].
    apply Forall_forall. intros x Hx. split; [apply (Hu x Hx)|].
    rewrite Forall_forall in Hup. now apply Hup. }
  simpl in Hmx1. split; lra.
Qed.

End Summary.

(** * The properties on the example inputs *)

Lemma load_config_tables_witness :
  let j := json_busy_line in
  load_config j = Ok (config_of j) /\
  exists d i r,
    json_distance j = Some d /\ json_intensity j = Some i /\
    json_road_loads j = Some r /\
    (forall k, distances (config_of j) !! k = last_item k d) /\
    (forall h, road_loads (config_of j) !! h = last_item h r) /\
    (forall stop_id hour,
       get_intensity (config_of j) stop_id hour
       = default 0%Q (last_intensity stop_id hour i)).
Proof.
  intros j. split; [reflexivity|]. apply load_config_tables. reflexivity.
Defined.

Lemma calculate_travel_time_bounds_witness :
  let cfg := config_of (json_two_stops 100) in
  (0 < 1000)%Q /\
  (acceleration_time cfg < (calculate_travel_time uniform_one cfg 1000 0 tt).1
   <= acceleration_time cfg + 1000 * 0.012)%Q.
Proof.
  intros cfg. split; [reflexivity|].
  apply calculate_travel_time_bounds. reflexivity.
Defined.

Lemma hop_distance_symmetric_witness :
  let cfg := config_of json_busy_line in
  (1 <= 2)%nat /\ Z.of_nat 2 < stop_number cfg /\
  stops_sequence cfg forward !! 2%nat = Some 3 /\
  stops_sequence cfg backward !! 1%nat = Some 2.
Proof.
  intros cfg.
  assert (H1 : (1 <= 2)%nat) by lia.
  assert (H2 : Z.of_nat 2 < stop_number cfg) by reflexivity.
  split; [exact H1|]. split; [exact H2|]. split.
  - exact (proj1 (proj1 (hop_distance_symmetric uniform_one cfg
                           (example_start json_busy_line) 0
                           (mkTripFrame 1 forward 2 AtStop) 2 H1 H2) eq_refl)).
  - exact (proj1 (proj2 (hop_distance_symmetric uniform_one cfg
                           (example_start json_busy_line) 0
                           (mkTripFrame 1 backward 1 AtStop) 2 H1 H2) eq_refl)).
Defined.

Lemma run_failures_witness :
  let j := json_no_rules in
  run_simulation (config_of j) tt = Ok (example_start j) /\
  bus_intervals (config_of j) = [] /\
  example_steps j 1 = Crashed IndexError.
Proof.
  intros j.
  assert (H : run_simulation (config_of j) tt = Ok (example_start j))
    by (vm_compute; reflexivity).
  assert (He : bus_intervals (config_of j) = []) by (vm_compute; reflexivity).
  split; [exact H|]. split; [exact He|].
  pose proof (proj2 (run_failures gauss_mean uniform_one (config_of j) tt
                       (example_start j) H) He 0%nat) as W.
  unfold example_steps. exact W.
Defined.

Lemma run_proceeds_to_horizon_witness :
  (exists s, example_steps json_busy_line 80 = Running s) \/
  (exists s, example_steps json_busy_line 80 = Halted s).
Proof.
  apply (run_proceeds_to_horizon gauss_mean uniform_one (config_of json_busy_line) tt).
  - vm_compute. discriminate.
  - vm_compute. discriminate.
  - vm_compute. discriminate.
  - vm_compute. repeat constructor. discriminate.
  - vm_compute. discriminate.
  - vm_compute. reflexivity.
Defined.

Lemma clock_bounds_witness :
  let j := json_busy_line in
  let s := example_run j 80 in
  run_simulation (config_of j) tt = Ok (example_start j) /\
  example_steps j 80 = Running s /\
  (0 <= now (env s) < horizon (config_of j))%Q.
Proof.
  intros j s.
  assert (H0 : run_simulation (config_of j) tt = Ok (example_start j))
    by (vm_compute; reflexivity).
  assert (H1 : steps gauss_mean uniform_one (config_of j) 80 (example_start j)
               = Running s) by (vm_compute; reflexivity).
  split; [exact H0|]. split; [unfold example_steps; exact H1|].
  pose proof (proj1 (clock_bounds gauss_mean uniform_one (config_of j) tt
                       (example_start j) 80 s H0) H1) as W.
  exact (proj1 W).
Defined.

Lemma served_counters_agree_witness :
  let s := example_run json_busy_line 80 in
  total_passengers_served s = sum_values (passengers_served ∘ stats) (trams s).
Proof.
  intros s.
  assert (Hs : reachable gauss_mean uniform_one (config_of json_busy_line) tt s).
  { apply example_run_reachable; vm_compute; reflexivity. }
  exact (proj1 (served_counters_agree gauss_mean uniform_one _ tt s Hs)).
Defined.

Lemma stop_log_accounts_witness :
  exists tr,
    trams (example_run json_busy_line 80) !! 5 = Some tr /\
    passengers tr = boarded_total tr - alighted_total tr /\
    passengers_served (stats tr) = boarded_total tr.
Proof.
  set (s := example_run json_busy_line 80).
  assert (Hs : reachable gauss_mean uniform_one (config_of json_busy_line) tt s).
  { apply example_run_reachable; vm_compute; reflexivity. }
  eexists. split; [vm_compute; reflexivity|].
  match goal with |- passengers ?tr = _ /\ _ =>
    assert (Ht : trams s !! 5 = Some tr) by (vm_compute; reflexivity);
    destruct (stop_log_accounts gauss_mean uniform_one _ tt s 5 tr Hs Ht)
      as (_ & W1 & W2 & _)
  end.
  split; [exact W1|exact W2].
Defined.

Lemma utilization_is_a_fraction_witness :
  let s := example_run json_busy_line 80 in
  0 <= tram_capacity (config_of json_busy_line) /\
  Forall (fun d => (0 <= d <= 0.75)%Q) (utilization_deviations s).
Proof.
  intros s.
  assert (Hs : reachable gauss_mean uniform_one (config_of json_busy_line) tt s).
  { apply example_run_reachable; vm_compute; reflexivity. }
  assert (Hc : 0 <= tram_capacity (config_of json_busy_line))
    by (vm_compute; discriminate).
  split; [exact Hc|].
  exact (proj2 (utilization_is_a_fraction gauss_mean uniform_one _ tt s Hc Hs)).
Defined.

Lemma stop_books_hold_witness :
  exists st,
    stops (example_run json_busy_line 80) !! 2 = Some st /\
    0 <= waiting_passengers st /\
    chronological fst (waiting_history st).
Proof.
  set (s := example_run json_busy_line 80).
  assert (Hs : reachable gauss_mean uniform_one (config_of json_busy_line) tt s).
  { apply example_run_reachable; vm_compute; reflexivity. }
  eexists. split; [vm_compute; reflexivity|].
  match goal with |- 0 <= waiting_passengers ?st /\ _ =>
    assert (Hi : stops s !! 2 = Some st) by (vm_compute; reflexivity);
    destruct (stop_books_hold gauss_mean uniform_one _ tt s 2 st Hs Hi)
      as (_ & _ & W1 & _ & _ & W2 & _)
  end.
  split; [exact W1|exact W2].
Defined.

Lemma first_trips_in_order_witness :
  exists f,
    processes (example_run (json_two_stops 100) 30) !! 1%nat = Some f /\
    trip_tram f = 2.
Proof.
  set (s := example_run (json_two_stops 100) 30).
  assert (Hs : reachable gauss_mean uniform_one (config_of (json_two_stops 100)) tt s).
  { apply example_run_reachable; vm_compute; reflexivity. }
  eexists. split; [vm_compute; reflexivity|].
  apply (first_trips_in_order gauss_mean uniform_one _ tt s 1 _ Hs).
  - vm_compute. reflexivity.
  - lia.
Defined.

Lemma randint_walk_in_range : randint_in_range randint_walk.
Proof.
  intros g a b Hab. unfold randint_walk.
  destruct (Z.ltb_spec b a); [lia|].
  eexists _, _. split; [reflexivity|].
  pose proof (Z.mod_pos_bound g (b - a + 1) ltac:(lia)). lia.
Defined.

Lemma generate_distances_table_witness :
  exists l g',
    generate_distances randint_walk 4 400 800 7 = Some (l, g') /\
    l.*1 = seqZ 1 (Z.max 1 4) /\
    l !! 0%nat = Some (1, 0) /\
    Forall (fun kv => (50 | kv.2) /\ 400 - 50 < kv.2 <= 800) (tail l).
Proof.
  apply generate_distances_table; [exact randint_walk_in_range|lia].
Defined.

Lemma create_config_well_formed_witness :
  exists j g' cfg,
    create_config randint_walk 5 120 2 40 None 7 = Some (j, g') /\
    load_config j = Ok cfg /\ stop_number cfg = 5 /\ peak_stop cfg = 3.
Proof.
  destruct (create_config_well_formed randint_walk 5 120 2 40 None 7
              randint_walk_in_range)
    as (j & g' & cfg & W1 & W2 & W3 & _ & _ & _ & W4 & _).
  exists j, g', cfg. repeat (split; [assumption|]). exact W4.
Defined.

Lemma create_config_runs_witness :
  exists j g' cfg s0,
    create_config randint_walk 5 120 2 40 None 7 = Some (j, g') /\
    load_config j = Ok cfg /\
    run_simulation cfg tt = Ok s0 /\
    forall n, (exists s, steps gauss_mean uniform_one cfg n s0 = Running s) \/
              (exists s, steps gauss_mean uniform_one cfg n s0 = Halted s).
Proof.
  apply (create_config_runs randint_walk gauss_mean uniform_one 5 120 2 40 None 7 tt);
    [exact randint_walk_in_range|lia|lia].
Defined.

Lemma default_peak_stop_is_busiest_witness :
  let j := generated_example.1 in
  let cfg := config_of j in
  create_config randint_walk 5 120 2 40 None 7 = Some (j, generated_example.2) /\
  load_config j = Ok cfg /\
  peak_stop cfg = 3 /\
  (get_intensity cfg 1 8 <= get_intensity cfg (peak_stop cfg) 8)%Q.
Proof.
  intros j cfg.
  assert (H1 : create_config randint_walk 5 120 2 40 None 7
               = Some (j, generated_example.2)) by (vm_compute; reflexivity).
  assert (H2 : load_config j = Ok cfg) by (vm_compute; reflexivity).
  destruct (default_peak_stop_is_busiest randint_walk 5 120 2 40 7 _ j cfg H1 H2)
    as [W1 W2].
  split; [exact H1|]. split; [exact H2|]. split; [exact W1|].
  exact (proj2 (W2 1 8)).
Defined.

Lemma peak_hour_floor_witness :
  let cfg := config_of json_custom in
  road_loads cfg = dict_of_items (generate_road_loads None) /\
  (flow_speed cfg <= 47)%Q /\
  (actual_speed cfg 8 1 == 5)%Q.
Proof.
  intros cfg.
  assert (H1 : road_loads cfg = dict_of_items (generate_road_loads None))
    by (vm_compute; reflexivity).
  assert (H2 : 8 ∈ default [8; 9; 17; 18] (@None (list Z))) by (simpl; left).
  assert (H3 : 0 <= 8 < 24) by lia.
  assert (H4 : (flow_speed cfg <= 47)%Q) by (vm_compute; discriminate).
  split; [exact H1|]. split; [exact H4|].
  apply (proj1 (peak_hour_floor uniform_one cfg None 8 H1 H2 H3 H4)).
  split; vm_compute; discriminate.
Defined.

Lemma final_stats_ranges_witness :
  length (all_trams_created (example_run json_busy_line 80)) = 8%nat.
Proof.
  set (s := example_run json_busy_line 80).
  assert (Hs : reachable gauss_mean uniform_one (config_of json_busy_line) tt s).
  { apply example_run_reachable; vm_compute; reflexivity. }
  exact (proj1 (final_stats_ranges gauss_mean uniform_one _ tt s Hs)).
Defined.

Lemma create_summary_agrees_witness :
  let s := example_run json_busy_line 80 in
  length (create_summary (trams s)) = length (save_all_trams (trams s)) /\
  StronglySorted Z.le (row_tram_id <$> create_summary (trams s)).
Proof.
  intros s.
  assert (Hs : reachable gauss_mean uniform_one (config_of json_busy_line) tt s).
  { apply example_run_reachable; vm_compute; reflexivity. }
  destruct (create_summary_agrees gauss_mean uniform_one _ tt s Hs)
    as (_ & W1 & W2 & _).
  split; [exact W1|exact W2].
Defined.

Lemma arrivals_counted_witness :
  let s := example_run json_busy_line 80 in
  sum_values samples (stops s) = 2 * Z.of_nat (length (utilization_deviations s)).
Proof.
  intros s.
  assert (Hs : reachable gauss_mean uniform_one (config_of json_busy_line) tt s).
  { apply example_run_reachable; vm_compute; reflexivity. }
  exact (proj2 (arrivals_counted gauss_mean uniform_one _ tt s Hs)).
Defined.

Lemma create_custom_config_runs_witness :
  create_custom_config 3 [100; 200; 150] [500; 700] 2 = Ok json_custom /\
  exists cfg s0,
    load_config json_custom = Ok cfg /\
    run_simulation cfg tt = Ok s0 /\
    forall n, (exists s, steps gauss_mean uniform_one cfg n s0 = Running s) \/
              (exists s, steps gauss_mean uniform_one cfg n s0 = Halted s).
Proof.
  assert (H : create_custom_config 3 [100; 200; 150] [500; 700] 2 = Ok json_custom)
    by (vm_compute; reflexivity).
  split; [exact H|].
  exact (create_custom_config_runs gauss_mean uniform_one 3 [100; 200; 150]
           [500; 700] 2 json_custom tt H).
Defined.
